(** * jupyterbook.js: the page-enhancement routines, embedded and verified

    The script [assets/js/jupyterbook.js] is a set of routines that query and
    mutate the DOM of an already rendered page.  This development embeds them
    over an explicit model of the page: the element tree, the listener and
    timer tables of the browser, and the script's global variables.  *)

From stdpp Require Import base decidable option list strings gmap pretty.
From Stdlib Require Import Lia.

Set Warnings "-register-all,-clear-no-such-hyp".

(** ** Elements and the document tree *)

(** An element object.  [nid] is the identity of the object: a NodeList, a
    closure or a global variable holds elements by reference, and the
    reference is the [nid].  Tags are the lower-case local names that the
    selectors of the script use.  [classes] is the [classList]; [attrs] is
    the attribute map without [class]; [checked] is the property of the same
    name of an [input]. *)
Record Elem := mkElem {
  nid : nat;
  tag : string;
  classes : list string;
  attrs : gmap string string;
  checked : bool
}.

(** Text nodes take no part in any query or mutation of the script: the tree
    holds elements only. *)
Inductive Node := N (e : Elem) (kids : list Node).

Definition elem (t : Node) : Elem := match t with N e _ => e end.
Definition kids (t : Node) : list Node := match t with N _ ks => ks end.

Definition with_attr (k v : string) (e : Elem) : Elem :=
  mkElem (nid e) (tag e) (classes e) (<[k:=v]> (attrs e)) (checked e).

Definition with_checked (b : bool) (e : Elem) : Elem :=
  mkElem (nid e) (tag e) (classes e) (attrs e) b.

(** [classList.add]: the token is appended unless it is already there. *)
Definition with_class (c : string) (e : Elem) : Elem :=
  mkElem (nid e) (tag e)
         (if bool_decide (c ∈ classes e) then classes e else classes e ++ [c])
         (attrs e) (checked e).

(** [classList.remove]: every occurrence of the token goes. *)
Definition without_class (c : string) (e : Elem) : Elem :=
  mkElem (nid e) (tag e)
         (filter (λ x, x ≠ c) (classes e))
         (attrs e) (checked e).

(** A frame is an element with its preceding element siblings, nearest
    first; a path is the frame of an element followed by the frames of its
    ancestors, nearest first.  A selector is matched against a path. *)
Definition Frame : Type := Elem * list Elem.
Definition Path : Type := list Frame.

Definition path_nid (p : Path) : option nat :=
  match p with (e, _) :: _ => Some (nid e) | [] => None end.

Definition path_elem (p : Path) : option Elem :=
  match p with (e, _) :: _ => Some e | [] => None end.

(** Children of one parent, left to right, each with the siblings before it. *)
Fixpoint walk {A} (f : list Elem → Node → list A) (ps : list Elem)
    (l : list Node) : list A :=
  match l with
  | [] => []
  | c :: r => f ps c ++ walk f (elem c :: ps) r
  end.

(** All elements of a subtree in document order, each with its path. *)
Fixpoint entries (ups : Path) (ps : list Elem) (t : Node) : list Path :=
  match t with
  | N e ks => let here := (e, ps) :: ups in here :: walk (entries here) [] ks
  end.

Fixpoint elems (t : Node) : list Elem :=
  match t with
  | N e ks => e :: concat (map elems ks)
  end.

Definition nids (t : Node) : list nat := map nid (elems t).

(** Element objects are distinct. *)
Definition wf (t : Node) : Prop := NoDup (nids t).

Global Instance wf_dec t : Decision (wf t).
Proof. unfold wf. apply _. Defined.

Definition find_path (n : nat) (t : Node) : option Path :=
  head (filter (λ p, path_nid p = Some n) (entries [] [] t)).

Definition find_elem (n : nat) (t : Node) : option Elem :=
  head (filter (λ e, nid e = n) (elems t)).

(** [parentElement]: the element of the second frame of the path. *)
Definition parent_of (n : nat) (t : Node) : option Elem :=
  match find_path n t with
  | Some (_ :: (pe, _) :: _) => Some pe
  | _ => None
  end.

(** [previousElementSibling]. *)
Definition previous_sibling (n : nat) (t : Node) : option Elem :=
  match find_path n t with
  | Some ((_, pe :: _) :: _) => Some pe
  | _ => None
  end.

(** The element right after [n] in a list of siblings. *)
Fixpoint next_in (n : nat) (l : list Node) : option Elem :=
  match l with
  | a :: r =>
      if bool_decide (nid (elem a) = n) then elem <$> head r else next_in n r
  | [] => None
  end.

Fixpoint first_some {A B} (f : A → option B) (l : list A) : option B :=
  match l with
  | [] => None
  | x :: r => match f x with Some y => Some y | None => first_some f r end
  end.

(** [nextElementSibling] of the element [n]: looked up among the children
    of the root, then further down. *)
Fixpoint next_sibling (n : nat) (t : Node) : option Elem :=
  match t with
  | N _ ks =>
      match next_in n ks with
      | Some x => Some x
      | None => first_some (next_sibling n) ks
      end
  end.

(** The references of the elements below the root. *)
Definition below_root (t : Node) : list nat := concat (map nids (kids t)).

(** A reference that no element of the tree carries yet. *)
Definition fresh (t : Node) : nat := S (max_list (nids t)).

(** ** Mutations of the tree *)

(** Change the element [n] in place. *)
Fixpoint update (n : nat) (f : Elem → Elem) (t : Node) : Node :=
  match t with
  | N e ks => N (if bool_decide (nid e = n) then f e else e)
                (map (update n f) ks)
  end.

(** [insertAdjacentHTML('afterend', ...)]: the new nodes become the next
    siblings of [n].  [splice_list f n new ks] is the child list [ks] with
    [f] applied to every child and [new] put after the child [n]. *)
Definition splice_list (f : Node → Node) (n : nat) (new : list Node)
    (ks : list Node) : list Node :=
  concat (map (λ c, f c :: (if bool_decide (nid (elem c) = n) then new else []))
              ks).

Fixpoint splice_after (n : nat) (new : list Node) (t : Node) : Node :=
  match t with
  | N e ks => N e (splice_list (splice_after n new) n new ks)
  end.

(** [insertAdjacentHTML('beforeend', ...)]: the new nodes become the last
    children of [n]. *)
Fixpoint append_children (n : nat) (new : list Node) (t : Node) : Node :=
  match t with
  | N e ks =>
      N e (map (append_children n new) ks ++
           (if bool_decide (nid e = n) then new else []))
  end.

(** ** Selectors *)

Inductive Simple :=
| STag (t : string)
| SClass (c : string)
| SId (i : string).

Definition Compound : Type := list Simple.

Inductive Combinator := Descendant | Child | Adjacent.

(** A complex selector, read from its subject (the rightmost compound)
    leftwards: [Comb l k c] is [l k c]. *)
Inductive Complex :=
| Sel (c : Compound)
| Comb (l : Complex) (k : Combinator) (c : Compound).

(** A selector list [a, b, ...]. *)
Definition Selector : Type := list Complex.

Definition match_simple (s : Simple) (e : Elem) : bool :=
  match s with
  | STag t => bool_decide (tag e = t)
  | SClass c => bool_decide (c ∈ classes e)
  | SId i => bool_decide (attrs e !! "id" = Some i)
  end.

Definition match_compound (c : Compound) (e : Elem) : bool :=
  forallb (λ s, match_simple s e) c.

(** Some proper or improper suffix of [l] satisfies [f]. *)
Fixpoint some_suffix {A} (f : list A → bool) (l : list A) : bool :=
  f l || match l with _ :: r => some_suffix f r | [] => false end.

Fixpoint match_complex (s : Complex) (p : Path) : bool :=
  match s with
  | Sel c =>
      match p with (e, _) :: _ => match_compound c e | [] => false end
  | Comb l k c =>
      match p with
      | (e, ps) :: ups =>
          match_compound c e &&
          match k with
          | Child => match_complex l ups
          | Descendant => some_suffix (match_complex l) ups
          | Adjacent =>
              match ps with
              | pe :: ps' => match_complex l ((pe, ps') :: ups)
              | [] => false
              end
          end
      | [] => false
      end
  end.

Definition matches (s : Selector) (p : Path) : bool :=
  existsb (λ c, match_complex c p) s.

(** [document.querySelectorAll]: the matching elements in document order,
    as a static list of references. *)
Definition select (s : Selector) (t : Node) : list nat :=
  omap path_nid (filter (λ p, matches s p = true) (entries [] [] t)).

(** [el.querySelectorAll]: matching is against the whole document, the
    results are the proper descendants of [el]. *)
Definition is_below (n : nat) (p : Path) : bool :=
  match p with
  | _ :: ups => bool_decide (n ∈ omap (λ f : Frame, Some (nid f.1)) ups)
  | [] => false
  end.

Definition select_in (n : nat) (s : Selector) (t : Node) : list nat :=
  omap path_nid
       (filter (λ p, is_below n p && matches s p = true) (entries [] [] t)).

(** [document.getElementById]. *)
Definition by_id (i : string) (t : Node) : option nat :=
  nid <$> head (filter (λ e, attrs e !! "id" = Some i) (elems t)).

(** ** The page state *)

Inductive ReadyState := Loading | Interactive | Complete.

Inductive Routine :=
| FindCodeCells
| FindInputCells
| AddCopyButtonToCodeCells
| InitHiddenCells
| InitAnchors
| InitToc.

(** The function values that the script hands to the browser or to a
    library: the routines by name and the closures it creates. *)
Inductive Callback :=
| Named (r : Routine)
| RestoreTooltip (el : nat) (oldText : option string)
| CopySucceeded
| CopyFailed
| DestroyClipboard (clipboard : nat)
| ToggleCodeCellVisibility.

Inductive Target := Document | Element (n : nat).

Inductive JsError :=
| TypeError
| NoModificationAllowedError
| StaleReference
| UnreadSelector.

Global Instance ReadyState_eq_dec : EqDecision ReadyState.
Proof. solve_decision. Defined.
Global Instance Routine_eq_dec : EqDecision Routine.
Proof. solve_decision. Defined.
Global Instance Callback_eq_dec : EqDecision Callback.
Proof. solve_decision. Defined.
Global Instance Target_eq_dec : EqDecision Target.
Proof. solve_decision. Defined.

(** A live [ClipboardJS] instance: the selector it was built on, the
    handlers given to [on], and whether [destroy] was called. *)
Record Clipboard := mkClipboard {
  cj_selector : Selector;
  cj_handlers : list (string * Callback);
  cj_destroyed : bool
}.

(** The options object of [tocbot.init]; the selectors are text for the
    library to read. *)
Record TocbotOptions := mkTocbotOptions {
  tocSelector : string;
  contentSelector : string;
  headingSelector : string;
  orderedList : bool;
  collapseDepth : nat;
  listClass : string;
  activeListItemClass : string;
  activeLinkClass : string
}.

(** The page as the script sees it.  [anchors] and [tocbot] are the library
    globals, [None] while the library has not loaded; what a library call
    does to the document is the library's.  [pageElements] and [hideLink]
    are the global variables of the script; [hideLink] is [None] until its
    first assignment and then holds the (possibly null) query result.
    [listeners], [attached], [timers] and [clipboards] are the tables the
    browser and ClipboardJS keep.  [calls] logs every call of a function
    value, in order. *)
Record State := mkState {
  document : Node;
  readyState : ReadyState;
  hasAddEventListener : bool;
  hasGetSelection : bool;
  hasDocumentSelection : bool;
  ClipboardJS : bool;
  anchors : option (string → Node → Node);
  tocbot : option (TocbotOptions → Node → Node);
  pageElements : gmap string (list nat);
  hideLink : option (option nat);
  listeners : list (Target * string * Callback);
  attached : list (string * Callback);
  timers : list (Callback * nat);
  clipboards : list Clipboard;
  selection : bool;
  calls : list Callback
}.

Definition set_document (d : Node) (s : State) : State :=
  mkState d (readyState s) (hasAddEventListener s) (hasGetSelection s)
    (hasDocumentSelection s) (ClipboardJS s) (anchors s) (tocbot s)
    (pageElements s) (hideLink s) (listeners s) (attached s) (timers s)
    (clipboards s) (selection s) (calls s).

Definition set_pageElements (pe : gmap string (list nat)) (s : State) : State :=
  mkState (document s) (readyState s) (hasAddEventListener s)
    (hasGetSelection s) (hasDocumentSelection s) (ClipboardJS s) (anchors s)
    (tocbot s) pe (hideLink s) (listeners s) (attached s) (timers s)
    (clipboards s) (selection s) (calls s).

Definition set_hideLink (h : option (option nat)) (s : State) : State :=
  mkState (document s) (readyState s) (hasAddEventListener s)
    (hasGetSelection s) (hasDocumentSelection s) (ClipboardJS s) (anchors s)
    (tocbot s) (pageElements s) h (listeners s) (attached s) (timers s)
    (clipboards s) (selection s) (calls s).

Definition set_listeners (l : list (Target * string * Callback)) (s : State)
  : State :=
  mkState (document s) (readyState s) (hasAddEventListener s)
    (hasGetSelection s) (hasDocumentSelection s) (ClipboardJS s) (anchors s)
    (tocbot s) (pageElements s) (hideLink s) l (attached s) (timers s)
    (clipboards s) (selection s) (calls s).

Definition set_attached (l : list (string * Callback)) (s : State) : State :=
  mkState (document s) (readyState s) (hasAddEventListener s)
    (hasGetSelection s) (hasDocumentSelection s) (ClipboardJS s) (anchors s)
    (tocbot s) (pageElements s) (hideLink s) (listeners s) l (timers s)
    (clipboards s) (selection s) (calls s).

Definition set_timers (l : list (Callback * nat)) (s : State) : State :=
  mkState (document s) (readyState s) (hasAddEventListener s)
    (hasGetSelection s) (hasDocumentSelection s) (ClipboardJS s) (anchors s)
    (tocbot s) (pageElements s) (hideLink s) (listeners s) (attached s) l
    (clipboards s) (selection s) (calls s).

Definition set_clipboards (l : list Clipboard) (s : State) : State :=
  mkState (document s) (readyState s) (hasAddEventListener s)
    (hasGetSelection s) (hasDocumentSelection s) (ClipboardJS s) (anchors s)
    (tocbot s) (pageElements s) (hideLink s) (listeners s) (attached s)
    (timers s) l (selection s) (calls s).

Definition set_selection (b : bool) (s : State) : State :=
  mkState (document s) (readyState s) (hasAddEventListener s)
    (hasGetSelection s) (hasDocumentSelection s) (ClipboardJS s) (anchors s)
    (tocbot s) (pageElements s) (hideLink s) (listeners s) (attached s)
    (timers s) (clipboards s) b (calls s).

Definition set_calls (l : list Callback) (s : State) : State :=
  mkState (document s) (readyState s) (hasAddEventListener s)
    (hasGetSelection s) (hasDocumentSelection s) (ClipboardJS s) (anchors s)
    (tocbot s) (pageElements s) (hideLink s) (listeners s) (attached s)
    (timers s) (clipboards s) (selection s) l.

(** ** Statements: state passing with exceptions *)

Inductive Result (A : Type) :=
| Ok (a : A)
| Throw (e : JsError).
Arguments Ok {A} a.
Arguments Throw {A} e.

(** A statement runs on a state and ends normally with a value or throws;
    the mutations made before a throw stay. *)
Definition M (A : Type) : Type := State → Result A * State.

Definition ret {A} (a : A) : M A := λ s, (Ok a, s).
Definition throw {A} (e : JsError) : M A := λ s, (Throw e, s).
Definition bind {A B} (m : M A) (k : A → M B) : M B :=
  λ s, match m s with
       | (Ok a, s') => k a s'
       | (Throw e, s') => (Throw e, s')
       end.

Notation "x <- m ;; k" := (bind m (λ x, k))
  (at level 100, m at next level, right associativity).
Notation "m ;; k" := (bind m (λ _, k))
  (at level 100, right associativity).

Definition reads {A} (f : State → A) : M A := λ s, (Ok (f s), s).
Definition writes (f : State → State) : M unit := λ s, (Ok (), f s).

Definition exec {A} (m : M A) (s : State) : State := (m s).2.
Definition outcome {A} (m : M A) (s : State) : Result A := (m s).1.

(** [list.forEach(f)] on a static list; a throw ends the loop. *)
Fixpoint forEach {A} (l : list A) (f : A → M unit) : M unit :=
  match l with
  | [] => ret ()
  | x :: r => f x ;; forEach r f
  end.

(** [list.forEach((x, index) => ...)], the indices counted from [i]. *)
Fixpoint forEach_from {A} (i : nat) (l : list A) (f : A → nat → M unit)
  : M unit :=
  match l with
  | [] => ret ()
  | x :: r => f x i ;; forEach_from (S i) r f
  end.

(** Use of a possibly null or undefined value as an object. *)
Definition deref {A} (o : option A) : M A :=
  match o with Some a => ret a | None => throw TypeError end.

(** A string built from a possibly null value, as [`${x}`] and ["" + x]
    build it. *)
Definition js_string (o : option string) : string := default "null" o.

(** ** Operations of the browser *)

Definition querySelectorAll (sel : Selector) : M (list nat) :=
  reads (λ s, select sel (document s)).

Definition querySelector (sel : Selector) : M (option nat) :=
  reads (λ s, head (select sel (document s))).

Definition getElementById (i : string) : M (option nat) :=
  reads (λ s, by_id i (document s)).

(** An identifier of the plain kind: a letter or [_], then letters, digits,
    [_] and [-]. *)
Definition ident_start (c : Ascii.ascii) : bool :=
  let n := Ascii.nat_of_ascii c in
  bool_decide (65 ≤ n ≤ 90) || bool_decide (97 ≤ n ≤ 122) || bool_decide (n = 95).

Definition ident_char (c : Ascii.ascii) : bool :=
  let n := Ascii.nat_of_ascii c in
  ident_start c || bool_decide (48 ≤ n ≤ 57) || bool_decide (n = 45).

Fixpoint ident_chars (s : string) : bool :=
  match s with
  | EmptyString => true
  | String c r => ident_char c && ident_chars r
  end.

Definition css_identifier (s : string) : bool :=
  match s with
  | EmptyString => false
  | String c r => ident_start c && ident_chars r
  end.

(** [document.querySelector(text)] for a text that the script builds by
    splicing [id] in after a [#].  When [id] is an identifier the text is
    the selector [sel id].  For any other [id] the browser throws a
    SyntaxError or reads a selector the script does not mean; the model
    does not read such a text, and the statement ends there. *)
Definition querySelector_id (sel : string → Selector) (id : string)
  : M (option nat) :=
  if css_identifier id then querySelector (sel id) else throw UnreadSelector.

(** The element behind a reference.  The model holds the elements of the
    current document; a reference to anything else is outside it. *)
Definition the_elem (n : nat) : M Elem :=
  λ s, match find_elem n (document s) with
       | Some e => (Ok e, s)
       | None => (Throw StaleReference, s)
       end.

Definition modify (n : nat) (f : Elem → Elem) : M unit :=
  _ <- the_elem n ;;
  writes (λ s, set_document (update n f (document s)) s).

Definition getAttribute (n : nat) (k : string) : M (option string) :=
  e <- the_elem n ;; ret (attrs e !! k).

Definition setAttribute (n : nat) (k v : string) : M unit :=
  modify n (with_attr k v).

Definition classList_contains (n : nat) (c : string) : M bool :=
  e <- the_elem n ;; ret (bool_decide (c ∈ classes e)).

Definition classList_add (n : nat) (c : string) : M unit :=
  modify n (with_class c).

Definition classList_remove (n : nat) (c : string) : M unit :=
  modify n (without_class c).

Definition get_checked (n : nat) : M bool :=
  e <- the_elem n ;; ret (checked e).

Definition set_checked (n : nat) (b : bool) : M unit :=
  modify n (with_checked b).

(** [el.tagName]: the local name in upper case. *)
Definition upper (c : Ascii.ascii) : Ascii.ascii :=
  let n := Ascii.nat_of_ascii c in
  if bool_decide (97 ≤ n ≤ 122) then Ascii.ascii_of_nat (n - 32) else c.

Fixpoint uppercase (s : string) : string :=
  match s with
  | EmptyString => EmptyString
  | String c r => String (upper c) (uppercase r)
  end.

Definition tagName (n : nat) : M string :=
  e <- the_elem n ;; ret (uppercase (tag e)).

Definition previousElementSibling (n : nat) : M (option nat) :=
  _ <- the_elem n ;;
  reads (λ s, nid <$> previous_sibling n (document s)).

Definition parentElement (n : nat) : M (option nat) :=
  _ <- the_elem n ;;
  reads (λ s, nid <$> parent_of n (document s)).

(** [el.querySelector(sel)]. *)
Definition querySelector_in (n : nat) (sel : Selector) : M (option nat) :=
  _ <- the_elem n ;;
  reads (λ s, head (select_in n sel (document s))).

Inductive Position := BeforeEnd | AfterEnd.

(** [el.insertAdjacentHTML(pos, html)].  The markup is given parsed, as the
    elements it denotes, built from the first free reference on.  After the
    end of the root element, whose parent is not an element, the call
    throws. *)
Definition insertAdjacentHTML (n : nat) (pos : Position)
    (html : nat → list Node) : M unit :=
  _ <- the_elem n ;;
  match pos with
  | AfterEnd =>
      root <- reads (λ s, nid (elem (document s))) ;;
      if bool_decide (root = n) then throw NoModificationAllowedError
      else
        writes (λ s, set_document
                       (splice_after n (html (fresh (document s))) (document s)) s)
  | BeforeEnd =>
      writes (λ s, set_document
                     (append_children n (html (fresh (document s))) (document s)) s)
  end.

(** [target.addEventListener(type, cb)]: a listener already on the target
    for the type is not added again.  Where the method does not exist the
    call throws. *)
Definition addEventListener (t : Target) (ev : string) (cb : Callback)
  : M unit :=
  has <- reads hasAddEventListener ;;
  if has : bool then
    writes (λ s, if bool_decide ((t, ev, cb) ∈ listeners s) then s
                 else set_listeners (listeners s ++ [(t, ev, cb)]) s)
  else throw TypeError.

(** [document.attachEvent(name, handler)], the handler being the function of
    [runWhenDOMLoaded] that wraps [cb]. *)
Definition attachEvent (name : string) (cb : Callback) : M unit :=
  writes (λ s, set_attached (attached s ++ [(name, cb)]) s).

Definition setTimeout (cb : Callback) (ms : nat) : M unit :=
  writes (λ s, set_timers (timers s ++ [(cb, ms)]) s).

(** [new ClipboardJS(sel)]; the result names the instance. *)
Definition new_ClipboardJS (sel : Selector) : M nat :=
  λ s, (Ok (length (clipboards s)),
        set_clipboards (clipboards s ++ [mkClipboard sel [] false]) s).

Definition clipboard_on (c : nat) (name : string) (cb : Callback) : M unit :=
  writes (λ s, set_clipboards
                 (alter (λ x, mkClipboard (cj_selector x)
                                (cj_handlers x ++ [(name, cb)]) (cj_destroyed x))
                        c (clipboards s)) s).

Definition clipboard_destroy (c : nat) : M unit :=
  writes (λ s, set_clipboards
                 (alter (λ x, mkClipboard (cj_selector x) (cj_handlers x) true)
                        c (clipboards s)) s).

(** A call into a library: the library rewrites the document. *)
Definition library_call (f : Node → Node) : M unit :=
  writes (λ s, set_document (f (document s)) s).

(** ** The script *)

(** Compound selectors [div.c] and the three combinators. *)
Definition div_ (c : string) : Compound := [STag "div"; SClass c].
Notation "l ⟩ c" := (Comb l Child c) (at level 40, left associativity).
Notation "l ⎵ c" := (Comb l Descendant c) (at level 40, left associativity).
Notation "l ⊕ c" := (Comb l Adjacent c) (at level 40, left associativity).

Definition codeCellId (index : nat) : string := "codecell" +:+ pretty index.
Definition inputCellId (index : nat) : string := "inputcell" +:+ pretty index.

Definition codeCellSelector : Selector :=
  [ Sel (div_ "c-textbook__content") ⟩ div_ "highlighter-rouge"
      ⟩ div_ "highlight" ⟩ [STag "pre"];
    Sel (div_ "input_area") ⎵ [STag "pre"];
    Sel (div_ "text_cell_render") ⎵ div_ "highlight" ⎵ [STag "pre"] ].

Definition inputCellSelector : Selector := [ Sel (div_ "jb_cell") ].

Definition findCodeCells : M unit :=
  codeCells <- querySelectorAll codeCellSelector ;;
  writes (λ s, set_pageElements (<["codeCells" := codeCells]> (pageElements s)) s) ;;
  forEach_from 0 codeCells (λ codeCell index,
    let id := codeCellId index in
    setAttribute codeCell "id" id).

Definition findInputCells : M unit :=
  inputCells <- querySelectorAll inputCellSelector ;;
  writes (λ s, set_pageElements (<["inputCells" := inputCells]> (pageElements s)) s) ;;
  forEach_from 0 inputCells (λ inputCell index,
    let id := inputCellId index in
    setAttribute inputCell "id" id).

(** *** Copy buttons *)

Definition el (n : nat) (t : string) (cs : list string)
    (kvs : list (string * string)) : Elem :=
  mkElem n t cs (list_to_map kvs) false.

Definition copySVG (base : nat) : Node :=
  N (el base "svg" ["svg-inline--fa"; "fa-copy"; "fa-w-14"]
        [("aria-labelledby", "title"); ("aria-hidden", "true");
         ("data-prefix", "far"); ("data-icon", "copy"); ("role", "img");
         ("xmlns", "http://www.w3.org/2000/svg"); ("viewBox", "0 0 448 512")])
    [ N (el (base + 1) "title" [] [("id", "title"); ("lang", "en")]) [];
      N (el (base + 2) "path" []
            [("fill", "#777");
             ("d", "M433.941 65.941l-51.882-51.882A48 48 0 0 0 348.118 0H176c-26.51 0-48 21.49-48 48v48H48c-26.51 0-48 21.49-48 48v320c0 26.51 21.49 48 48 48h224c26.51 0 48-21.49 48-48v-48h80c26.51 0 48-21.49 48-48V99.882a48 48 0 0 0-14.059-33.941zM266 464H54a6 6 0 0 1-6-6V150a6 6 0 0 1 6-6h74v224c0 26.51 21.49 48 48 48h96v42a6 6 0 0 1-6 6zm128-96H182a6 6 0 0 1-6-6V54a6 6 0 0 1 6-6h106v88c0 13.255 10.745 24 24 24h88v202a6 6 0 0 1-6 6zm6-256h-64V48h9.632c1.591 0 3.117.632 4.243 1.757l48.368 48.368a6 6 0 0 1 1.757 4.243V112z")])
        [] ].

(** The markup of a copy button for the element with the given id, parsed.
    (The id is spliced into the markup as text; ids without a quote, as the
    ones the script assigns, give these attributes.) *)
Definition clipboardButton (id : string) (base : nat) : list Node :=
  [ N (el base "a" ["btn"; "copybtn"; "o-tooltip--left"]
          [("id", "copy-button-" +:+ id); ("data-tooltip", "Copy");
           ("data-clipboard-target", "#" +:+ id)])
      [copySVG (base + 1)] ].

Definition clearSelection : M unit :=
  g <- reads hasGetSelection ;;
  if g : bool then writes (set_selection false)
  else
    d <- reads hasDocumentSelection ;;
    if d : bool then writes (set_selection false) else ret ().

Definition temporarilyChangeTooltip (el : nat) (newText : string) : M unit :=
  oldText <- getAttribute el "data-tooltip" ;;
  setAttribute el "data-tooltip" newText ;;
  setTimeout (RestoreTooltip el oldText) 2000.

(** Reading a key of [pageElements] and using the value as a list. *)
Definition pageElement (k : string) : M (list nat) :=
  v <- reads (λ s, pageElements s !! k) ;; deref v.

Definition addCopyButtonToCodeCells : M unit :=
  loaded <- reads ClipboardJS ;;
  if negb loaded then setTimeout (Named AddCopyButtonToCodeCells) 250
  else
    codeCells <- pageElement "codeCells" ;;
    forEach codeCells (λ codeCell,
      id <- getAttribute codeCell "id" ;;
      found <- getElementById ("copy-button" +:+ js_string id) ;;
      match found with
      | None => insertAdjacentHTML codeCell AfterEnd (clipboardButton (js_string id))
      | Some _ => ret ()
      end) ;;
    clipboard <- new_ClipboardJS [Sel [SClass "copybtn"]] ;;
    clipboard_on clipboard "success" CopySucceeded ;;
    clipboard_on clipboard "error" CopyFailed ;;
    addEventListener Document "turbolinks:before-visit" (DestroyClipboard clipboard).

(** *** Hide buttons *)

(** The selector that [`#${id} div.highlight`] denotes for an id that is
    an identifier, as the ids the script assigns and as [null] are. *)
Definition highlightOf (id : string) : Selector :=
  [ Sel [SId id] ⎵ div_ "highlight" ].

Definition setCodeCellVisibility (inputField : nat) (kind : string) : M unit :=
  id <- getAttribute inputField "data-id" ;;
  found <- querySelector_id highlightOf (js_string id) ;;
  if bool_decide (kind = "visible") then
    codeCell <- deref found ;;
    classList_remove codeCell "hidden" ;;
    set_checked inputField true
  else
    codeCell <- deref found ;;
    classList_add codeCell "hidden" ;;
    set_checked inputField false.

Definition toggleCodeCellVisibility (target : nat) : M unit :=
  name <- tagName target ;;
  inputField <-
    (if bool_decide (name = "LABEL") then previousElementSibling target
     else
       parent <- parentElement target ;;
       parent <- deref parent ;;
       previousElementSibling parent) ;;
  inputField <- deref inputField ;;
  c <- get_checked inputField ;;
  if c : bool then setCodeCellVisibility inputField "visible"
  else setCodeCellVisibility inputField "hidden".

(** The markup of a hide button, parsed: the checkbox and its label. *)
Definition hideCodeButton (id : string) (base : nat) : list Node :=
  [ N (el base "input" ["hidebtn"]
          [("type", "checkbox"); ("id", "hidebtn" +:+ id); ("data-id", id)]) [];
    N (el (base + 1) "label" ["plusminus"]
          [("title", "Toggle cell"); ("for", "hidebtn" +:+ id)])
      [ N (el (base + 2) "span" ["pm_h"] []) [];
        N (el (base + 3) "span" ["pm_v"] []) [] ] ].

Definition hiddenInputs : Selector :=
  [ Sel (div_ "tag_hide_input") ⎵ [STag "input"] ].

(** The selector that [`#${id} div.inner_cell + input + label`] denotes
    for an id that is an identifier. *)
Definition hideLinkOf (id : string) : Selector :=
  [ Sel [SId id] ⎵ div_ "inner_cell" ⊕ [STag "input"] ⊕ [STag "label"] ].

Definition addHideButton : M unit :=
  existing <- querySelector hiddenInputs ;;
  match existing with
  | Some _ => ret ()
  | None =>
      inputCells <- pageElement "inputCells" ;;
      forEach inputCells (λ inputCell,
        tagged <- classList_contains inputCell "tag_hide_input" ;;
        if negb tagged then ret ()
        else
          id <- getAttribute inputCell "id" ;;
          input <- querySelector_in inputCell [Sel (div_ "input")] ;;
          input <- deref input ;;
          insertAdjacentHTML input BeforeEnd (hideCodeButton (js_string id)) ;;
          link <- querySelector_id hideLinkOf (js_string id) ;;
          writes (set_hideLink (Some link)) ;;
          link <- deref link ;;
          addEventListener (Element link) "click" ToggleCodeCellVisibility)
  end.

Definition initHiddenCells : M unit :=
  addHideButton ;;
  items <- querySelectorAll hiddenInputs ;;
  forEach items (λ item,
    setCodeCellVisibility item "hidden" ;;
    set_checked item true).

(** *** Anchors and the table of contents *)

Definition initAnchors : M unit :=
  lib <- reads anchors ;;
  match lib with
  | None => setTimeout (Named InitAnchors) 250
  | Some anchors_add =>
      library_call (anchors_add "main h1, main h2, main h3, main h4") ;;
      links <- querySelectorAll [Sel [SClass "anchorjs-link"]] ;;
      forEach links (λ it, setAttribute it "data-turbolinks" "false")
  end.

Definition initToc : M unit :=
  lib <- reads tocbot ;;
  match lib with
  | None => setTimeout (Named InitToc) 250
  | Some tocbot_init =>
      content <- querySelectorAll
                   [Sel [SClass "tag_full_width"]; Sel [SClass "tag_popout"]] ;;
      (if bool_decide (length content = 0) then
         nav <- querySelector [Sel [STag "nav"; SClass "onthispage"]] ;;
         nav <- deref nav ;;
         classList_add nav "no_sidebar_content"
       else ret ()) ;;
      library_call (tocbot_init
        (mkTocbotOptions "nav.onthispage" ".c-textbook__content" "h2, h3"
           false 6 "toc__menu" " " " ")) ;;
      links <- querySelectorAll [Sel [SClass "toc-list-item"] ⎵ [STag "a"]] ;;
      forEach links (λ it, setAttribute it "data-turbolinks" "false")
  end.

(** *** Calling function values *)

Definition routine (r : Routine) : M unit :=
  match r with
  | FindCodeCells => findCodeCells
  | FindInputCells => findInputCells
  | AddCopyButtonToCodeCells => addCopyButtonToCodeCells
  | InitHiddenCells => initHiddenCells
  | InitAnchors => initAnchors
  | InitToc => initToc
  end.

(** The body of a function value; [target] is the element of the event
    ([event.target], [event.trigger]) when the caller passes an event. *)
Definition run (cb : Callback) (target : option nat) : M unit :=
  match cb with
  | Named r => routine r
  | RestoreTooltip el oldText =>
      setAttribute el "data-tooltip" (js_string oldText)
  | CopySucceeded =>
      trigger <- deref target ;;
      clearSelection ;;
      temporarilyChangeTooltip trigger "Copied!"
  | CopyFailed =>
      trigger <- deref target ;;
      temporarilyChangeTooltip trigger "Failed to copy"
  | DestroyClipboard c => clipboard_destroy c
  | ToggleCodeCellVisibility =>
      target <- deref target ;;
      toggleCodeCellVisibility target
  end.

(** A call [cb(...)]: logged, then run. *)
Definition call (cb : Callback) (target : option nat) : M unit :=
  writes (λ s, set_calls (calls s ++ [cb]) s) ;;
  run cb target.

Definition runWhenDOMLoaded (cb : Callback) : M unit :=
  state <- reads readyState ;;
  if bool_decide (state ≠ Loading) then call cb None
  else
    has <- reads hasAddEventListener ;;
    if has : bool then addEventListener Document "DOMContentLoaded" cb
    else attachEvent "onreadystatechange" cb.

Definition initFunction (myfunc : Callback) : M unit :=
  runWhenDOMLoaded myfunc ;;
  addEventListener Document "turbolinks:load" myfunc.

(** The script as the page loads it, top to bottom. *)
Definition script : M unit :=
  writes (set_pageElements ∅) ;;
  initFunction (Named FindCodeCells) ;;
  initFunction (Named FindInputCells) ;;
  initFunction (Named AddCopyButtonToCodeCells) ;;
  initFunction (Named InitHiddenCells) ;;
  initFunction (Named InitAnchors) ;;
  initFunction (Named InitToc).

(** ** The browser around the script *)

(** The browser calls a listener or a timer callback; an exception that
    leaves it is reported and goes no further. *)
Definition invoke (cb : Callback) (target : option nat) (s : State) : State :=
  exec (call cb target) s.

Definition handlers (t : Target) (ev : string) (s : State) : list Callback :=
  omap (λ l : Target * string * Callback,
          if bool_decide (l.1 = (t, ev)) then Some l.2 else None)
       (listeners s).

(** An event of type [ev] reaches [t]: the listeners that are on [t] for
    [ev] at that moment are called in the order they were added. *)
Definition dispatchEvent (t : Target) (ev : string) (target : option nat)
    (s : State) : State :=
  foldl (λ s cb, invoke cb target s) s (handlers t ev s).

(** A handler given to [attachEvent] by [runWhenDOMLoaded] runs. *)
Definition readyStateHandler (cb : Callback) : M unit :=
  state <- reads readyState ;;
  if bool_decide (state = Complete) then call cb None else ret ().

Definition fireEvent (name : string) (s : State) : State :=
  foldl (λ s cb, exec (readyStateHandler cb) s) s
        (omap (λ h : string * Callback,
                 if bool_decide (h.1 = name) then Some h.2 else None)
              (attached s)).

(** The pending timer at position [i] fires. *)
Definition fireTimer (i : nat) (s : State) : State :=
  match timers s !! i with
  | Some (cb, _) => invoke cb None (set_timers (delete i (timers s)) s)
  | None => s
  end.

(** ** Notions used in the statements *)

(** A statement keeps the relation [R] between the state it starts in and
    the state it leaves. *)
Definition respects (R : State → State → Prop) {A} (m : M A) : Prop :=
  ∀ s, R s (exec m s).

(** A statement keeps the part [f] of the state. *)
Definition keeps {B} (f : State → B) : State → State → Prop :=
  λ s s', f s' = f s.

(** [update n f] as it acts on one element. *)
Definition upd (n : nat) (f : Elem → Elem) (e : Elem) : Elem :=
  if bool_decide (nid e = n) then f e else e.

(** The functions the script applies to an element keep its identity. *)
Definition keeps_nid (f : Elem → Elem) : Prop := ∀ e, nid (f e) = nid e.

(** The value of attribute [k] of element [n]; [None] when the element or
    the attribute is missing. *)
Definition attr_of (n : nat) (k : string) (t : Node) : option string :=
  e ← find_elem n t; attrs e !! k.

(** The library global a routine waits for is defined.  The routines that
    wait for none have nothing to wait for. *)
Definition library_loaded (r : Routine) (s : State) : bool :=
  match r with
  | AddCopyButtonToCodeCells => ClipboardJS s
  | InitAnchors => bool_decide (is_Some (anchors s))
  | InitToc => bool_decide (is_Some (tocbot s))
  | _ => true
  end.

(** ** A sample page *)

(** A notebook cell as the site generator renders it: the cell, its input
    area with the highlighted code, nothing else. *)
Definition sample_cell (b : nat) (cs : list string) : Node :=
  N (el b "div" ("jb_cell" :: cs) [])
    [ N (el (b + 1) "div" ["cell"] [])
      [ N (el (b + 2) "div" ["input"] [])
        [ N (el (b + 3) "div" ["inner_cell"] [])
          [ N (el (b + 4) "div" ["input_area"] [])
            [ N (el (b + 5) "div" ["highlight"] [])
              [ N (el (b + 6) "pre" [] []) [] ] ] ] ] ] ].

Definition sample_page : Node :=
  N (el 0 "html" [] [])
    [ N (el 1 "body" [] [])
      [ N (el 2 "div" ["c-textbook__content"] [])
          [ sample_cell 10 ["tag_hide_input"];
            sample_cell 20 [];
            sample_cell 30 ["tag_hide_input"] ];
        N (el 3 "nav" ["onthispage"] []) [] ] ].

(** The page is ready, ClipboardJS has loaded, the other two libraries have
    not, and the script has not run. *)
Definition sample_state : State :=
  mkState sample_page Complete true true false true None None ∅ None
          [] [] [] [] false [].

(** The same page while it still loads, in a browser with no library yet. *)
Definition loading_state : State :=
  mkState sample_page Loading true true false false None None ∅ None
          [] [] [] [] false [].

(** A link of class [copybtn] that the page itself brings, with no
    [data-tooltip]. *)
Definition foreign_button_page : Node :=
  N (el 0 "html" [] [])
    [ N (el 1 "body" [] [])
      [ N (el 2 "a" ["copybtn"] [("href", "#")]) [] ] ].

Definition foreign_button_state : State :=
  mkState foreign_button_page Complete true true false true None None ∅ None
          [] [] [] [] false [].

(** ** The course of a page *)

(** A live ClipboardJS instance reports a copy: the handlers given to [on]
    for the event are called with the button as [event.trigger]. *)
Definition clipboardEmit (c : nat) (name : string) (trigger : nat) (s : State)
  : State :=
  match clipboards s !! c with
  | Some x =>
      if cj_destroyed x then s
      else foldl (λ s cb, invoke cb (Some trigger) s) s
                 (omap (λ h : string * Callback,
                          if bool_decide (h.1 = name) then Some h.2 else None)
                       (cj_handlers x))
  | None => s
  end.

(** One thing happens to the page: an event is dispatched, a timer fires,
    ClipboardJS reports, a function is registered with [initFunction], or
    something else changes the page (a navigation swaps the body, a library
    finishes loading, the document becomes ready, the user selects text)
    without touching the listeners. *)
Inductive step : State → State → Prop :=
| step_event t ev target s : step s (dispatchEvent t ev target s)
| step_legacy name s : step s (fireEvent name s)
| step_timer i s : step s (fireTimer i s)
| step_clipboard c name trigger s : step s (clipboardEmit c name trigger s)
| step_register cb s : step s (exec (initFunction cb) s)
| step_other s s' :
    listeners s' = listeners s → calls s' = calls s → step s s'.

(** How often [cb] has been called so far. *)
Definition count_calls (cb : Callback) (s : State) : nat :=
  length (filter (λ x, x = cb) (calls s)).

(** Listeners are added, never removed, and never twice. *)
Definition listeners_grow (s s' : State) : Prop :=
  (NoDup (listeners s) → NoDup (listeners s')) ∧ listeners s ⊆ listeners s'.

(** ** What the routines share *)

(** The state with the script's variables blanked: what is left is the
    document and the tables and flags of the browser and the libraries. *)
Definition without_hideLink (s : State) : State := set_hideLink None s.

Definition without_globals (s : State) : State :=
  set_pageElements ∅ (set_hideLink None s).

Definition same_but_hideLink (s1 s2 : State) : Prop :=
  without_hideLink s1 = without_hideLink s2.

Definition same_but_globals (s1 s2 : State) : Prop :=
  without_globals s1 = without_globals s2.

(** From two states that [R] relates, the statement ends the same way and
    in states that [R] relates: what [R] ignores does not reach what it
    compares. *)
Definition related (R : State → State → Prop) {A} (m : M A) : Prop :=
  ∀ s1 s2, R s1 s2 → (m s1).1 = (m s2).1 ∧ R (m s1).2 (m s2).2.

(** ** Copy buttons: what a run starts from and what it leaves *)

(** [b] is the copy button of the element with the given id. *)
Definition is_copy_button (id : string) (b : Elem) : Prop :=
  tag b = "a"
  ∧ "copybtn" ∈ classes b
  ∧ attrs b !! "id" = Some ("copy-button-" +:+ id)
  ∧ attrs b !! "data-clipboard-target" = Some ("#" +:+ id).

(** The state that [findCodeCells] leaves for [addCopyButtonToCodeCells]:
    ClipboardJS has loaded, [pageElements] holds the cells, each an element
    of the document below the root with the id [codecell<i>]; and no
    element of the document has the id that the existence check of a cell
    looks for. *)
Definition copy_ready (l : list nat) (s : State) : Prop :=
  ClipboardJS s = true
  ∧ pageElements s !! "codeCells" = Some l
  ∧ (∀ i c, l !! i = Some c →
       attr_of c "id" (document s) = Some (codeCellId i)
       ∧ c ≠ nid (elem (document s)))
  ∧ (∀ i, i < length l →
       by_id ("copy-button" +:+ codeCellId i) (document s) = None).

(** The sample page with an element that carries the id the existence
    check of the first code cell looks for. *)
Definition clashing_page : Node :=
  N (el 0 "html" [] [])
    [ N (el 1 "body" [] [])
      [ N (el 2 "div" ["c-textbook__content"] [])
          [ sample_cell 10 []; sample_cell 20 [] ];
        N (el 3 "span" [] [("id", "copy-buttoncodecell0")]) [] ] ].

Definition clashing_state : State :=
  mkState clashing_page Complete true true false true None None ∅ None
          [] [] [] [] false [].

(** The same with the clash on the second cell. *)
Definition clashing_page_2 : Node :=
  N (el 0 "html" [] [])
    [ N (el 1 "body" [] [])
      [ N (el 2 "div" ["c-textbook__content"] [])
          [ sample_cell 10 []; sample_cell 20 [] ];
        N (el 3 "span" [] [("id", "copy-buttoncodecell1")]) [] ] ].

Definition clashing_state_2 : State :=
  mkState clashing_page_2 Complete true true false true None None ∅ None
          [] [] [] [] false [].

(** ** Hide buttons: what a run leaves *)

(** The tree with [g] applied to every element. *)
Fixpoint tmap (g : Elem → Elem) (t : Node) : Node :=
  match t with
  | N e ks => N (g e) (map (tmap g) ks)
  end.

Definition map_frame (g : Elem → Elem) (f : Frame) : Frame := (g f.1, map g f.2).
Definition map_path (g : Elem → Elem) (p : Path) : Path := map (map_frame g) p.

(** The references of the elements on a path. *)
Definition path_nids (p : Path) : list nat := map (λ f : Frame, nid f.1) p.

(** [g] changes nothing of an element but its [checked] property and,
    by adding it, the class [hidden]. *)
Definition restyles (g : Elem → Elem) : Prop :=
  ∀ e, nid (g e) = nid e
       ∧ tag (g e) = tag e
       ∧ attrs (g e) = attrs e
       ∧ (∀ c, c ∈ classes e → c ∈ classes (g e))
       ∧ (∀ c, c ≠ "hidden" → c ∈ classes (g e) → c ∈ classes e).

(** The document of [s'] is the document of [s] restyled. *)
Definition restyled (s s' : State) : Prop :=
  ∃ g, restyles g ∧ document s' = tmap g (document s).

(** The class names a selector mentions. *)
Definition simple_class (s : Simple) : list string :=
  match s with SClass c => [c] | _ => [] end.

Fixpoint complex_classes (s : Complex) : list string :=
  match s with
  | Sel c => concat (map simple_class c)
  | Comb l _ c => concat (map simple_class c) ++ complex_classes l
  end.

Definition selector_classes (s : Selector) : list string :=
  concat (map complex_classes s).

(** [p] is the path of a label whose previous sibling is the checked
    checkbox of the hide button for [id], both below the element [c]. *)
Definition toggle_path (c : nat) (id : string) (p : Path) : bool :=
  match p with
  | (lb, i :: _) :: ups =>
      bool_decide (tag lb = "label")
      && bool_decide (tag i = "input")
      && bool_decide ("hidebtn" ∈ classes i)
      && bool_decide (attrs i !! "data-id" = Some id)
      && checked i
      && bool_decide (c ∈ path_nids ups)
  | _ => false
  end.

(** The element [c] contains the hide button for [id], its checkbox
    checked. *)
Definition has_toggle (c : nat) (id : string) (t : Node) : bool :=
  existsb (toggle_path c id) (entries [] [] t).

(** The element that [`#${id} div.highlight`] selects has the class
    [hidden]. *)
Definition highlight_hidden (id : string) (t : Node) : bool :=
  match head (select (highlightOf id) t) with
  | Some h =>
      match find_elem h t with
      | Some e => bool_decide ("hidden" ∈ classes e)
      | None => false
      end
  | None => false
  end.

(** The state that [findInputCells] leaves for [initHiddenCells]:
    [pageElements] holds the cells, each a [div] of the document with the
    id [inputcell<i>]. *)
Definition cells_ready (l : list nat) (s : State) : Prop :=
  pageElements s !! "inputCells" = Some l
  ∧ ∀ i c, l !! i = Some c →
      ∃ e, find_elem c (document s) = Some e
           ∧ tag e = "div"
           ∧ attrs e !! "id" = Some (inputCellId i).

(** The document holds a checkbox below a [div.tag_hide_input]: the
    existence check of [addHideButton] finds something. *)
Definition guarded (t : Node) : Prop := select hiddenInputs t ≠ [].

Definition stays_guarded (s s' : State) : Prop :=
  guarded (document s) → guarded (document s').


(** The hide button for [id] as [addHideButton] leaves it: the checkbox and
    the label that follows it, on paths through the tagged [div] [c]. *)
Definition placed (c : nat) (id : string) (t : Node) : Prop :=
  ∃ inp lab qs fr0 l1 ce fr l2,
    ((inp, qs) :: fr0 :: l1 ++ (ce, fr) :: l2) ∈ entries [] [] t
    ∧ ((lab, inp :: qs) :: fr0 :: l1 ++ (ce, fr) :: l2) ∈ entries [] [] t
    ∧ nid ce = c ∧ tag ce = "div" ∧ "tag_hide_input" ∈ classes ce
    ∧ tag lab = "label" ∧ tag inp = "input" ∧ "hidebtn" ∈ classes inp
    ∧ attrs inp !! "data-id" = Some id.

(** The document of [s'] is the document of [s] with elements added: the
    elements stay distinct, and every path and every element of [s] is
    still there. *)
Definition grown (s s' : State) : Prop :=
  wf (document s) →
  wf (document s')
  ∧ (∀ p, p ∈ entries [] [] (document s) → p ∈ entries [] [] (document s'))
  ∧ (∀ c, c ∈ nids (document s) →
          find_elem c (document s') = find_elem c (document s)).

(** A page whose first tagged cell shows a widget with a checkbox of its
    own in its output; the second tagged cell is as usual. *)
Definition widget_page : Node :=
  N (el 0 "html" [] [])
    [ N (el 1 "body" [] [])
      [ N (el 2 "div" ["c-textbook__content"] [])
          [ N (el 10 "div" ["jb_cell"; "tag_hide_input"] [])
              [ N (el 11 "div" ["cell"] [])
                  [ N (el 12 "div" ["input"] [])
                      [ N (el 13 "div" ["inner_cell"] [])
                          [ N (el 14 "div" ["input_area"] [])
                              [ N (el 15 "div" ["highlight"] [])
                                  [ N (el 16 "pre" [] []) [] ] ] ] ];
                    N (el 17 "div" ["output"] [])
                      [ N (el 18 "input" []
                              [("type", "checkbox"); ("data-id", "inputcell0")])
                          [] ] ] ];
            sample_cell 20 ["tag_hide_input"] ] ] ].

Definition widget_state : State :=
  mkState widget_page Complete true true false true None None ∅ None
          [] [] [] [] false [].

(** ** The script as a whole *)

(** The routines in the order the script registers them. *)
Definition script_order : list Routine :=
  [FindCodeCells; FindInputCells; AddCopyButtonToCodeCells; InitHiddenCells;
   InitAnchors; InitToc].

(** What [initFunction] registers for a routine on a document that is still
    loading. *)
Definition registered (r : Routine) : list (Target * string * Callback) :=
  [(Document, "DOMContentLoaded", Named r);
   (Document, "turbolinks:load", Named r)].

(** The sample page while it loads in a browser whose document has no
    [addEventListener]. *)
Definition legacy_state : State :=
  mkState sample_page Loading false true false false None None ∅ None
          [] [] [] [] false [].

(** A page whose tagged cell shows a checkbox of its own, with no
    [data-id], in its output. *)
Definition plain_widget_page : Node :=
  N (el 0 "html" [] [])
    [ N (el 1 "body" [] [])
      [ N (el 2 "div" ["c-textbook__content"] [])
          [ N (el 10 "div" ["jb_cell"; "tag_hide_input"] [])
              [ N (el 11 "div" ["cell"] [])
                  [ N (el 12 "div" ["input"] [])
                      [ N (el 13 "div" ["inner_cell"] [])
                          [ N (el 14 "div" ["input_area"] [])
                              [ N (el 15 "div" ["highlight"] [])
                                  [ N (el 16 "pre" [] []) [] ] ] ] ];
                    N (el 17 "div" ["output"] [])
                      [ N (el 18 "input" [] [("type", "checkbox")]) [] ] ] ] ] ] ].

Definition plain_widget_state : State :=
  mkState plain_widget_page Complete true true false true None None ∅ None
          [] [] [] [] false [].

(** ** Changes that no class or tag selector sees *)

(** [g] keeps the identity, the tag and the classes of every element: it
    may change attributes and the [checked] property. *)
Definition relabels (g : Elem → Elem) : Prop :=
  ∀ e, nid (g e) = nid e ∧ tag (g e) = tag e ∧ classes (g e) = classes e.

(** The selector has no [#id] part. *)
Definition simple_plain (s : Simple) : bool :=
  match s with SId _ => false | _ => true end.

Fixpoint complex_plain (s : Complex) : bool :=
  match s with
  | Sel c => forallb simple_plain c
  | Comb l _ c => forallb simple_plain c && complex_plain l
  end.

Definition selector_plain (s : Selector) : bool := forallb complex_plain s.

(** [f] applied to the elements whose reference is in [l]. *)
Definition upd_in (l : list nat) (f : Elem → Elem) (e : Elem) : Elem :=
  if bool_decide (nid e ∈ l) then f e else e.

(** The options that [initToc] gives to [tocbot.init]. *)
Definition toc_options : TocbotOptions :=
  mkTocbotOptions "nav.onthispage" ".c-textbook__content" "h2, h3"
                  false 6 "toc__menu" " " " ".

(** The link selectors of [initAnchors] and [initToc], and the selectors
    [initToc] looks for sidebar content and for the sidebar with. *)
Definition anchorLinks : Selector := [Sel [SClass "anchorjs-link"]].
Definition tocLinks : Selector := [Sel [SClass "toc-list-item"] ⎵ [STag "a"]].
Definition sidebarContent : Selector :=
  [Sel [SClass "tag_full_width"]; Sel [SClass "tag_popout"]].
Definition onThisPage : Selector := [Sel [STag "nav"; SClass "onthispage"]].

(** Stand-ins for the two libraries on the sample page: AnchorJS adds a
    link to the content, tocbot fills the sidebar with one entry. *)
Definition sample_anchors (sel : string) (t : Node) : Node :=
  append_children 2
    [N (el (fresh t) "a" ["anchorjs-link"] [("href", "#")]) []] t.

Definition sample_tocbot (o : TocbotOptions) (t : Node) : Node :=
  append_children 3
    [N (el (fresh t) "li" [listClass o; "toc-list-item"] [])
       [N (el (fresh t + 1) "a" ["toc-link"] [("href", "#")]) []]] t.

Definition library_state : State :=
  mkState sample_page Complete true true false true
          (Some sample_anchors) (Some sample_tocbot) ∅ None
          [] [] [] [] false [].

(** ** Numbering the cells *)

(** The position of [n] in [l]. *)
Fixpoint index_of (n : nat) (l : list nat) : option nat :=
  match l with
  | [] => None
  | x :: r => if bool_decide (x = n) then Some 0 else S <$> index_of n r
  end.

(** What the loops of [findCodeCells] and [findInputCells] do to one
    element: an element of the list gets the id of its position. *)
Definition numbered (idOf : nat → string) (l : list nat) (e : Elem) : Elem :=
  match index_of (nid e) l with
  | Some i => with_attr "id" (idOf i) e
  | None => e
  end.

(** ** The ClipboardJS instances *)

(** The instance [c], once it is there, stays, and once destroyed stays
    destroyed. *)
Definition clip_kept (c : nat) (s s' : State) : Prop :=
  ∀ x, clipboards s !! c = Some x →
    ∃ x', clipboards s' !! c = Some x'
          ∧ (cj_destroyed x = true → cj_destroyed x' = true).

(** The instance that a run of [addCopyButtonToCodeCells] creates and
    sets up. *)
Definition copy_clipboard : Clipboard :=
  mkClipboard [Sel [SClass "copybtn"]]
              [("success", CopySucceeded); ("error", CopyFailed)] false.

(** No listener for [turbolinks:load] is added to the document. *)
Definition load_listeners_kept (s s' : State) : Prop :=
  ∀ cb, (Document, "turbolinks:load", cb) ∈ listeners s' →
        (Document, "turbolinks:load", cb) ∈ listeners s.

(** The listeners of the document for [turbolinks:load] are added at the
    end, never removed, and never twice. *)
Definition load_handlers_extend (s s' : State) : Prop :=
  handlers Document "turbolinks:load" s
    `prefix_of` handlers Document "turbolinks:load" s'
  ∧ (NoDup (handlers Document "turbolinks:load" s) →
     NoDup (handlers Document "turbolinks:load" s')).

(** * Properties *)

(** * Reasoning about statements *)

Lemma bind_ok {A B} (m : M A) (k : A → M B) s a s' :
  m s = (Ok a, s') → bind m k s = k a s'.
Proof. unfold bind. by intros ->. Qed.

Lemma bind_throw {A B} (m : M A) (k : A → M B) s e s' :
  m s = (Throw e, s') → bind m k s = (Throw e, s').
Proof. unfold bind. by intros ->. Qed.

(** ** Statements that keep a relation between the state before and after *)

Section Respects.
Context (R : State → State → Prop) `{!Reflexive R} `{!Transitive R}.

Lemma respects_ret {A} (a : A) : respects R (ret a).
Proof. intros s. reflexivity. Qed.

Lemma respects_throw {A} e : respects R (@throw A e).
Proof. intros s. reflexivity. Qed.

Lemma respects_reads {A} (f : State → A) : respects R (reads f).
Proof. intros s. reflexivity. Qed.

Lemma respects_deref {A} (o : option A) : respects R (deref o).
Proof. destruct o; [apply respects_ret | apply respects_throw]. Qed.

Lemma respects_writes (g : State → State) :
  (∀ s, R s (g s)) → respects R (writes g).
Proof. intros H s. apply H. Qed.

Lemma respects_bind {A B} (m : M A) (k : A → M B) :
  respects R m → (∀ a, respects R (k a)) → respects R (bind m k).
Proof.
  intros Hm Hk s. unfold exec, bind. specialize (Hm s). unfold exec in Hm.
  destruct (m s) as [[a|e] s1]; simpl in *; [|done].
  etransitivity; [exact Hm|]. apply Hk.
Qed.

Lemma respects_forEach {A} (l : list A) (f : A → M unit) :
  (∀ x, respects R (f x)) → respects R (forEach l f).
Proof.
  intros Hf. induction l as [|x r IH]; simpl.
  - apply respects_ret.
  - apply respects_bind; [apply Hf | intros _; exact IH].
Qed.

Lemma respects_forEach_from {A} i (l : list A) (f : A → nat → M unit) :
  (∀ x j, respects R (f x j)) → respects R (forEach_from i l f).
Proof.
  intros Hf. revert i. induction l as [|x r IH]; intros i; simpl.
  - apply respects_ret.
  - apply respects_bind; [apply Hf | intros _; apply IH].
Qed.

Lemma respects_the_elem n : respects R (the_elem n).
Proof.
  intros s. unfold exec, the_elem.
  destruct (find_elem n (document s)); reflexivity.
Qed.

Lemma respects_new_ClipboardJS sel :
  (∀ s l, R s (set_clipboards l s)) → respects R (new_ClipboardJS sel).
Proof. intros H s. apply H. Qed.
End Respects.

Global Instance keeps_refl {B} (f : State → B) : Reflexive (keeps f).
Proof. by intros s. Qed.
Global Instance keeps_trans {B} (f : State → B) : Transitive (keeps f).
Proof. intros s1 s2 s3 H1 H2. unfold keeps in *. congruence. Qed.

Ltac head_of t := lazymatch t with ?f _ => head_of f | _ => t end.

(** Walks through a statement, leaving the state updates to be checked. *)
Ltac respects_step :=
  lazymatch goal with
  | |- respects _ (bind _ _) => apply respects_bind; [apply _ | | intros ?]
  | |- respects _ (ret _) => apply respects_ret; apply _
  | |- respects _ (throw _) => apply respects_throw; apply _
  | |- respects _ (reads _) => apply respects_reads; apply _
  | |- respects _ (deref _) => apply respects_deref; apply _
  | |- respects _ (the_elem _) => apply respects_the_elem; apply _
  | |- respects _ (forEach _ _) =>
      apply respects_forEach; [apply _ | apply _ | intros ?]
  | |- respects _ (forEach_from _ _ _) =>
      apply respects_forEach_from; [apply _ | apply _ | intros ? ?]
  | |- respects _ (writes _) => apply respects_writes; intros ?
  | |- respects _ (new_ClipboardJS _) =>
      apply respects_new_ClipboardJS; intros ? ?
  | |- respects _ (match ?x with _ => _ end) => destruct x
  | |- respects _ ?m => let h := head_of m in unfold h
  end.

Ltac respects_walk := repeat respects_step.

Ltac keeps_walk :=
  respects_walk; unfold keeps; try reflexivity; try (case_bool_decide; reflexivity).

Lemma routine_keeps_calls r : respects (keeps calls) (routine r).
Proof. destruct r; keeps_walk. Qed.

Lemma run_keeps_calls cb target : respects (keeps calls) (run cb target).
Proof. destruct cb; try apply routine_keeps_calls; keeps_walk. Qed.

(** ** Induction on the tree *)

Lemma Node_ind' (P : Node → Prop) :
  (∀ e ks, Forall P ks → P (N e ks)) → ∀ t, P t.
Proof.
  intros H. fix IH 1. intros [e ks]. apply H.
  induction ks as [|k ks IHks]; constructor; [apply IH | exact IHks].
Qed.

(** ** Reading and changing one element *)

Lemma with_attr_nid k v : keeps_nid (with_attr k v).
Proof. by intros e. Qed.
Lemma with_class_nid c : keeps_nid (with_class c).
Proof. by intros e. Qed.
Lemma without_class_nid c : keeps_nid (without_class c).
Proof. by intros e. Qed.
Lemma with_checked_nid b : keeps_nid (with_checked b).
Proof. by intros e. Qed.

Create HintDb dom discriminated.
#[export] Hint Resolve with_attr_nid with_class_nid without_class_nid
  with_checked_nid : dom.

Lemma upd_nid n f e : keeps_nid f → nid (upd n f e) = nid e.
Proof. intros Hf. unfold upd. case_bool_decide; [apply Hf | done]. Qed.

Lemma elems_update n f t : elems (update n f t) = map (upd n f) (elems t).
Proof.
  induction t as [e ks IH] using Node_ind'. simpl. f_equal.
  induction IH as [|k ks Hk _ IHks]; simpl; [done|].
  by rewrite map_app, Hk, IHks.
Qed.

Lemma nids_update n f t : keeps_nid f → nids (update n f t) = nids t.
Proof.
  intros Hf. unfold nids. rewrite elems_update, map_map.
  apply map_ext. intros e. by apply upd_nid.
Qed.

Lemma filter_nid_map c (g : Elem → Elem) (l : list Elem) :
  (∀ e, nid (g e) = nid e) →
  filter (λ e, nid e = c) (map g l) = map g (filter (λ e, nid e = c) l).
Proof.
  intros Hg. induction l as [|e l IH]; [done|]. simpl.
  rewrite !filter_cons, Hg. case_decide; simpl; by rewrite IH.
Qed.

Lemma find_elem_update c n f t :
  keeps_nid f → find_elem c (update n f t) = upd n f <$> find_elem c t.
Proof.
  intros Hf. unfold find_elem. rewrite elems_update.
  rewrite filter_nid_map by (intros e; by apply upd_nid).
  by destruct (filter _ (elems t)).
Qed.

Lemma find_elem_nid c t e : find_elem c t = Some e → nid e = c.
Proof.
  unfold find_elem. intros H.
  assert (e ∈ filter (λ e, nid e = c) (elems t)) as Hin.
  { destruct (filter _ _); simplify_eq/=. left. }
  by apply list_elem_of_filter in Hin as [? _].
Qed.

Lemma find_elem_update_same n f t e :
  keeps_nid f → find_elem n t = Some e → find_elem n (update n f t) = Some (f e).
Proof.
  intros Hf He. rewrite find_elem_update, He by done. simpl.
  unfold upd. by rewrite bool_decide_true by by eapply find_elem_nid.
Qed.

Lemma find_elem_update_other c n f t :
  keeps_nid f → c ≠ n → find_elem c (update n f t) = find_elem c t.
Proof.
  intros Hf Hne. rewrite find_elem_update by done.
  destruct (find_elem c t) as [e|] eqn:He; [|done]. simpl.
  unfold upd. rewrite bool_decide_false; [done|].
  by rewrite (find_elem_nid _ _ _ He).
Qed.

Lemma the_elem_ok n s e :
  find_elem n (document s) = Some e → the_elem n s = (Ok e, s).
Proof. unfold the_elem. by intros ->. Qed.

Lemma modify_ok n f s e :
  find_elem n (document s) = Some e →
  modify n f s = (Ok (), set_document (update n f (document s)) s).
Proof. intros He. unfold modify. by rewrite (bind_ok _ _ _ _ _ (the_elem_ok _ _ _ He)). Qed.

Lemma getAttribute_ok n k s e :
  find_elem n (document s) = Some e →
  getAttribute n k s = (Ok (attrs e !! k), s).
Proof. intros He. unfold getAttribute. by rewrite (bind_ok _ _ _ _ _ (the_elem_ok _ _ _ He)). Qed.

Lemma attr_of_set n k v t e :
  find_elem n t = Some e → attr_of n k (update n (with_attr k v) t) = Some v.
Proof.
  intros He. unfold attr_of.
  rewrite (find_elem_update_same _ _ _ e) by auto with dom. simpl.
  apply lookup_insert_eq.
Qed.

(** ** Waiting for a library *)

Lemma set_timers_id s : set_timers (timers s) s = s.
Proof. by destruct s. Qed.

Lemma delete_last {A} (l : list A) (x : A) : delete (length l) (l ++ [x]) = l.
Proof. induction l as [|a l IH]; simpl; [done|]. by rewrite IH. Qed.

Lemma lookup_last {A} (l : list A) (x : A) : (l ++ [x]) !! length l = Some x.
Proof. induction l as [|a l IH]; simpl; done. Qed.

(** A timer set as the last action of a callback, fired next, calls the
    callback of the timer on the state without the timer. *)
Lemma fireTimer_last cb ms s :
  fireTimer (length (timers s)) (set_timers (timers s ++ [(cb, ms)]) s)
  = invoke cb None s.
Proof.
  unfold fireTimer. simpl. rewrite lookup_last, delete_last.
  by destruct s.
Qed.

Lemma exec_keeps {A B} (f : State → B) (m : M A) s :
  respects (keeps f) m → f (exec m s) = f s.
Proof. intros H. apply H. Qed.

(** ** Registration and dispatch *)

Lemma bind_inv_ok {A B} (m : M A) (k : A → M B) s b s1 :
  bind m k s = (Ok b, s1) → ∃ a s', m s = (Ok a, s') ∧ k a s' = (Ok b, s1).
Proof.
  unfold bind. destruct (m s) as [[a|e] s']; [|done]. intros H. eauto.
Qed.

Global Instance listeners_grow_refl : Reflexive listeners_grow.
Proof. intros s. split; [done | set_solver]. Qed.

Global Instance listeners_grow_trans : Transitive listeners_grow.
Proof.
  intros s1 s2 s3 [N1 S1] [N2 S2]. split; [tauto | set_solver].
Qed.

Lemma listeners_grow_same s s' :
  listeners s' = listeners s → listeners_grow s s'.
Proof. intros H. unfold listeners_grow. rewrite H. split; [done | set_solver]. Qed.

Lemma listeners_grow_add x s :
  listeners_grow s (if bool_decide (x ∈ listeners s) then s
                    else set_listeners (listeners s ++ [x]) s).
Proof.
  case_bool_decide as Hx; [reflexivity|]. split; simpl.
  - intros Hnd. apply NoDup_app. repeat split; [done | | apply NoDup_singleton].
    intros y Hy Hy'. apply list_elem_of_singleton in Hy'. by subst.
  - set_solver.
Qed.

Ltac grow_walk :=
  respects_walk;
  first [ apply listeners_grow_add | by apply listeners_grow_same ].

Lemma run_grows cb target : respects listeners_grow (run cb target).
Proof. destruct cb as [[]| | | | |]; grow_walk. Qed.

Lemma call_grows cb target : respects listeners_grow (call cb target).
Proof.
  unfold call. apply respects_bind; [apply _ | | intros _; apply run_grows].
  apply respects_writes. intros s. by apply listeners_grow_same.
Qed.

Lemma runWhenDOMLoaded_grows cb :
  respects listeners_grow (runWhenDOMLoaded cb).
Proof.
  unfold runWhenDOMLoaded.
  repeat first [ apply call_grows | respects_step ];
    first [ apply listeners_grow_add | by apply listeners_grow_same ].
Qed.

Lemma initFunction_grows cb : respects listeners_grow (initFunction cb).
Proof.
  unfold initFunction.
  repeat first [ apply runWhenDOMLoaded_grows | respects_step ];
    first [ apply listeners_grow_add | by apply listeners_grow_same ].
Qed.

Lemma readyStateHandler_grows cb :
  respects listeners_grow (readyStateHandler cb).
Proof.
  unfold readyStateHandler.
  repeat first [ apply call_grows | respects_step ].
Qed.

Lemma foldl_grows {A} (f : State → A → State) (l : list A) s :
  (∀ s a, listeners_grow s (f s a)) → listeners_grow s (foldl f s l).
Proof.
  intros Hf. revert s. induction l as [|a l IH]; intros s; simpl.
  - reflexivity.
  - etransitivity; [apply Hf | apply IH].
Qed.

Lemma step_grows s s' : step s s' → listeners_grow s s'.
Proof.
  destruct 1 as [t ev target s|name s|i s|c name trigger s|cb s|s s' Hl _].
  - apply foldl_grows. intros s0 cb. apply call_grows.
  - apply foldl_grows. intros s0 cb. apply readyStateHandler_grows.
  - unfold fireTimer. destruct (timers s !! i) as [[cb ms]|]; [|reflexivity].
    etransitivity; [|apply call_grows]. by apply listeners_grow_same.
  - unfold clipboardEmit. destruct (clipboards s !! c) as [x|]; [|reflexivity].
    destruct (cj_destroyed x); [reflexivity|].
    apply foldl_grows. intros s0 cb. apply call_grows.
  - apply initFunction_grows.
  - by apply listeners_grow_same.
Qed.

Lemma steps_grow s s' : rtc step s s' → listeners_grow s s'.
Proof.
  induction 1 as [|s1 s2 s3 H12 _ IH]; [reflexivity|].
  etransitivity; [by apply step_grows | exact IH].
Qed.

(** Every call is logged once, at its end of the log. *)
Lemma calls_invoke cb target s : calls (invoke cb target s) = calls s ++ [cb].
Proof.
  unfold invoke, exec, call, bind, writes.
  set (s0 := set_calls (calls s ++ [cb]) s).
  change (calls (exec (run cb target) s0) = calls s0).
  apply run_keeps_calls.
Qed.

Lemma calls_foldl_invoke target (l : list Callback) s :
  calls (foldl (λ s cb, invoke cb target s) s l) = calls s ++ l.
Proof.
  revert s. induction l as [|cb l IH]; intros s; simpl.
  - by rewrite app_nil_r.
  - by rewrite IH, calls_invoke, <- app_assoc.
Qed.

(** A dispatch calls the listeners of the target for the event, each once,
    in the order they were added. *)
Lemma calls_dispatchEvent t ev target s :
  calls (dispatchEvent t ev target s) = calls s ++ handlers t ev s.
Proof. apply calls_foldl_invoke. Qed.

Lemma handlers_not_in t ev cb (l : list (Target * string * Callback)) :
  (t, ev, cb) ∉ l →
  filter (λ x, x = cb)
         (omap (λ l0 : Target * string * Callback,
                  if bool_decide (l0.1 = (t, ev)) then Some l0.2 else None) l)
  = [].
Proof.
  induction l as [|[[t' ev'] cb'] l IH]; intros Hn; simpl; [done|].
  apply not_elem_of_cons in Hn as [Hne Hn].
  case_bool_decide as Heq; simpl in *.
  - rewrite filter_cons. case_decide; [|by apply IH]. by simplify_eq.
  - by apply IH.
Qed.

Lemma handlers_count t ev cb s :
  NoDup (listeners s) → (t, ev, cb) ∈ listeners s →
  length (filter (λ x, x = cb) (handlers t ev s)) = 1.
Proof.
  unfold handlers. generalize (listeners s) as l.
  induction l as [|[[t' ev'] cb'] l IH]; intros Hnd Hin; [by inversion Hin|].
  apply NoDup_cons in Hnd as [Hx Hnd].
  apply elem_of_cons in Hin as [Heq|Hin].
  - simplify_eq. simpl. rewrite bool_decide_true by done. simpl.
    rewrite filter_cons, decide_True by done. simpl.
    by rewrite handlers_not_in.
  - simpl. case_bool_decide as Heq; simpl in *; [|by apply IH].
    rewrite filter_cons. case_decide; [|by apply IH].
    simplify_eq. done.
Qed.

Lemma count_calls_dispatch t ev cb target s :
  NoDup (listeners s) → (t, ev, cb) ∈ listeners s →
  count_calls cb (dispatchEvent t ev target s) = S (count_calls cb s).
Proof.
  intros Hnd Hin. unfold count_calls.
  rewrite calls_dispatchEvent, filter_app, length_app.
  rewrite (handlers_count _ _ _ _ Hnd Hin). lia.
Qed.

Lemma addEventListener_inv t ev cb s s1 :
  addEventListener t ev cb s = (Ok (), s1) →
  hasAddEventListener s = true ∧
  listeners_grow s s1 ∧ (t, ev, cb) ∈ listeners s1 ∧ calls s1 = calls s.
Proof.
  unfold addEventListener, bind, reads, writes, throw.
  destruct (hasAddEventListener s); [|done].
  intros [= <-]. split; [done|]. split; [apply listeners_grow_add|].
  case_bool_decide; simpl; [done|]. split; [set_solver | done].
Qed.

(** X23.  Where the document has no [addEventListener], the handler
    attached for [onreadystatechange] calls [cb] once the document is
    complete, and not before. *)
Lemma runWhenDOMLoaded_legacy cb s :
  readyState s = Loading → hasAddEventListener s = false → attached s = [] →
  let s1 := exec (runWhenDOMLoaded cb) s in
  count_calls cb s1 = count_calls cb s
  ∧ ∀ s2, attached s2 = attached s1 →
      count_calls cb (fireEvent "onreadystatechange" s2)
      = if bool_decide (readyState s2 = Complete)
        then S (count_calls cb s2) else count_calls cb s2.
Proof.
  intros Hload Hhas Hatt.
  unfold exec, runWhenDOMLoaded, bind, reads. rewrite Hload.
  rewrite bool_decide_false by (by intros ?). rewrite Hhas. simpl.
  split; [done|]. intros s2 Hs2. unfold fireEvent. rewrite Hs2, Hatt. simpl.
  unfold exec, readyStateHandler, bind, reads.
  case_bool_decide; simpl; [|done].
  change (count_calls cb (invoke cb None s2) = S (count_calls cb s2)).
  unfold count_calls. rewrite calls_invoke, filter_app, length_app.
  rewrite filter_cons, decide_True by done. simpl. lia.
Qed.

Lemma runWhenDOMLoaded_legacy_witness :
  let cb := Named FindCodeCells in
  let s1 := exec (runWhenDOMLoaded cb) legacy_state in
  count_calls cb s1 = count_calls cb legacy_state
  ∧ ∀ s2, attached s2 = attached s1 →
      count_calls cb (fireEvent "onreadystatechange" s2)
      = if bool_decide (readyState s2 = Complete)
        then S (count_calls cb s2) else count_calls cb s2.
Proof.
  intros cb.
  apply (runWhenDOMLoaded_legacy cb legacy_state); reflexivity.
Defined.

(** ** The tooltip of a copy button *)

Lemma temporarilyChangeTooltip_ok el newText s e :
  find_elem el (document s) = Some e →
  temporarilyChangeTooltip el newText s
  = (Ok (),
     set_timers
       (timers s ++ [(RestoreTooltip el (attrs e !! "data-tooltip"), 2000)])
       (set_document
          (update el (with_attr "data-tooltip" newText) (document s)) s)).
Proof.
  intros He. unfold temporarilyChangeTooltip.
  rewrite (bind_ok _ _ _ _ _ (getAttribute_ok _ _ _ _ He)).
  unfold setAttribute.
  by rewrite (bind_ok _ _ _ _ _ (modify_ok _ _ _ _ He)).
Qed.

(** When the timer of [temporarilyChangeTooltip] fires, the attribute
    becomes the text of the value read at the call. *)
Lemma restore_fires el newText s e :
  find_elem el (document s) = Some e →
  attr_of el "data-tooltip"
    (document (fireTimer (length (timers s))
                 (exec (temporarilyChangeTooltip el newText) s)))
  = Some (js_string (attrs e !! "data-tooltip")).
Proof.
  intros He. unfold exec. rewrite (temporarilyChangeTooltip_ok _ _ _ _ He).
  simpl. set (s0 := set_document _ s).
  change (timers s) with (timers s0). rewrite fireTimer_last.
  unfold invoke, exec, call, bind at 1, writes. simpl.
  set (s1 := set_calls _ s0).
  assert (find_elem el (document s1)
          = Some (with_attr "data-tooltip" newText e)) as He1.
  { simpl. by apply find_elem_update_same; auto with dom. }
  unfold setAttribute. rewrite (modify_ok _ _ _ _ He1). simpl.
  by eapply attr_of_set.
Qed.

(** The round trip, for an element that has the attribute. *)
Lemma tooltip_round_trip el newText s v :
  attr_of el "data-tooltip" (document s) = Some v →
  let s1 := exec (temporarilyChangeTooltip el newText) s in
  attr_of el "data-tooltip" (document s1) = Some newText
  ∧ attr_of el "data-tooltip" (document (fireTimer (length (timers s)) s1))
    = Some v.
Proof.
  intros Hv. unfold attr_of in Hv.
  destruct (find_elem el (document s)) as [e|] eqn:He; [|done]. simpl in Hv.
  split.
  - unfold exec. rewrite (temporarilyChangeTooltip_ok _ _ _ _ He). simpl.
    by eapply attr_of_set.
  - rewrite (restore_fires _ _ _ _ He), Hv. done.
Qed.

(** For an element without the attribute the timer leaves the text
    [null] in it. *)
Lemma tooltip_absent el newText s e :
  find_elem el (document s) = Some e →
  attrs e !! "data-tooltip" = None →
  attr_of el "data-tooltip"
    (document (fireTimer (length (timers s))
                 (exec (temporarilyChangeTooltip el newText) s)))
  = Some "null".
Proof. intros He Hn. by rewrite (restore_fires _ _ _ _ He), Hn. Qed.

(** C10.  On the link of class [copybtn] that has no [data-tooltip], the
    call sets the attribute to the new text, and when the timer fires the
    attribute, absent before the call, holds the text [null]. *)
Theorem tooltip_not_restored :
  attr_of 2 "data-tooltip" (document foreign_button_state) = None
  ∧ attr_of 2 "data-tooltip"
      (document (exec (temporarilyChangeTooltip 2 "Copied!")
                      foreign_button_state))
    = Some "Copied!"
  ∧ attr_of 2 "data-tooltip"
      (document (fireTimer 0 (exec (temporarilyChangeTooltip 2 "Copied!")
                                   foreign_button_state)))
    = Some "null".
Proof. by vm_compute. Qed.

(** ** The global variables of the script *)

Lemma routine_keeps_hideLink r :
  r ≠ InitHiddenCells → respects (keeps hideLink) (routine r).
Proof. destruct r; try done; intros _; keeps_walk. Qed.

Lemma routine_keeps_pageElements r :
  r ≠ FindCodeCells → r ≠ FindInputCells →
  respects (keeps pageElements) (routine r).
Proof. destruct r; try done; intros _ _; keeps_walk. Qed.

(** C2.  On the sample page, once the cells are collected,
    [initHiddenCells] leaves the global [hideLink], unset before, set to
    the label of the last hide button. *)
Theorem hideLink_is_left_set :
  let s := exec findInputCells sample_state in
  hideLink s = None
  ∧ outcome initHiddenCells s = Ok ()
  ∧ hideLink (exec initHiddenCells s) = Some (Some 42).
Proof. by vm_compute. Qed.

(** ** What reaches a routine from the others *)

Section Related.
Context (R : State → State → Prop).

Lemma related_ret {A} (a : A) : related R (ret a).
Proof. by intros s1 s2 H. Qed.

Lemma related_throw {A} e : related R (@throw A e).
Proof. by intros s1 s2 H. Qed.

Lemma related_deref {A} (o : option A) : related R (deref o).
Proof. destruct o; [apply related_ret | apply related_throw]. Qed.

Lemma related_reads {A} (f : State → A) :
  (∀ s1 s2, R s1 s2 → f s1 = f s2) → related R (reads f).
Proof. intros Hf s1 s2 H. simpl. split; [f_equal; by apply Hf | done]. Qed.

Lemma related_writes (g : State → State) :
  (∀ s1 s2, R s1 s2 → R (g s1) (g s2)) → related R (writes g).
Proof. intros Hg s1 s2 H. simpl. split; [done | by apply Hg]. Qed.

Lemma related_bind {A B} (m : M A) (k : A → M B) :
  related R m → (∀ a, related R (k a)) → related R (bind m k).
Proof.
  intros Hm Hk s1 s2 H. unfold bind. destruct (Hm s1 s2 H) as [Ho Hs].
  destruct (m s1) as [[a1|e1] t1], (m s2) as [[a2|e2] t2]; simpl in *;
    simplify_eq; [by apply Hk | done].
Qed.

Lemma related_forEach {A} (l : list A) (f : A → M unit) :
  (∀ x, related R (f x)) → related R (forEach l f).
Proof.
  intros Hf. induction l as [|x l IH]; simpl.
  - apply related_ret.
  - apply related_bind; [apply Hf | intros _; exact IH].
Qed.

Lemma related_forEach_from {A} i (l : list A) (f : A → nat → M unit) :
  (∀ x j, related R (f x j)) → related R (forEach_from i l f).
Proof.
  intros Hf. revert i. induction l as [|x l IH]; intros i; simpl.
  - apply related_ret.
  - apply related_bind; [apply Hf | intros _; apply IH].
Qed.

Lemma related_the_elem n :
  (∀ s1 s2, R s1 s2 → document s1 = document s2) → related R (the_elem n).
Proof.
  intros Hd s1 s2 H. unfold the_elem. rewrite (Hd s1 s2 H).
  by destruct (find_elem n (document s2)).
Qed.

Lemma related_new_ClipboardJS sel :
  (∀ s1 s2, R s1 s2 → clipboards s1 = clipboards s2) →
  (∀ s1 s2 l, R s1 s2 → R (set_clipboards l s1) (set_clipboards l s2)) →
  related R (new_ClipboardJS sel).
Proof.
  intros Hc Hs s1 s2 H. unfold new_ClipboardJS. simpl.
  rewrite (Hc s1 s2 H). split; [done | by apply Hs].
Qed.
End Related.

Ltac related_step :=
  lazymatch goal with
  | |- related _ (bind _ _) => apply related_bind; [| intros ?]
  | |- related _ (ret _) => apply related_ret
  | |- related _ (throw _) => apply related_throw
  | |- related _ (deref _) => apply related_deref
  | |- related _ (reads _) => apply related_reads; intros ? ? ?
  | |- related _ (writes _) => apply related_writes; intros ? ? ?
  | |- related _ (the_elem _) => apply related_the_elem; intros ? ? ?
  | |- related _ (forEach _ _) => apply related_forEach; intros ?
  | |- related _ (forEach_from _ _ _) => apply related_forEach_from; intros ? ?
  | |- related _ (new_ClipboardJS _) =>
      apply related_new_ClipboardJS; [intros ? ? ? | intros ? ? ? ?]
  | |- related _ (match ?x with _ => _ end) => destruct x
  | |- related _ ?m => let h := head_of m in unfold h
  end.

(** Two states that agree once the variables are blanked agree on every
    other field. *)
Ltac same_fields :=
  lazymatch goal with
  | H : same_but_hideLink ?s1 ?s2 |- _ =>
      destruct s1, s2; unfold same_but_hideLink, without_hideLink in *;
      simpl in *; simplify_eq; simpl; try done;
      try (case_bool_decide; simpl; done)
  | H : same_but_globals ?s1 ?s2 |- _ =>
      destruct s1, s2; unfold same_but_globals, without_globals in *;
      simpl in *; simplify_eq; simpl; try done;
      try (case_bool_decide; simpl; done)
  end.

Ltac related_walk := repeat related_step; same_fields.

Lemma routine_ignores_hideLink r : related same_but_hideLink (routine r).
Proof. destruct r; related_walk. Qed.

Lemma routine_ignores_pageElements r :
  r ≠ AddCopyButtonToCodeCells → r ≠ InitHiddenCells →
  related same_but_globals (routine r).
Proof. destruct r; try done; intros _ _; related_walk. Qed.

(** C1, as the script has it.  What a routine does, and how it ends, is
    the same whatever [hideLink] held when it started; for the routines
    other than [addCopyButtonToCodeCells] and [initHiddenCells] it is also
    the same whatever [pageElements] held. *)
Theorem routines_share_pageElements_only (r : Routine) (s : State) :
  (∀ hl,
     outcome (routine r) (set_hideLink hl s) = outcome (routine r) s
     ∧ without_hideLink (exec (routine r) (set_hideLink hl s))
       = without_hideLink (exec (routine r) s))
  ∧ (r ≠ AddCopyButtonToCodeCells → r ≠ InitHiddenCells →
     ∀ pe hl,
       let s' := set_pageElements pe (set_hideLink hl s) in
       outcome (routine r) s' = outcome (routine r) s
       ∧ without_globals (exec (routine r) s')
         = without_globals (exec (routine r) s)).
Proof.
  split.
  - intros hl. apply routine_ignores_hideLink. by destruct s.
  - intros H1 H2 pe hl. apply routine_ignores_pageElements; [done..|].
    by destruct s.
Qed.

Lemma routines_share_pageElements_only_witness :
  let s' := set_pageElements {["codeCells" := [16]]}
              (set_hideLink (Some None) sample_state) in
  outcome (routine FindCodeCells) s' = outcome (routine FindCodeCells) sample_state
  ∧ without_globals (exec (routine FindCodeCells) s')
    = without_globals (exec (routine FindCodeCells) sample_state).
Proof.
  apply (proj2 (routines_share_pageElements_only FindCodeCells sample_state));
    discriminate.
Defined.

(** C1, as stated, fails: on the sample page with its cells collected,
    [addCopyButtonToCodeCells] inserts twelve elements and returns; from the
    same page with [pageElements] empty it throws and inserts nothing. *)
Lemma pageElements_is_shared :
  let s1 := exec findCodeCells sample_state in
  let s2 := set_pageElements ∅ s1 in
  same_but_globals s1 s2
  ∧ outcome addCopyButtonToCodeCells s1 = Ok ()
  ∧ outcome addCopyButtonToCodeCells s2 = Throw TypeError
  ∧ length (elems (document (exec addCopyButtonToCodeCells s1))) = 37
  ∧ length (elems (document (exec addCopyButtonToCodeCells s2))) = 25
  ∧ ¬ (∀ r, related same_but_globals (routine r)).
Proof.
  intros s1 s2.
  assert (same_but_globals s1 s2) as Hsame by by vm_compute.
  split; [exact Hsame|].
  split; [by vm_compute|]. split; [by vm_compute|].
  split; [by vm_compute|]. split; [by vm_compute|].
  intros H. destruct (H AddCopyButtonToCodeCells s1 s2 Hsame) as [Ho _].
  vm_compute in Ho. discriminate.
Qed.

(** ** The elements of a tree and their paths *)

Lemma entries_elems ups ps t : omap path_elem (entries ups ps t) = elems t.
Proof.
  revert ups ps. induction t as [e ks IH] using Node_ind'. intros ups ps.
  simpl. f_equal. generalize (@nil Elem) as qs.
  induction IH as [|k ks Hk _ IHks]; intros qs; simpl; [done|].
  by rewrite omap_app, Hk, IHks.
Qed.

Lemma omap_path_nid (l : list Path) :
  omap path_nid l = map nid (omap path_elem l).
Proof.
  induction l as [|[|[e ps] p] l IH]; simpl; [done..|]. by f_equal.
Qed.

Lemma entries_nids ups ps t : omap path_nid (entries ups ps t) = nids t.
Proof. by rewrite omap_path_nid, entries_elems. Qed.

Lemma omap_filter_sublist {A B} (f : A → option B) (P : A → Prop)
    `{∀ x, Decision (P x)} (l : list A) :
  omap f (filter P l) `sublist_of` omap f l.
Proof.
  induction l as [|x l IH]; simpl; [done|].
  rewrite filter_cons. destruct (f x) as [y|] eqn:Hy.
  - case_decide; simpl; [rewrite Hy; by constructor | by constructor].
  - case_decide; simpl; [by rewrite Hy | done].
Qed.

Lemma select_sublist sel t : select sel t `sublist_of` nids t.
Proof.
  unfold select. rewrite <- (entries_nids [] [] t). apply omap_filter_sublist.
Qed.

Lemma select_NoDup sel t : wf t → NoDup (select sel t).
Proof. intros Hwf. eapply sublist_NoDup; [exact Hwf | apply select_sublist]. Qed.

Lemma select_nids sel t c : c ∈ select sel t → c ∈ nids t.
Proof. intros Hc. eapply elem_of_sublist; [exact Hc | apply select_sublist]. Qed.

Lemma find_elem_Some c t : c ∈ nids t → is_Some (find_elem c t).
Proof.
  unfold nids, find_elem. intros Hc.
  apply list_elem_of_fmap in Hc as (e & -> & He).
  assert (e ∈ filter (λ e0, nid e0 = nid e) (elems t)) as Hin
      by by apply list_elem_of_filter.
  destruct (filter _ _); [by inversion Hin | by eexists].
Qed.

Lemma find_elem_elem_of c t e : find_elem c t = Some e → e ∈ elems t.
Proof.
  unfold find_elem. intros H. apply head_Some_elem_of in H.
  by apply list_elem_of_filter in H as [_ ?].
Qed.

Lemma find_elem_in_nids c t e : find_elem c t = Some e → c ∈ nids t.
Proof.
  intros H. rewrite <- (find_elem_nid _ _ _ H).
  apply list_elem_of_fmap. eexists. split; [done|]. by eapply find_elem_elem_of.
Qed.

(** ** Collecting the cells *)

Lemma set_document_id s : set_document (document s) s = s.
Proof. by destruct s. Qed.





(** ** Inserting after an element *)

Lemma elem_splice n new t : elem (splice_after n new t) = elem t.
Proof. by destruct t. Qed.

Lemma splice_list_cons f n new a r :
  splice_list f n new (a :: r)
  = f a :: (if bool_decide (nid (elem a) = n) then new else [])
        ++ splice_list f n new r.
Proof. done. Qed.

Lemma filter_concat_nil {A} (P : A → Prop) `{∀ x, Decision (P x)}
    (ls : list (list A)) :
  Forall (λ l, filter P l = []) ls → filter P (concat ls) = [].
Proof.
  induction 1 as [|l ls Hl _ IH]; simpl; [done|].
  by rewrite filter_app, Hl, IH.
Qed.

(** What no new element satisfies is found where it was. *)
Lemma filter_elems_splice (P : Elem → Prop) `{∀ x, Decision (P x)} n new t :
  Forall (λ k, filter P (elems k) = []) new →
  filter P (elems (splice_after n new t)) = filter P (elems t).
Proof.
  intros Hnew. induction t as [e ks IH] using Node_ind'. simpl.
  rewrite !filter_cons. 
  assert (filter P (concat (map elems (splice_list (splice_after n new) n new ks)))
          = filter P (concat (map elems ks))) as ->; [|done].
  induction IH as [|a r Ha _ IHr]; [done|].
  rewrite splice_list_cons. simpl. rewrite map_app, concat_app, !filter_app.
  rewrite Ha, IHr. f_equal.
  case_bool_decide; simpl; [|done].
  rewrite filter_concat_nil; [done|]. by apply Forall_fmap.
Qed.

Lemma filter_none {A} (P : A → Prop) `{∀ x, Decision (P x)} (l : list A) :
  (∀ x, x ∈ l → ¬ P x) → filter P l = [].
Proof.
  induction l as [|x l IH]; intros Hl; [done|].
  rewrite filter_cons, decide_False by (apply Hl; left).
  apply IH. intros y Hy. apply Hl. by right.
Qed.

Lemma elem_of_concat {A} (x : A) (ls : list (list A)) :
  x ∈ concat ls ↔ ∃ l, l ∈ ls ∧ x ∈ l.
Proof.
  induction ls as [|l ls IH]; simpl.
  - split; [by inversion 1 | by intros (l & Hl & _); inversion Hl].
  - rewrite elem_of_app, IH. split.
    + intros [Hx|(l' & Hl' & Hx)]; [exists l; split; [left|done]|].
      exists l'. split; [by right | done].
    + intros (l' & Hl' & Hx). apply elem_of_cons in Hl' as [->|Hl']; eauto.
Qed.

Lemma find_elem_splice c n new t :
  c ∉ concat (map nids new) →
  find_elem c (splice_after n new t) = find_elem c t.
Proof.
  intros Hc. unfold find_elem. rewrite filter_elems_splice; [done|].
  apply Forall_forall. intros k Hk. apply filter_none. intros e He Hn.
  apply Hc. apply elem_of_concat. exists (nids k). split.
  - by apply list_elem_of_fmap_2.
  - subst c. by apply list_elem_of_fmap_2.
Qed.

Lemma by_id_splice i n new t :
  (∀ e, e ∈ concat (map elems new) → attrs e !! "id" ≠ Some i) →
  by_id i (splice_after n new t) = by_id i t.
Proof.
  intros Hi. unfold by_id. rewrite filter_elems_splice; [done|].
  apply Forall_forall. intros k Hk. apply filter_none. intros e He.
  apply Hi. apply elem_of_concat. exists (elems k). split; [|done].
  by apply list_elem_of_fmap_2.
Qed.

Lemma nids_N e ks : nids (N e ks) = nid e :: concat (map nids ks).
Proof.
  unfold nids. simpl. f_equal.
  induction ks as [|a r IH]; simpl; [done|]. by rewrite map_app, IH.
Qed.

Lemma nids_kid c k ks : k ∈ ks → c ∈ nids k → c ∈ concat (map nids ks).
Proof.
  intros Hk Hc. apply elem_of_concat. exists (nids k).
  split; [by apply list_elem_of_fmap_2 | done].
Qed.

Lemma nids_splice_old c n new t :
  c ∉ concat (map nids new) → c ∈ nids t → c ∈ nids (splice_after n new t).
Proof.
  intros Hc Hin. destruct (find_elem_Some c t Hin) as [e He].
  eapply find_elem_in_nids. by rewrite find_elem_splice.
Qed.

Lemma next_in_app_notin c (l1 l2 : list Node) :
  c ∉ map (nid ∘ elem) l1 → next_in c (l1 ++ l2) = next_in c l2.
Proof.
  induction l1 as [|a l1 IH]; intros Hc; simpl; [done|].
  apply not_elem_of_cons in Hc as [Hne Hc]. simpl in Hne.
  rewrite bool_decide_false by done. by apply IH.
Qed.

Lemma head_splice_list n new ks :
  elem <$> head (splice_list (splice_after n new) n new ks) = elem <$> head ks.
Proof. destruct ks as [|a r]; [done|]. simpl. f_equal. apply elem_splice. Qed.

Lemma top_nids_subset (l : list Node) c :
  c ∈ map (nid ∘ elem) l → c ∈ concat (map nids l).
Proof.
  induction l as [|a l IH]; simpl; [done|].
  rewrite elem_of_cons, elem_of_app. intros [->|Hc]; [|right; by apply IH].
  left. destruct a as [e ks]. rewrite nids_N. left.
Qed.

(** Another element keeps the sibling that follows it. *)
Lemma next_in_splice_other c n new ks :
  c ≠ n → c ∉ concat (map nids new) →
  next_in c (splice_list (splice_after n new) n new ks) = next_in c ks.
Proof.
  intros Hne Hc. induction ks as [|a r IH]; [done|].
  rewrite splice_list_cons. simpl. rewrite elem_splice.
  case_bool_decide as Ha.
  - rewrite bool_decide_false by congruence. simpl. apply head_splice_list.
  - rewrite next_in_app_notin; [exact IH|].
    case_bool_decide; [|by inversion 1].
    intros Hin. apply Hc. by apply top_nids_subset.
Qed.

Lemma first_some_app {A B} (f : A → option B) l1 l2 :
  first_some f (l1 ++ l2)
  = match first_some f l1 with Some y => Some y | None => first_some f l2 end.
Proof.
  induction l1 as [|x l1 IH]; simpl; [done|]. by destruct (f x).
Qed.

Lemma first_some_none {A B} (f : A → option B) l :
  (∀ x, x ∈ l → f x = None) → first_some f l = None.
Proof.
  induction l as [|x l IH]; intros Hl; simpl; [done|].
  rewrite (Hl x) by left. apply IH. intros y Hy. apply Hl. by right.
Qed.

Lemma next_in_none c (l : list Node) :
  c ∉ map (nid ∘ elem) l → next_in c l = None.
Proof.
  intros Hc. rewrite <- (app_nil_r l). by rewrite next_in_app_notin.
Qed.

Lemma next_sibling_none c t : c ∉ nids t → next_sibling c t = None.
Proof.
  induction t as [e ks IH] using Node_ind'. rewrite nids_N. intros Hc. simpl.
  apply not_elem_of_cons in Hc as [_ Hks].
  rewrite next_in_none by (intros Hin; by apply Hks, top_nids_subset).
  apply first_some_none. intros k Hk.
  rewrite Forall_forall in IH. apply IH; [done|].
  intros Hin. apply Hks. by eapply nids_kid.
Qed.

Lemma next_sibling_splice_other c n new t :
  c ≠ n → c ∉ concat (map nids new) →
  next_sibling c (splice_after n new t) = next_sibling c t.
Proof.
  intros Hne Hc. induction t as [e ks IH] using Node_ind'. simpl.
  rewrite next_in_splice_other by done.
  destruct (next_in c ks); [done|].
  induction IH as [|a r Ha _ IHr]; [done|].
  rewrite splice_list_cons. simpl. rewrite Ha.
  destruct (next_sibling c a); [done|].
  rewrite first_some_app, IHr.
  rewrite first_some_none; [done|].
  intros k Hk. case_bool_decide; [|by inversion Hk].
  apply next_sibling_none. intros Hin. apply Hc. by eapply nids_kid.
Qed.

Lemma splice_absent n new t : n ∉ nids t → splice_after n new t = t.
Proof.
  induction t as [e ks IH] using Node_ind'. rewrite nids_N. intros Hn.
  apply not_elem_of_cons in Hn as [_ Hn]. simpl. f_equal.
  assert (∀ k, k ∈ ks → n ∉ nids k) as Hks.
  { intros k Hk Hin. apply Hn. by eapply nids_kid. }
  clear Hn. induction IH as [|a r Ha _ IHr]; [done|].
  rewrite splice_list_cons.
  rewrite Ha by (apply Hks; left).
  rewrite bool_decide_false.
  - simpl. f_equal. apply IHr. intros k Hk. apply Hks. by right.
  - intros Heq. apply (Hks a); [left|]. destruct a as [ea ka].
    rewrite nids_N. simpl in Heq. subst n. left.
Qed.

(** The first of the inserted elements follows the element. *)
Lemma next_sibling_splice n b new t :
  n ∈ below_root t →
  next_sibling n (splice_after n (b :: new) t) = Some (elem b).
Proof.
  induction t as [e ks IH] using Node_ind'. unfold below_root. simpl.
  intros Hn.
  destruct (decide (n ∈ map (nid ∘ elem) ks)) as [Htop|Htop].
  - assert (next_in n (splice_list (splice_after n (b :: new)) n (b :: new) ks)
            = Some (elem b)) as ->; [|done].
    clear IH Hn. induction ks as [|a r IHr]; [by inversion Htop|].
    rewrite splice_list_cons. simpl. rewrite elem_splice.
    case_bool_decide as Ha; [done|].
    apply IHr. simpl in Htop. apply elem_of_cons in Htop as [?|?]; [|done].
    simpl in *. congruence.
  - assert (splice_list (splice_after n (b :: new)) n (b :: new) ks
            = map (splice_after n (b :: new)) ks) as ->.
    { clear IH Hn. induction ks as [|a r IHr]; [done|].
      rewrite splice_list_cons. simpl in *.
      apply not_elem_of_cons in Htop as [Ha Hr].
      rewrite bool_decide_false by done. simpl. f_equal. by apply IHr. }
    rewrite next_in_none.
    2:{ intros Hin. apply Htop. rewrite map_map in Hin.
        erewrite map_ext; [exact Hin|]. intros a. simpl. by rewrite elem_splice. }
    induction IH as [|a r Ha _ IHr]; [by inversion Hn|].
    simpl in *. apply not_elem_of_cons in Htop as [Hna Hr].
    assert (n ∈ nids a → n ∈ below_root a) as Hbelow.
    { destruct a as [ea ka]. rewrite nids_N. unfold below_root. simpl in *.
      intros [?|?]%elem_of_cons; [congruence | done]. }
    destruct (decide (n ∈ nids a)) as [Hin|Hnot].
    + by rewrite Ha by auto.
    + rewrite splice_absent by done. rewrite next_sibling_none by done.
      apply IHr; [|done]. apply elem_of_app in Hn as [?|?]; done.
Qed.

(** ** Copy buttons *)

Lemma fresh_gt c t : c ∈ nids t → c < fresh t.
Proof. intros Hc. unfold fresh. apply max_list_elem_of_le in Hc. lia. Qed.

Lemma fresh_not_in t : fresh t ∉ nids t.
Proof. intros H. apply fresh_gt in H. lia. Qed.

Lemma clipboardButton_nids id base c :
  c ∈ concat (map nids (clipboardButton id base)) → base ≤ c.
Proof.
  unfold nids. simpl. rewrite !elem_of_cons, elem_of_nil. lia.
Qed.

Lemma clipboardButton_ids id base e g :
  e ∈ concat (map elems (clipboardButton id base)) →
  attrs e !! "id" = Some g → g = "copy-button-" +:+ id ∨ g = "title".
Proof.
  simpl. rewrite !elem_of_cons, elem_of_nil.
  intros [->|[->|[->|[->|[]]]]] Hg; vm_compute in Hg; simplify_eq; auto.
Qed.

Lemma clipboardButton_is_button id base rest :
  clipboardButton id base = rest →
  ∃ b r, rest = b :: r ∧ is_copy_button id (elem b) ∧ nid (elem b) = base.
Proof.
  intros <-. eexists _, _. split; [reflexivity|]. split; [|done].
  split; [done|]. split; [simpl; set_solver|]. split; by vm_compute.
Qed.

Lemma codeCellId_inj i j : codeCellId i = codeCellId j → i = j.
Proof.
  unfold codeCellId. intros H. simpl in H. simplify_eq.
  by apply (inj pretty).
Qed.

(** The existence check looks for an id that no copy button has. *)
Lemma guard_never_matches i id base e :
  e ∈ concat (map elems (clipboardButton id base)) →
  attrs e !! "id" ≠ Some ("copy-button" +:+ codeCellId i).
Proof.
  intros He Hg. destruct (clipboardButton_ids _ _ _ _ He Hg) as [H|H].
  - unfold codeCellId in H. simpl in H. simplify_eq.
  - unfold codeCellId in H. simpl in H. simplify_eq.
Qed.

(** The function that [addCopyButtonToCodeCells] applies to each cell. *)
Local Abbreviation copy_step :=
  (λ codeCell : nat,
     id <- getAttribute codeCell "id" ;;
     found <- getElementById ("copy-button" +:+ js_string id) ;;
     match found with
     | None => insertAdjacentHTML codeCell AfterEnd (clipboardButton (js_string id))
     | Some _ => ret ()
     end).

Lemma copy_step_ok c i s e :
  find_elem c (document s) = Some e →
  attrs e !! "id" = Some (codeCellId i) →
  c ≠ nid (elem (document s)) →
  by_id ("copy-button" +:+ codeCellId i) (document s) = None →
  copy_step c s
  = (Ok (), set_document
              (splice_after c (clipboardButton (codeCellId i) (fresh (document s)))
                            (document s)) s).
Proof.
  intros He Hid Hroot Hby. cbv beta.
  rewrite (bind_ok _ _ _ _ _ (getAttribute_ok _ _ _ _ He)). rewrite Hid. simpl.
  unfold bind at 1, getElementById, reads. rewrite Hby.
  unfold insertAdjacentHTML.
  rewrite (bind_ok _ _ _ _ _ (the_elem_ok _ _ _ He)).
  unfold bind, reads. rewrite bool_decide_false by done. done.
Qed.

Lemma set_document_twice d1 d2 s :
  set_document d2 (set_document d1 s) = set_document d2 s.
Proof. done. Qed.

Lemma below_root_spec c t : c ∈ nids t → c ≠ nid (elem t) → c ∈ below_root t.
Proof.
  destruct t as [e ks]. rewrite nids_N. unfold below_root. simpl.
  intros [?|?]%elem_of_cons; done.
Qed.

Lemma attr_of_in_nids c k t v : attr_of c k t = Some v → c ∈ nids t.
Proof.
  unfold attr_of. destruct (find_elem c t) eqn:He; [|done]. intros _.
  by eapply find_elem_in_nids.
Qed.

(** The loop over the collected cells, the indices counted from [i0]. *)
Lemma copy_loop (l : list nat) (i0 : nat) s :
  (∀ i c, l !! i = Some c →
     attr_of c "id" (document s) = Some (codeCellId (i0 + i))
     ∧ c ≠ nid (elem (document s))) →
  (∀ i, i < length l →
     by_id ("copy-button" +:+ codeCellId (i0 + i)) (document s) = None) →
  ∃ d,
    forEach l copy_step s = (Ok (), set_document d s)
    ∧ nid (elem d) = nid (elem (document s))
    ∧ (∀ c, c ∈ nids (document s) → find_elem c d = find_elem c (document s))
    ∧ (∀ i, by_id ("copy-button" +:+ codeCellId i) d
            = by_id ("copy-button" +:+ codeCellId i) (document s))
    ∧ (∀ c, c ∈ nids (document s) → c ∉ l →
         next_sibling c d = next_sibling c (document s))
    ∧ (∀ i c, l !! i = Some c →
         ∃ b, next_sibling c d = Some b
              ∧ is_copy_button (codeCellId (i0 + i)) b
              ∧ nid b ∉ nids (document s)).
Proof.
  revert i0 s. induction l as [|x l IH]; intros i0 s Hcells Hguard.
  - exists (document s). simpl. unfold ret. rewrite set_document_id.
    repeat (split; [done|]). intros i c Hi. by rewrite lookup_nil in Hi.
  - destruct (Hcells 0 x eq_refl) as [Hid Hroot]. rewrite Nat.add_0_r in Hid.
    pose proof (attr_of_in_nids _ _ _ _ Hid) as Hxin.
    unfold attr_of in Hid.
    destruct (find_elem x (document s)) as [e|] eqn:He; [|done]. simpl in Hid.
    assert (by_id ("copy-button" +:+ codeCellId i0) (document s) = None) as Hby.
    { rewrite <- (Nat.add_0_r i0) at 1. apply Hguard. simpl. lia. }
    set (new := clipboardButton (codeCellId i0) (fresh (document s))).
    set (d1 := splice_after x new (document s)).
    assert (∀ c, c ∈ nids (document s) → c ∉ concat (map nids new)) as Hold.
    { intros c Hc Hin. apply clipboardButton_nids in Hin.
      apply fresh_gt in Hc. lia. }
    assert (∀ c, c ∈ nids (document s) → find_elem c d1 = find_elem c (document s))
      as Hfind1.
    { intros c Hc. apply find_elem_splice. by apply Hold. }
    assert (∀ i, by_id ("copy-button" +:+ codeCellId i) d1
                 = by_id ("copy-button" +:+ codeCellId i) (document s)) as Hby1.
    { intros i. apply by_id_splice. intros e' He'.
      by eapply guard_never_matches. }
    destruct (IH (S i0) (set_document d1 s))
      as (d & Hrun & Hr & Hfind & Hbyd & Hnext & Hbtn).
    { intros i c Hi. destruct (Hcells (S i) c Hi) as [Hc Hcr]. simpl.
      split; [|unfold d1; by rewrite elem_splice].
      replace (S (i0 + i)) with (i0 + S i) by lia.
      unfold attr_of. rewrite Hfind1; [done|]. by eapply attr_of_in_nids. }
    { intros i Hi. simpl. rewrite Hby1.
      replace (S (i0 + i)) with (i0 + S i) by lia. apply Hguard. simpl. lia. }
    simpl in Hr, Hfind, Hbyd, Hnext, Hbtn.
    assert (x ∉ l) as Hxl.
    { intros Hin. apply list_elem_of_lookup in Hin as [j Hj].
      destruct (Hcells (S j) x Hj) as [Hj' _]. unfold attr_of in Hj'.
      rewrite He in Hj'. simpl in Hj'. rewrite Hid in Hj'.
      assert (i0 = i0 + S j) by (apply codeCellId_inj; congruence). lia. }
    exists d. split.
    { simpl. rewrite (bind_ok _ _ _ _ _ (copy_step_ok _ _ _ _ He Hid Hroot Hby)).
      fold new d1. by rewrite Hrun. }
    split; [rewrite Hr; unfold d1; by rewrite elem_splice|].
    split.
    { intros c Hc. rewrite Hfind; [by apply Hfind1|].
      apply nids_splice_old; [by apply Hold | done]. }
    split; [intros i; by rewrite Hbyd|].
    split.
    { intros c Hc Hcl. apply not_elem_of_cons in Hcl as [Hcx Hcl].
      rewrite Hnext; [|apply nids_splice_old; [by apply Hold | done]|done].
      apply next_sibling_splice_other; [done | by apply Hold]. }
    intros [|i] c Hi; simpl in Hi.
    + simplify_eq. rewrite Nat.add_0_r.
      destruct (clipboardButton_is_button (codeCellId i0) (fresh (document s)) new eq_refl)
        as (b & r & Hnew & Hb & Hnid).
      exists (elem b). split.
      * rewrite Hnext; [|apply nids_splice_old; [by apply Hold | done]|done].
        unfold d1. rewrite Hnew. apply next_sibling_splice.
        by apply below_root_spec.
      * split; [done|]. rewrite Hnid. apply fresh_not_in.
    + destruct (Hbtn i c Hi) as (b & Hb1 & Hb2 & Hb3).
      exists b. split; [done|].
      replace (i0 + S i) with (S i0 + i) by lia. split; [done|].
      intros Hin. apply Hb3. apply nids_splice_old; [by apply Hold | done].
Qed.

Lemma addCopyButtonToCodeCells_document l s :
  copy_ready l s →
  ∃ d,
    forEach l copy_step s = (Ok (), set_document d s)
    ∧ document (exec addCopyButtonToCodeCells s) = d.
Proof.
  intros (Hcj & Hpe & Hcells & Hguard).
  destruct (copy_loop l 0 s Hcells Hguard) as (d & Hrun & _).
  exists d. split; [done|].
  unfold exec, addCopyButtonToCodeCells, bind at 1, reads. rewrite Hcj. simpl.
  unfold bind at 1, pageElement, bind at 1, reads. rewrite Hpe. simpl.
  unfold bind at 1. rewrite Hrun.
  change d with (document (set_document d s)) at 2.
  apply (exec_keeps document). keeps_walk.
Qed.

(** A run leaves the state ready for the next run. *)
Lemma copy_ready_run l s :
  copy_ready l s → copy_ready l (exec addCopyButtonToCodeCells s).
Proof.
  intros Hready.
  destruct (addCopyButtonToCodeCells_document l s Hready) as (d & Hrun & Hd).
  destruct Hready as (Hcj & Hpe & Hcells & Hguard).
  destruct (copy_loop l 0 s Hcells Hguard)
    as (d' & Hrun' & Hr & Hfind & Hby & _).
  rewrite Hrun in Hrun'. assert (d' = d) as -> by (by simplify_eq).
  split; [|split; [|split]].
  - rewrite <- Hcj. apply (exec_keeps ClipboardJS). keeps_walk.
  - rewrite <- Hpe. f_equal. apply (exec_keeps pageElements). keeps_walk.
  - intros i c Hi. rewrite Hd. destruct (Hcells i c Hi) as [Hid Hroot].
    split; [|by rewrite Hr].
    unfold attr_of. rewrite Hfind; [done|]. by eapply attr_of_in_nids.
  - intros i Hi. rewrite Hd, Hby. by apply Hguard.
Qed.

(** X24.  From a state that is ready for it, a run of
    [addCopyButtonToCodeCells] leaves right after every collected cell a
    copy button whose [data-clipboard-target] is [#] followed by the id of
    the cell; the button is a new element. *)
Theorem copy_button_after_each_cell (l : list nat) (s : State) :
  copy_ready l s →
  ∀ i c, l !! i = Some c →
    ∃ b, next_sibling c (document (exec addCopyButtonToCodeCells s)) = Some b
         ∧ is_copy_button (codeCellId i) b
         ∧ attr_of c "id" (document s) = Some (codeCellId i)
         ∧ nid b ∉ nids (document s).
Proof.
  intros Hready i c Hi.
  destruct (addCopyButtonToCodeCells_document l s Hready) as (d & Hrun & Hd).
  destruct Hready as (Hcj & Hpe & Hcells & Hguard).
  destruct (copy_loop l 0 s Hcells Hguard) as (d' & Hrun' & _ & _ & _ & _ & Hbtn).
  rewrite Hrun in Hrun'. assert (d' = d) as -> by (by simplify_eq).
  destruct (Hbtn i c Hi) as (b & Hb1 & Hb2 & Hb3).
  exists b. rewrite Hd. split; [done|]. split; [done|].
  split; [by apply Hcells | done].
Qed.

Lemma copy_ready_sample :
  copy_ready [16; 26; 36] (exec findCodeCells sample_state).
Proof.
  split; [by vm_compute|]. split; [by vm_compute|]. split.
  - intros [|[|[|i]]] c Hi; simplify_eq/=; by vm_compute.
  - intros [|[|[|i]]] Hi; simpl in Hi; try lia; by vm_compute.
Qed.

Lemma copy_button_after_each_cell_witness :
  ∃ b, next_sibling 16 (document (exec addCopyButtonToCodeCells
                                       (exec findCodeCells sample_state)))
       = Some b
       ∧ is_copy_button (codeCellId 0) b
       ∧ attr_of 16 "id" (document (exec findCodeCells sample_state))
         = Some (codeCellId 0)
       ∧ nid b ∉ nids (document (exec findCodeCells sample_state)).
Proof.
  apply (copy_button_after_each_cell [16; 26; 36]
           (exec findCodeCells sample_state)).
  - split; [by vm_compute|]. split; [by vm_compute|]. split.
    + intros [|[|[|i]]] c Hi; simplify_eq/=; by vm_compute.
    + intros [|[|[|i]]] Hi; simpl in Hi; try lia; by vm_compute.
  - reflexivity.
Defined.

(** C7.  The existence check looks for the id [copy-button] followed by
    the id of the cell, which is not the id [copy-button-...] that the
    script gives its buttons.  On the page where a [span] has the id
    [copy-buttoncodecell0] the check finds that [span], which is no copy
    button, and a run that returns leaves no button after the first
    collected cell; the second cell gets its button. *)
Theorem copy_button_missing :
  let s := exec findCodeCells clashing_state in
  ClipboardJS s = true
  ∧ pageElements s !! "codeCells" = Some [16; 26]
  ∧ attr_of 16 "id" (document s) = Some "codecell0"
  ∧ getElementById "copy-buttoncodecell0" s = (Ok (Some 3), s)
  ∧ (tag <$> find_elem 3 (document s)) = Some "span"
  ∧ getElementById "copy-button-codecell0" s = (Ok None, s)
  ∧ outcome addCopyButtonToCodeCells s = Ok ()
  ∧ next_sibling 16 (document (exec addCopyButtonToCodeCells s)) = None
  ∧ (nid <$> next_sibling 26 (document (exec addCopyButtonToCodeCells s)))
    = Some 27.
Proof. intros s. by vm_compute. Qed.

(** ** Runs of [addCopyButtonToCodeCells] one after the other *)

Lemma copy_ready_iter l s k :
  copy_ready l s → copy_ready l (Nat.iter k (exec addCopyButtonToCodeCells) s).
Proof.
  intros Hready. induction k as [|k IH]; [done|]. simpl.
  by apply copy_ready_run.
Qed.

Lemma next_in_elem c (l : list Node) b :
  next_in c l = Some b → b ∈ map elem l.
Proof.
  induction l as [|a r IH]; simpl; [done|].
  case_bool_decide.
  - destruct r as [|a' r']; simpl; [done|]. intros [= <-]. right. left.
  - intros H'. right. by apply IH.
Qed.

Lemma next_sibling_nid c t b : next_sibling c t = Some b → nid b ∈ nids t.
Proof.
  induction t as [e ks IH] using Node_ind'. rewrite nids_N. simpl.
  destruct (next_in c ks) as [x|] eqn:Hx.
  - intros [= ->]. right. apply next_in_elem in Hx.
    apply list_elem_of_fmap in Hx as (k & -> & Hk).
    eapply nids_kid; [done|]. destruct k as [ek kk]. rewrite nids_N. left.
  - intros Hf. right. clear Hx.
    induction IH as [|a r Ha _ IHr]; simpl in *; [done|].
    destruct (next_sibling c a) eqn:Hn.
    + simplify_eq. apply elem_of_app. left. by apply Ha.
    + apply elem_of_app. right. by apply IHr.
Qed.

(** C9, as the script has it.  From a state that is ready, after any number
    of runs one more run again leaves after every collected cell a copy
    button that was not in the document before that run, so each run
    changes the document when there is a cell; the id the existence check
    looks for is never the id of a copy button. *)
Theorem copy_buttons_pile_up (l : list nat) (s : State) (k : nat) :
  copy_ready l s →
  let sk := Nat.iter k (exec addCopyButtonToCodeCells) s in
  (∀ i c, l !! i = Some c →
     ∃ b, next_sibling c (document (exec addCopyButtonToCodeCells sk)) = Some b
          ∧ is_copy_button (codeCellId i) b
          ∧ nid b ∉ nids (document sk))
  ∧ (l ≠ [] → document (exec addCopyButtonToCodeCells sk) ≠ document sk)
  ∧ (∀ i j, "copy-button" +:+ codeCellId i ≠ "copy-button-" +:+ codeCellId j).
Proof.
  intros Hready sk.
  assert (copy_ready l sk) as Hk by by apply copy_ready_iter.
  destruct (addCopyButtonToCodeCells_document l sk Hk) as (d & Hrun & Hd).
  destruct Hk as (Hcj & Hpe & Hcells & Hguard).
  destruct (copy_loop l 0 sk Hcells Hguard) as (d' & Hrun' & _ & _ & _ & _ & Hbtn).
  rewrite Hrun in Hrun'. assert (d' = d) as -> by (by simplify_eq).
  assert (∀ i c, l !! i = Some c →
     ∃ b, next_sibling c (document (exec addCopyButtonToCodeCells sk)) = Some b
          ∧ is_copy_button (codeCellId i) b
          ∧ nid b ∉ nids (document sk)) as Hall.
  { intros i c Hi. rewrite Hd. by apply Hbtn. }
  split; [exact Hall|]. split.
  - intros Hne Heq. destruct l as [|c l']; [done|].
    destruct (Hall 0 c eq_refl) as (b & Hb & _ & Hnew).
    apply Hnew. rewrite <- Heq. by eapply next_sibling_nid.
  - intros i j H. unfold codeCellId in H. simpl in H. simplify_eq.
Qed.

Lemma copy_buttons_pile_up_witness :
  ∃ b, next_sibling 16
         (document (exec addCopyButtonToCodeCells
                      (Nat.iter 1 (exec addCopyButtonToCodeCells)
                                (exec findCodeCells sample_state))))
       = Some b
       ∧ is_copy_button (codeCellId 0) b
       ∧ nid b ∉ nids (document (Nat.iter 1 (exec addCopyButtonToCodeCells)
                                           (exec findCodeCells sample_state))).
Proof.
  apply (proj1 (copy_buttons_pile_up [16; 26; 36]
                  (exec findCodeCells sample_state) 1
                  ltac:(split; [by vm_compute|]; split; [by vm_compute|]; split;
                        [intros [|[|[|i]]] c Hi; simplify_eq/=; by vm_compute
                        |intros [|[|[|i]]] Hi; simpl in Hi; try lia; by vm_compute]))
           0 16 eq_refl).
Defined.

(** C9, as stated, fails: on the page where an element has the id
    [copy-buttoncodecell1], the second run returns and leaves the second
    collected cell without a button, as the first run did; each of the two
    runs inserts the four elements of one button only. *)
Lemma copy_button_not_piling_up :
  let s := exec findCodeCells clashing_state_2 in
  let s1 := exec addCopyButtonToCodeCells s in
  let s2 := exec addCopyButtonToCodeCells s1 in
  pageElements s1 !! "codeCells" = Some [16; 26]
  ∧ outcome addCopyButtonToCodeCells s1 = Ok ()
  ∧ next_sibling 26 (document s1) = None
  ∧ next_sibling 26 (document s2) = None
  ∧ length (elems (document s)) = 18
  ∧ length (elems (document s1)) = 22
  ∧ length (elems (document s2)) = 26.
Proof. intros s s1 s2. by vm_compute. Qed.

(** ** Restyling the document *)

Lemma update_tmap n f t : update n f t = tmap (upd n f) t.
Proof.
  induction t as [e ks IH] using Node_ind'. simpl. f_equal.
  induction IH as [|a r Ha _ IHr]; simpl; [done|]. by rewrite Ha, IHr.
Qed.

Lemma tmap_compose g1 g2 t : tmap g2 (tmap g1 t) = tmap (g2 ∘ g1) t.
Proof.
  induction t as [e ks IH] using Node_ind'. simpl. f_equal.
  induction IH as [|a r Ha _ IHr]; simpl; [done|]. by rewrite Ha, IHr.
Qed.

Lemma tmap_id t : tmap id t = t.
Proof.
  induction t as [e ks IH] using Node_ind'. simpl. f_equal.
  induction IH as [|a r Ha _ IHr]; simpl; [done|]. by rewrite Ha, IHr.
Qed.

Lemma elem_tmap g t : elem (tmap g t) = g (elem t).
Proof. by destruct t. Qed.

Lemma elems_tmap g t : elems (tmap g t) = map g (elems t).
Proof.
  induction t as [e ks IH] using Node_ind'. simpl. f_equal.
  induction IH as [|a r Ha _ IHr]; simpl; [done|].
  by rewrite map_app, Ha, IHr.
Qed.

Lemma nids_tmap g t : (∀ e, nid (g e) = nid e) → nids (tmap g t) = nids t.
Proof.
  intros Hg. unfold nids. rewrite elems_tmap, map_map. by apply map_ext.
Qed.

Lemma find_elem_tmap g c t :
  (∀ e, nid (g e) = nid e) → find_elem c (tmap g t) = g <$> find_elem c t.
Proof.
  intros Hg. unfold find_elem. rewrite elems_tmap, filter_nid_map by done.
  by destruct (filter _ (elems t)).
Qed.

Lemma entries_tmap g ups ps t :
  entries (map_path g ups) (map g ps) (tmap g t)
  = map (map_path g) (entries ups ps t).
Proof.
  revert ups ps. induction t as [e ks IH] using Node_ind'. intros ups ps.
  simpl. f_equal.
  change ((g e, map g ps) :: map_path g ups) with (map_path g ((e, ps) :: ups)).
  generalize ((e, ps) :: ups) as here. intros here.
  change (@nil Elem) with (map g []) at 1. generalize (@nil Elem) as qs.
  induction IH as [|a r Ha _ IHr]; intros qs; simpl; [done|].
  rewrite map_app, Ha, elem_tmap.
  change (g (elem a) :: map g qs) with (map g (elem a :: qs)).
  by rewrite IHr.
Qed.

Lemma restyles_id : restyles id.
Proof. intros e. by repeat split. Qed.

Lemma restyles_compose g1 g2 :
  restyles g1 → restyles g2 → restyles (g2 ∘ g1).
Proof.
  intros H1 H2 e. simpl.
  destruct (H1 e) as (N1 & T1 & A1 & C1 & D1).
  destruct (H2 (g1 e)) as (N2 & T2 & A2 & C2 & D2).
  split; [congruence|]. split; [congruence|]. split; [congruence|].
  split; [auto | auto].
Qed.

Lemma restyles_upd n f : restyles f → restyles (upd n f).
Proof.
  intros Hf e. unfold upd. case_bool_decide; [apply Hf | apply restyles_id].
Qed.

Lemma restyles_with_class : restyles (with_class "hidden").
Proof.
  intros e. unfold with_class. simpl. repeat split; try done.
  - intros c Hc. case_bool_decide; [done|]. apply elem_of_app. by left.
  - intros c Hne. case_bool_decide; [done|].
    intros [?|Hc]%elem_of_app; [done|].
    apply list_elem_of_singleton in Hc. done.
Qed.

Lemma restyles_with_checked b : restyles (with_checked b).
Proof. intros e. by repeat split. Qed.

Global Instance restyled_refl : Reflexive restyled.
Proof. intros s. exists id. split; [apply restyles_id | by rewrite tmap_id]. Qed.

Global Instance restyled_trans : Transitive restyled.
Proof.
  intros s1 s2 s3 (g1 & H1 & E1) (g2 & H2 & E2). exists (g2 ∘ g1).
  split; [by apply restyles_compose|]. by rewrite E2, E1, tmap_compose.
Qed.

Lemma match_simple_restyle g s e :
  restyles g → "hidden" ∉ simple_class s →
  match_simple s (g e) = match_simple s e.
Proof.
  intros Hg Hs. destruct (Hg e) as (Hn & Ht & Ha & Hc & Hd).
  destruct s as [t|c|i]; simpl in *.
  - by rewrite Ht.
  - apply bool_decide_ext. split; [|by apply Hc].
    apply Hd. intros ->. apply Hs. left.
  - by rewrite Ha.
Qed.

Lemma match_compound_restyle g c e :
  restyles g → "hidden" ∉ concat (map simple_class c) →
  match_compound c (g e) = match_compound c e.
Proof.
  intros Hg. unfold match_compound.
  induction c as [|s c IH]; simpl; [done|]. intros Hc.
  rewrite match_simple_restyle; [|done|set_solver].
  rewrite IH; [done|set_solver].
Qed.

Lemma some_suffix_ext {A} (f1 f2 : list A → bool) g l :
  (∀ l', f1 (map g l') = f2 l') → some_suffix f1 (map g l) = some_suffix f2 l.
Proof.
  intros Hf. induction l as [|x l IH]; simpl.
  - by rewrite <- (Hf []).
  - by rewrite <- (Hf (x :: l)), IH.
Qed.

Lemma match_complex_restyle g s p :
  restyles g → "hidden" ∉ complex_classes s →
  match_complex s (map_path g p) = match_complex s p.
Proof.
  intros Hg. revert p. induction s as [c|l IH k c]; intros p Hs; simpl in *.
  - destruct p as [|[e ps] ups]; simpl; [done|].
    by apply match_compound_restyle.
  - destruct p as [|[e ps] ups]; simpl; [done|].
    rewrite match_compound_restyle; [|done|set_solver].
    f_equal. assert ("hidden" ∉ complex_classes l) as Hl by set_solver.
    destruct k.
    + apply some_suffix_ext. intros l'. by apply IH.
    + by apply IH.
    + destruct ps as [|pe ps']; simpl; [done|].
      by apply (IH ((pe, ps') :: ups)).
Qed.

Lemma matches_restyle g sel p :
  restyles g → "hidden" ∉ selector_classes sel →
  matches sel (map_path g p) = matches sel p.
Proof.
  intros Hg. unfold matches, selector_classes.
  induction sel as [|s sel IH]; simpl; [done|]. intros Hs.
  rewrite match_complex_restyle; [|done|set_solver].
  rewrite IH; [done|set_solver].
Qed.

Lemma path_nid_map g p :
  (∀ e, nid (g e) = nid e) → path_nid (map_path g p) = path_nid p.
Proof. intros Hg. destruct p as [|[e ps] ups]; simpl; [done|]. by rewrite Hg. Qed.

(** A selector that does not mention the class [hidden] selects the same
    elements after a restyling. *)
Lemma select_restyle g sel t :
  restyles g → "hidden" ∉ selector_classes sel →
  select sel (tmap g t) = select sel t.
Proof.
  intros Hg Hs. unfold select.
  change (@nil Frame) with (map_path g []) at 1.
  change (@nil Elem) with (map g []) at 1.
  rewrite entries_tmap. generalize (entries [] [] t) as L.
  induction L as [|p L IH]; [done|].
  change (map (map_path g) (p :: L)) with (map_path g p :: map (map_path g) L).
  rewrite !filter_cons, matches_restyle by done.
  destruct (decide (matches sel p = true)) as [Hm|Hm]; [|exact IH].
  change (omap path_nid (?a :: ?b)) with
    (match path_nid a with Some x => x :: omap path_nid b
                         | None => omap path_nid b end).
  rewrite path_nid_map by (intros e; apply Hg). by rewrite IH.
Qed.

(** ** Appending children *)

Lemma elem_append n new t : elem (append_children n new t) = elem t.
Proof. by destruct t. Qed.

Lemma map_elem_append n new ks :
  map elem (map (append_children n new) ks) = map elem ks.
Proof.
  rewrite map_map. apply map_ext. intros a. apply elem_append.
Qed.

Lemma walk_app {A} (f : list Elem → Node → list A) qs l1 l2 :
  walk f qs (l1 ++ l2)
  = walk f qs l1 ++ walk f (rev (map elem l1) ++ qs) l2.
Proof.
  revert qs. induction l1 as [|c l1 IH]; intros qs; simpl; [done|].
  by rewrite IH, <- !app_assoc.
Qed.

Lemma elem_of_walk {A} (f : list Elem → Node → list A) qs l (p : A) :
  p ∈ walk f qs l
  ↔ ∃ l1 k l2, l = l1 ++ k :: l2 ∧ p ∈ f (rev (map elem l1) ++ qs) k.
Proof.
  split.
  - revert qs. induction l as [|c r IH]; intros qs; simpl; [by inversion 1|].
    intros [Hp|Hp]%elem_of_app.
    + by exists [], c, r.
    + destruct (IH _ Hp) as (l1 & k & l2 & -> & Hk).
      exists (c :: l1), k, l2. split; [done|]. simpl.
      by rewrite <- app_assoc.
  - intros (l1 & k & l2 & -> & Hk). rewrite walk_app. simpl.
    apply elem_of_app. right. apply elem_of_app. by left.
Qed.

Lemma entries_head p ups ps t :
  p ∈ entries ups ps t → ∃ e, path_elem p = Some e ∧ e ∈ elems t.
Proof.
  revert ups ps. induction t as [e ks IH] using Node_ind'. intros ups ps.
  simpl. intros [->|Hp]%elem_of_cons.
  - exists e. split; [done | left].
  - apply elem_of_walk in Hp as (l1 & k & l2 & -> & Hk).
    rewrite Forall_forall in IH.
    assert (k ∈ l1 ++ k :: l2) as Hkin by (apply elem_of_app; right; left).
    destruct (IH k Hkin _ _ Hk) as (e' & He' & Hin).
    exists e'. split; [done|]. right. apply elem_of_concat.
    exists (elems k). split; [|done]. apply list_elem_of_fmap_2.
    apply elem_of_app. right. left.
Qed.

Lemma walk_head p here qs l :
  p ∈ walk (entries here) qs l →
  ∃ e, path_elem p = Some e ∧ e ∈ concat (map elems l).
Proof.
  intros (l1 & k & l2 & -> & Hk)%elem_of_walk.
  destruct (entries_head _ _ _ _ Hk) as (e & He & Hin).
  exists e. split; [done|]. apply elem_of_concat. exists (elems k).
  split; [|done]. apply list_elem_of_fmap_2. apply elem_of_app. right. left.
Qed.

(** The paths of the document are still paths after the insertion. *)
Lemma entries_append_old n new p ups ps t :
  p ∈ entries ups ps t → p ∈ entries ups ps (append_children n new t).
Proof.
  revert ups ps. induction t as [e ks IH] using Node_ind'. intros ups ps.
  simpl. intros [->|Hp]%elem_of_cons; [left|]. right.
  apply elem_of_walk in Hp as (l1 & k & l2 & -> & Hk).
  apply elem_of_walk.
  exists (map (append_children n new) l1), (append_children n new k),
         (map (append_children n new) l2
          ++ (if bool_decide (nid e = n) then new else [])).
  split; [by rewrite map_app, <- app_assoc|].
  rewrite map_elem_append. rewrite Forall_forall in IH.
  assert (k ∈ l1 ++ k :: l2) as Hkin by (apply elem_of_app; right; left).
  by apply (IH k Hkin).
Qed.

(** What holds of no path to a new element is found where it was. *)
Lemma filter_entries_append (P : Path → Prop) `{∀ p, Decision (P p)}
    n new ups ps t :
  (∀ p e, path_elem p = Some e → e ∈ concat (map elems new) → ¬ P p) →
  filter P (entries ups ps (append_children n new t))
  = filter P (entries ups ps t).
Proof.
  intros Hnew. revert ups ps.
  induction t as [e ks IH] using Node_ind'. intros ups ps. simpl.
  rewrite !filter_cons. 
  assert (filter P (walk (entries ((e, ps) :: ups)) []
                      (map (append_children n new) ks
                       ++ (if bool_decide (nid e = n) then new else [])))
          = filter P (walk (entries ((e, ps) :: ups)) [] ks)) as ->; [|done].
  rewrite walk_app, filter_app.
  rewrite (filter_none P (walk _ _ (if bool_decide (nid e = n) then new else []))).
  2:{ intros p Hp. destruct (walk_head _ _ _ _ Hp) as (e' & He' & Hin).
      apply (Hnew p e' He'). destruct (bool_decide (nid e = n)); [done|].
      by inversion Hin. }
  rewrite app_nil_r. generalize (@nil Elem) as qs.
  induction IH as [|a r Ha _ IHr]; intros qs; simpl; [done|].
  by rewrite !filter_app, Ha, elem_append, IHr.
Qed.

(** The first two of the inserted elements: their paths. *)
Lemma entries_append_new n a b rest pn ups ps t :
  pn ∈ entries ups ps t → path_nid pn = Some n →
  ∃ qs, ((elem a, qs) :: pn) ∈ entries ups ps (append_children n (a :: b :: rest) t)
        ∧ ((elem b, elem a :: qs) :: pn)
            ∈ entries ups ps (append_children n (a :: b :: rest) t).
Proof.
  revert ups ps. induction t as [e ks IH] using Node_ind'. intros ups ps.
  simpl. intros [->|Hp]%elem_of_cons Hn.
  - simpl in Hn. simplify_eq. rewrite bool_decide_true by done.
    exists (rev (map elem (map (append_children (nid e) (a :: b :: rest)) ks)) ++ []).
    split; right; rewrite walk_app; apply elem_of_app; right; simpl.
    + destruct a as [ea ka]. simpl. left.
    + apply elem_of_app. right. destruct b as [eb kb]. simpl. left.
  - apply elem_of_walk in Hp as (l1 & k & l2 & -> & Hk).
    rewrite Forall_forall in IH.
    assert (k ∈ l1 ++ k :: l2) as Hkin by (apply elem_of_app; right; left).
    destruct (IH k Hkin _ _ Hk Hn) as (qs & H1 & H2).
    exists qs. split; right; apply elem_of_walk;
      exists (map (append_children n (a :: b :: rest)) l1),
             (append_children n (a :: b :: rest) k),
             (map (append_children n (a :: b :: rest)) l2
              ++ (if bool_decide (nid e = n) then a :: b :: rest else []));
      (split; [by rewrite map_app, <- app_assoc | by rewrite map_elem_append]).
Qed.

Lemma filter_elems_append (P : Elem → Prop) `{∀ x, Decision (P x)} n new t :
  Forall (λ k, filter P (elems k) = []) new →
  filter P (elems (append_children n new t)) = filter P (elems t).
Proof.
  intros Hnew. induction t as [e ks IH] using Node_ind'. simpl.
  rewrite !filter_cons, map_app, concat_app, filter_app.
  rewrite (filter_concat_nil P (map elems (if bool_decide (nid e = n) then new else []))).
  2:{ case_bool_decide; [by apply Forall_fmap | constructor]. }
  rewrite app_nil_r.
  assert (filter P (concat (map elems (map (append_children n new) ks)))
          = filter P (concat (map elems ks))) as ->; [|done].
  induction IH as [|a r Ha _ IHr]; simpl; [done|].
  by rewrite !filter_app, Ha, IHr.
Qed.

Lemma find_elem_append c n new t :
  c ∉ concat (map nids new) →
  find_elem c (append_children n new t) = find_elem c t.
Proof.
  intros Hc. unfold find_elem. rewrite filter_elems_append; [done|].
  apply Forall_forall. intros k Hk. apply filter_none. intros e He Hn.
  apply Hc. subst c. eapply nids_kid; [done|]. by apply list_elem_of_fmap_2.
Qed.

Lemma append_absent n new t : n ∉ nids t → append_children n new t = t.
Proof.
  induction t as [e ks IH] using Node_ind'. rewrite nids_N. intros Hn.
  apply not_elem_of_cons in Hn as [Hne Hn]. simpl.
  rewrite bool_decide_false by done. rewrite app_nil_r. f_equal.
  assert (∀ k, k ∈ ks → n ∉ nids k) as Hks.
  { intros k Hk Hin. apply Hn. by eapply nids_kid. }
  clear Hn. induction IH as [|a r Ha _ IHr]; simpl; [done|].
  rewrite Ha by (apply Hks; left). f_equal. apply IHr.
  intros k Hk. apply Hks. by right.
Qed.

Lemma nids_append_incl x n new t :
  x ∈ nids (append_children n new t) →
  x ∈ nids t ∨ (x ∈ concat (map nids new) ∧ n ∈ nids t).
Proof.
  induction t as [e ks IH] using Node_ind'. simpl. rewrite !nids_N.
  rewrite map_app, concat_app.
  intros [->|[Hx|Hx]%elem_of_app]%elem_of_cons.
  - left. left.
  - assert (x ∈ concat (map nids ks)
            ∨ (x ∈ concat (map nids new) ∧ n ∈ concat (map nids ks))) as [?|[? ?]].
    { clear -IH Hx. induction IH as [|a r Ha _ IHr]; simpl in *; [by left|].
      apply elem_of_app in Hx as [Hx|Hx].
      - destruct (Ha Hx) as [?|[? ?]]; [left | right; split; [done|]];
          apply elem_of_app; by left.
      - destruct (IHr Hx) as [?|[? ?]]; [left | right; split; [done|]];
          apply elem_of_app; by right. }
    + left. by right.
    + right. split; [done | by right].
  - case_bool_decide; [|by inversion Hx]. right. split; [done|]. subst. left.
Qed.

Lemma NoDup_concat_append n new ks :
  Forall (λ t, wf t → wf (append_children n new t)) ks →
  (∀ x, x ∈ concat (map nids new) → x ∉ concat (map nids ks)) →
  NoDup (concat (map nids ks)) →
  NoDup (concat (map nids (map (append_children n new) ks))).
Proof.
  intros IH Hdisj. induction IH as [|a r Ha _ IHr]; simpl; [done|].
  intros [Hna [Hd Hnr]]%NoDup_app. apply NoDup_app. split; [by apply Ha|].
  split; [|apply IHr; [|done]].
  - intros x Hxa Hxr.
    assert (x ∈ concat (map nids r)
            ∨ (x ∈ concat (map nids new) ∧ n ∈ concat (map nids r))) as Hr.
    { clear -Hxr. induction r as [|b r IHb]; simpl in *; [by left|].
      apply elem_of_app in Hxr as [Hx|Hx].
      - destruct (nids_append_incl _ _ _ _ Hx) as [?|[? ?]];
          [left | right; split; [done|]]; apply elem_of_app; by left.
      - destruct (IHb Hx) as [?|[? ?]]; [left | right; split; [done|]];
          apply elem_of_app; by right. }
    destruct (nids_append_incl _ _ _ _ Hxa) as [Ha1|[Ha1 Ha2]],
             Hr as [Hr1|[Hr1 Hr2]].
    + by apply (Hd x).
    + apply (Hdisj x Hr1). simpl. apply elem_of_app. by left.
    + apply (Hdisj x Ha1). simpl. apply elem_of_app. by right.
    + by apply (Hd n).
  - intros x Hx Hin. apply (Hdisj x Hx). simpl. apply elem_of_app. by right.
Qed.

(** New elements with new references keep the elements distinct. *)
Lemma wf_append n new t :
  NoDup (concat (map nids new)) →
  (∀ x, x ∈ concat (map nids new) → x ∉ nids t) →
  wf t → wf (append_children n new t).
Proof.
  intros Hnew. induction t as [e ks IH] using Node_ind'.
  unfold wf. simpl. rewrite !nids_N, map_app, concat_app.
  intros Hdisj [He Hks]%NoDup_cons.
  assert (∀ x, x ∈ concat (map nids new) → x ∉ concat (map nids ks)) as Hdk.
  { intros x Hx Hin. apply (Hdisj x Hx). by right. }
  assert (NoDup (concat (map nids (map (append_children n new) ks)))) as Hnd.
  { apply NoDup_concat_append; [|done..].
    apply Forall_forall. intros k Hk. rewrite Forall_forall in IH.
    apply (IH k Hk). intros x Hx Hin. apply (Hdk x Hx). by eapply nids_kid. }
  assert (∀ x, x ∈ concat (map nids (map (append_children n new) ks)) →
               x ∈ concat (map nids ks)
               ∨ (x ∈ concat (map nids new) ∧ n ∈ concat (map nids ks))) as Hincl.
  { intros x Hx. clear -Hx. induction ks as [|b r IHb]; simpl in *; [by left|].
    apply elem_of_app in Hx as [Hx|Hx].
    - destruct (nids_append_incl _ _ _ _ Hx) as [?|[? ?]];
        [left | right; split; [done|]]; apply elem_of_app; by left.
    - destruct (IHb Hx) as [?|[? ?]]; [left | right; split; [done|]];
        apply elem_of_app; by right. }
  apply NoDup_cons. split.
  - intros [Hin|Hin]%elem_of_app.
    + destruct (Hincl _ Hin) as [?|[Hx _]]; [done|]. apply (Hdisj _ Hx). left.
    + case_bool_decide; [|by inversion Hin]. apply (Hdisj _ Hin). left.
  - apply NoDup_app. split; [done|]. split.
    + intros x Hx Hin. case_bool_decide as Hn; [|by inversion Hin].
      destruct (Hincl _ Hx) as [?|[_ Hnk]]; [by apply (Hdk x)|].
      subst n. done.
    + case_bool_decide; [done | constructor].
Qed.

(** ** Paths and elements *)

Lemma entries_frames p ups ps t fr :
  p ∈ entries ups ps t → fr ∈ p → fr ∈ ups ∨ fr.1 ∈ elems t.
Proof.
  revert ups ps. induction t as [e ks IH] using Node_ind'. intros ups ps.
  simpl. intros [->|Hp]%elem_of_cons Hfr.
  - apply elem_of_cons in Hfr as [->|?]; [right; left | by left].
  - apply elem_of_walk in Hp as (l1 & k & l2 & -> & Hk).
    rewrite Forall_forall in IH.
    assert (k ∈ l1 ++ k :: l2) as Hkin by (apply elem_of_app; right; left).
    destruct (IH k Hkin _ _ Hk Hfr) as [[->|?]%elem_of_cons|Hin].
    + right. left.
    + by left.
    + right. right. apply elem_of_concat. exists (elems k).
      split; [by apply list_elem_of_fmap_2 | done].
Qed.

Lemma wf_unique t e1 e2 :
  wf t → e1 ∈ elems t → e2 ∈ elems t → nid e1 = nid e2 → e1 = e2.
Proof.
  unfold wf, nids. generalize (elems t) as l.
  induction l as [|x l IH]; [by inversion 2|]. simpl.
  intros [Hx Hnd]%NoDup_cons [->|H1]%elem_of_cons [->|H2]%elem_of_cons Heq.
  - done.
  - exfalso. apply Hx. rewrite Heq. by apply list_elem_of_fmap_2.
  - exfalso. apply Hx. rewrite <- Heq. by apply list_elem_of_fmap_2.
  - by apply IH.
Qed.

Lemma find_elem_wf t e : wf t → e ∈ elems t → find_elem (nid e) t = Some e.
Proof.
  intros Hwf He.
  destruct (find_elem_Some (nid e) t) as [e' He'].
  { by apply list_elem_of_fmap_2. }
  rewrite He'. f_equal. apply (wf_unique t); [done| |done|].
  - by eapply find_elem_elem_of.
  - by eapply find_elem_nid.
Qed.

Lemma elem_of_select sel t c :
  c ∈ select sel t
  ↔ ∃ p, p ∈ entries [] [] t ∧ matches sel p = true ∧ path_nid p = Some c.
Proof.
  unfold select. rewrite list_elem_of_omap. split.
  - intros (p & [Hm Hp]%list_elem_of_filter & Hn). eauto.
  - intros (p & Hp & Hm & Hn). exists p. split; [|done].
    by apply list_elem_of_filter.
Qed.

(** ** Hide buttons *)

(** The function that [addHideButton] applies to each cell. *)
Local Abbreviation hide_step :=
  (λ inputCell : nat,
     tagged <- classList_contains inputCell "tag_hide_input" ;;
     if negb tagged then ret ()
     else
       id <- getAttribute inputCell "id" ;;
       input <- querySelector_in inputCell [Sel (div_ "input")] ;;
       input <- deref input ;;
       insertAdjacentHTML input BeforeEnd (hideCodeButton (js_string id)) ;;
       link <- querySelector_id hideLinkOf (js_string id) ;;
       writes (set_hideLink (Some link)) ;;
       link <- deref link ;;
       addEventListener (Element link) "click" ToggleCodeCellVisibility).

(** What follows the insertion in one step. *)
Local Abbreviation hide_step_rest :=
  (λ id : option string,
     link <- querySelector_id hideLinkOf (js_string id) ;;
     writes (set_hideLink (Some link)) ;;
     link <- deref link ;;
     addEventListener (Element link) "click" ToggleCodeCellVisibility).

Global Instance stays_guarded_refl : Reflexive stays_guarded.
Proof. intros s H. exact H. Qed.
Global Instance stays_guarded_trans : Transitive stays_guarded.
Proof. intros s1 s2 s3 H1 H2 H. by apply H2, H1. Qed.





Lemma some_suffix_intro {A} (f : list A → bool) l1 l2 :
  f l2 = true → some_suffix f (l1 ++ l2) = true.
Proof.
  intros Hf. induction l1 as [|x l1 IH]; simpl.
  - destruct l2; simpl in *; by rewrite Hf.
  - rewrite IH. apply orb_true_r.
Qed.

Lemma elem_of_select_in c sel t x :
  x ∈ select_in c sel t →
  ∃ p, p ∈ entries [] [] t ∧ is_below c p = true ∧ matches sel p = true
       ∧ path_nid p = Some x.
Proof.
  unfold select_in. rewrite list_elem_of_omap.
  intros (p & [Hm Hp]%list_elem_of_filter & Hn).
  apply andb_true_iff in Hm as [? ?]. eauto 6.
Qed.

(** An element on the path of a descendant of [c], found by reference. *)
Lemma is_below_frame c p t ce :
  wf t → p ∈ entries [] [] t → is_below c p = true →
  find_elem c t = Some ce →
  ∃ fr l1 fr0 l2, p = fr0 :: l1 ++ (ce, fr) :: l2.
Proof.
  intros Hwf Hp Hb Hce. destruct p as [|fr0 ups]; [done|]. simpl in Hb.
  apply bool_decide_eq_true in Hb.
  apply list_elem_of_omap in Hb as ([e qs] & Hin & Heq).
  simpl in Heq. simplify_eq.
  apply list_elem_of_split in Hin as (l1 & l2 & ->).
  exists qs, l1, fr0, l2. do 3 f_equal.
  destruct (entries_frames _ _ _ _ (e, qs) Hp) as [Hf|Hf].
  { right. apply elem_of_app. right. left. }
  { by inversion Hf. }
  simpl in Hf. pose proof (find_elem_wf _ _ Hwf Hf) as He.
  rewrite Hce in He. by simplify_eq.
Qed.

(** The checkbox put below a tagged [div] is one the existence check
    finds. *)
Lemma hidden_input_matches ce fr l1 l2 (inp : Elem) qs fr0 :
  tag ce = "div" → "tag_hide_input" ∈ classes ce → tag inp = "input" →
  matches hiddenInputs ((inp, qs) :: fr0 :: l1 ++ (ce, fr) :: l2) = true.
Proof.
  intros Hdiv Hcls Hinp. unfold matches, hiddenInputs. simpl.
  rewrite Hinp. rewrite bool_decide_true by done. simpl.
  rewrite some_suffix_intro; [by rewrite orb_true_r|]. simpl.
  rewrite Hdiv. by rewrite !bool_decide_true.
Qed.

(** One step of the loop of [addHideButton]: it throws before it has
    changed anything, or it skips a cell that is not tagged, or it appends
    the hide button to the first [div.input] below the tagged cell and goes
    on with the rest of the step. *)
Lemma hide_step_cases c s :
  (∃ err, hide_step c s = (Throw err, s))
  ∨ (∃ ce, find_elem c (document s) = Some ce
           ∧ ("tag_hide_input" ∉ classes ce)
           ∧ hide_step c s = (Ok (), s))
  ∨ (∃ ce tg,
       find_elem c (document s) = Some ce
       ∧ "tag_hide_input" ∈ classes ce
       ∧ head (select_in c [Sel (div_ "input")] (document s)) = Some tg
       ∧ hide_step c s
         = hide_step_rest (attrs ce !! "id")
             (set_document
                (append_children tg
                   (hideCodeButton (js_string (attrs ce !! "id"))
                                   (fresh (document s)))
                   (document s)) s)).
Proof.
  match goal with |- (∃ err, ?x = _) ∨ _ => remember x as r eqn:Hr end.
  cbv beta in Hr. unfold classList_contains in Hr.
  destruct (find_elem c (document s)) as [ce|] eqn:Hce.
  2:{ left. exists StaleReference. rewrite Hr.
      unfold bind at 1, bind at 1, the_elem. by rewrite Hce. }
  rewrite (bind_ok _ _ _ _ _ (bind_ok _ _ _ _ _ (the_elem_ok _ _ _ Hce))) in Hr.
  unfold ret at 1 in Hr. case_bool_decide as Htag; simpl in Hr.
  2:{ right. left. by exists ce. }
  rewrite (bind_ok _ _ _ _ _ (getAttribute_ok _ _ _ _ Hce)) in Hr.
  assert (querySelector_in c [Sel (div_ "input")] s
          = (Ok (head (select_in c [Sel (div_ "input")] (document s))), s)) as Hq.
  { unfold querySelector_in.
    by rewrite (bind_ok _ _ _ _ _ (the_elem_ok _ _ _ Hce)). }
  rewrite (bind_ok _ _ _ _ _ Hq) in Hr.
  destruct (head (select_in c [Sel (div_ "input")] (document s))) as [tg|] eqn:Htg.
  2:{ left. by exists TypeError. }
  unfold bind at 1 in Hr. simpl in Hr. unfold insertAdjacentHTML in Hr.
  destruct (find_elem tg (document s)) as [te|] eqn:Hte.
  2:{ left. exists StaleReference. rewrite Hr.
      unfold bind at 1, bind at 1, the_elem. by rewrite Hte. }
  right. right. exists ce, tg. repeat (split; [done|]).
  by rewrite (bind_ok _ _ _ _ _ (bind_ok _ _ _ _ _ (the_elem_ok _ _ _ Hte))) in Hr.
Qed.


Lemma hide_step_rest_document id : respects (keeps document) (hide_step_rest id).
Proof. cbv beta. keeps_walk. Qed.

Lemma hideCodeButton_shape id base :
  ∃ inp lab,
    hideCodeButton id base = [inp; lab]
    ∧ tag (elem inp) = "input" ∧ tag (elem lab) = "label"
    ∧ "hidebtn" ∈ classes (elem inp)
    ∧ attrs (elem inp) !! "data-id" = Some id
    ∧ nid (elem inp) = base.
Proof.
  eexists _, _. split; [reflexivity|]. simpl.
  split; [done|]. split; [done|]. split; [set_solver|].
  split; [by vm_compute | done].
Qed.


Lemma forEach_cons_eq {A} (l : list A) (f : A → M unit) x s (m : M unit) s1 :
  f x s = m s1 →
  forEach (x :: l) f s = bind m (λ _, forEach l f) s1.
Proof. intros H. simpl. unfold bind. by rewrite H. Qed.

Lemma forEach_cons_ok {A} (l : list A) (f : A → M unit) x s s' :
  f x s = (Ok (), s') → forEach (x :: l) f s = forEach l f s'.
Proof. intros H. simpl. unfold bind. by rewrite H. Qed.

Lemma forEach_cons_throw {A} (l : list A) (f : A → M unit) x s e s' :
  f x s = (Throw e, s') → forEach (x :: l) f s = (Throw e, s').
Proof. intros H. simpl. unfold bind. by rewrite H. Qed.


Lemma addHideButton_guarded s :
  guarded (document s) → addHideButton s = (Ok (), s).
Proof.
  unfold guarded, addHideButton, bind, querySelector, reads.
  by destruct (select hiddenInputs (document s)).
Qed.

Lemma addHideButton_unguarded s :
  ¬ guarded (document s) →
  addHideButton s
  = (inputCells <- pageElement "inputCells" ;; forEach inputCells hide_step) s.
Proof.
  unfold guarded. intros Hg. unfold addHideButton, bind at 1, querySelector, reads.
  destruct (select hiddenInputs (document s)); [done|]. by destruct Hg.
Qed.

Lemma pageElement_ok k s l :
  pageElements s !! k = Some l → pageElement k s = (Ok l, s).
Proof. unfold pageElement, bind, reads. by intros ->. Qed.

Lemma pageElement_none k s :
  pageElements s !! k = None → pageElement k s = (Throw TypeError, s).
Proof. unfold pageElement, bind, reads. by intros ->. Qed.

(** What [addHideButton] does when the existence check finds nothing. *)
Lemma addHideButton_loop s :
  ¬ guarded (document s) →
  addHideButton s
  = match pageElements s !! "inputCells" with
    | Some l => forEach l hide_step s
    | None => (Throw TypeError, s)
    end.
Proof.
  intros Hg. rewrite addHideButton_unguarded by done.
  destruct (pageElements s !! "inputCells") as [l|] eqn:Hl.
  - by rewrite (bind_ok _ _ _ _ _ (pageElement_ok _ _ _ Hl)).
  - by rewrite (bind_throw _ _ _ _ _ (pageElement_none _ _ Hl)).
Qed.


(** The function that [initHiddenCells] applies to each checkbox, and the
    loop it runs after [addHideButton]. *)
Local Abbreviation collapse_step :=
  (λ item : nat, setCodeCellVisibility item "hidden" ;; set_checked item true).

Local Abbreviation collapse_all :=
  (items <- querySelectorAll hiddenInputs ;; forEach items collapse_step).

Lemma restyled_same s s' : document s' = document s → restyled s s'.
Proof.
  intros H. exists id. split; [apply restyles_id | by rewrite tmap_id].
Qed.

Lemma restyled_update n f s :
  restyles f → restyled s (set_document (update n f (document s)) s).
Proof.
  intros Hf. exists (upd n f). split; [by apply restyles_upd|].
  simpl. apply update_tmap.
Qed.

Ltac restyled_walk :=
  repeat first
    [ match goal with
      | |- respects _ (if bool_decide (?a = ?b) then _ else _) =>
          rewrite (bool_decide_false (a = b)) by done
      end
    | respects_step ];
  first [ by apply restyled_same
        | apply restyled_update;
          first [ apply restyles_with_class | apply restyles_with_checked ] ].

Lemma collapse_step_restyled item : respects restyled (collapse_step item).
Proof. cbv beta. restyled_walk. Qed.

Lemma collapse_all_restyled : respects restyled collapse_all.
Proof.
  apply respects_bind; [apply _ | apply respects_reads; apply _|].
  intros items. apply respects_forEach; [apply _ | apply _|].
  apply collapse_step_restyled.
Qed.

Lemma initHiddenCells_form s :
  initHiddenCells s
  = match addHideButton s with
    | (Ok _, s') => collapse_all s'
    | (Throw e, s') => (Throw e, s')
    end.
Proof. reflexivity. Qed.

Lemma initHiddenCells_restyled s :
  restyled (exec addHideButton s) (exec initHiddenCells s).
Proof.
  unfold exec. rewrite initHiddenCells_form.
  destruct (addHideButton s) as [[[]|e] s']; simpl; [|reflexivity].
  apply collapse_all_restyled.
Qed.



Lemma nids_restyled s s' : restyled s s' → nids (document s') = nids (document s).
Proof. intros (g & Hg & ->). apply nids_tmap. intros e. apply Hg. Qed.




(** ** The hide buttons that a run places *)

Global Instance grown_refl : Reflexive grown.
Proof. intros s Hwf. by repeat split. Qed.

Global Instance grown_trans : Transitive grown.
Proof.
  intros s1 s2 s3 H12 H23 Hwf1.
  destruct (H12 Hwf1) as (Hwf2 & Hp12 & Hf12).
  destruct (H23 Hwf2) as (Hwf3 & Hp23 & Hf23).
  split; [done|]. split; [by auto|].
  intros c Hc. rewrite Hf23, Hf12; [done..|].
  destruct (find_elem_Some c _ Hc) as [e He].
  eapply find_elem_in_nids. by rewrite Hf12.
Qed.

Lemma grown_same s s' : document s' = document s → grown s s'.
Proof. intros H Hwf. rewrite H. by repeat split. Qed.

Lemma hideCodeButton_nids id base :
  concat (map nids (hideCodeButton id base)) = [base; base + 1; base + 2; base + 3].
Proof. done. Qed.

Lemma grown_append tg id s :
  grown s (set_document
             (append_children tg (hideCodeButton id (fresh (document s)))
                              (document s)) s).
Proof.
  intros Hwf. simpl.
  assert (∀ x, x ∈ concat (map nids (hideCodeButton id (fresh (document s)))) →
               x ∉ nids (document s)) as Hnew.
  { intros x Hx Hin. rewrite hideCodeButton_nids in Hx. apply fresh_gt in Hin.
    rewrite !elem_of_cons, elem_of_nil in Hx. lia. }
  split; [|split].
  - apply wf_append; [|done..]. rewrite hideCodeButton_nids.
    repeat (apply NoDup_cons; split;
            [rewrite ?elem_of_cons, elem_of_nil; lia|]).
    apply NoDup_nil_2.
  - intros p. apply entries_append_old.
  - intros c Hc. apply find_elem_append. intros Hin. by apply (Hnew c).
Qed.

Lemma placed_grown c id s s' :
  wf (document s) → grown s s' → placed c id (document s) →
  placed c id (document s').
Proof.
  intros Hwf Hg (inp & lab & qs & fr0 & l1 & ce & fr & l2 & H1 & H2 & Hrest).
  destruct (Hg Hwf) as (_ & Hp & _).
  exists inp, lab, qs, fr0, l1, ce, fr, l2. split; [by apply Hp|].
  split; [by apply Hp | done].
Qed.

(** The insertion places the hide button below the cell. *)
Lemma insert_places c ce tg id base t :
  wf t → find_elem c t = Some ce → tag ce = "div" →
  "tag_hide_input" ∈ classes ce →
  head (select_in c [Sel (div_ "input")] t) = Some tg →
  placed c id (append_children tg (hideCodeButton id base) t).
Proof.
  intros Hwf Hce Hdiv Hcls Htg.
  apply head_Some_elem_of, elem_of_select_in in Htg
    as (ptg & Hp & Hb & _ & Hn).
  destruct (hideCodeButton_shape id base)
    as (inp & lab & -> & Hinp & Hlab & Hbtn & Hdata & _).
  destruct (entries_append_new tg inp lab [] ptg [] [] t Hp Hn) as (qs & H1 & H2).
  destruct (is_below_frame c ptg t ce Hwf Hp Hb Hce) as (fr & l1 & fr0 & l2 & ->).
  exists (elem inp), (elem lab), qs, fr0, l1, ce, fr, l2.
  split; [done|]. split; [done|].
  split; [by eapply find_elem_nid | done].
Qed.

(** The loop of [addHideButton], when it returns: the document has grown,
    and every tagged cell of the list has its hide button placed. *)
Lemma hide_loop_places l i0 s s1 :
  wf (document s) →
  (∀ i c, l !! i = Some c →
     ∃ e, find_elem c (document s) = Some e ∧ tag e = "div"
          ∧ attrs e !! "id" = Some (inputCellId (i0 + i))) →
  forEach l hide_step s = (Ok (), s1) →
  grown s s1
  ∧ ∀ i c e, l !! i = Some c → find_elem c (document s) = Some e →
      "tag_hide_input" ∈ classes e →
      placed c (inputCellId (i0 + i)) (document s1).
Proof.
  revert i0 s. induction l as [|c r IH]; intros i0 s Hwf Hcells Hrun.
  - simpl in Hrun. unfold ret in Hrun. simplify_eq.
    split; [reflexivity|]. intros i c e Hi. by rewrite lookup_nil in Hi.
  - destruct (Hcells 0 c eq_refl) as (e0 & He0 & Hdiv0 & Hid0).
    rewrite Nat.add_0_r in Hid0.
    assert (∀ s2, document s2 = document s ∨ grown s s2 →
              wf (document s2) →
              (∀ x, x ∈ nids (document s) →
                    find_elem x (document s2) = find_elem x (document s)) →
              ∀ i c', r !! i = Some c' →
                ∃ e, find_elem c' (document s2) = Some e ∧ tag e = "div"
                     ∧ attrs e !! "id" = Some (inputCellId (S i0 + i))) as Hnext.
    { intros s2 _ _ Hf i c' Hi.
      destruct (Hcells (S i) c' Hi) as (e & He & Hd & Hid).
      exists e. rewrite Hf by by eapply find_elem_in_nids.
      split; [done|]. split; [done|].
      by replace (S i0 + i) with (i0 + S i) by lia. }
    destruct (hide_step_cases c s)
      as [[err Hs]|[(ce & Hce & Hcls & Hs)|(ce & tg & Hce & Hcls & Htg & Hs)]].
    + rewrite (forEach_cons_throw r hide_step c s err s Hs) in Hrun. done.
    + rewrite (forEach_cons_ok r hide_step c s s Hs) in Hrun.
      destruct (IH (S i0) s Hwf) with (2 := Hrun) as [Hg Hpl].
      { apply (Hnext s); [by left | done | done]. }
      split; [done|]. intros [|i] c' e Hi He Htag; simpl in Hi.
      * simplify_eq. done.
      * replace (i0 + S i) with (S i0 + i) by lia. by eapply Hpl.
    + rewrite (forEach_cons_eq r hide_step c s _ _ Hs) in Hrun.
      apply bind_inv_ok in Hrun as ([] & s2 & Hrest & Hloop).
      rewrite He0 in Hce. simplify_eq. rewrite Hid0 in Hrest. simpl in Hrest.
      set (s1' := set_document _ s) in Hrest.
      assert (grown s s1') as Hg1 by apply grown_append.
      assert (document s2 = document s1') as Hdoc.
      { change s2 with ((Ok (), s2).2). rewrite <- Hrest.
        apply (hide_step_rest_document (Some (inputCellId i0))). }
      assert (grown s s2) as Hg2.
      { etransitivity; [exact Hg1 | by apply grown_same]. }
      destruct (Hg2 Hwf) as (Hwf2 & Hp2 & Hf2).
      destruct (IH (S i0) s2 Hwf2) with (2 := Hloop) as [Hg Hpl].
      { apply (Hnext s2); [by right | done | done]. }
      split; [by etransitivity|].
      intros [|i] c' e Hi He Htag; simpl in Hi.
      * simplify_eq. rewrite Nat.add_0_r.
        apply (placed_grown _ _ s2 s1 Hwf2 Hg). rewrite Hdoc. unfold s1'.
        simpl. by eapply insert_places.
      * replace (i0 + S i) with (S i0 + i) by lia.
        apply (Hpl i c' e Hi); [|done].
        rewrite Hf2; [done|]. by eapply find_elem_in_nids.
Qed.

Lemma highlightOf_plain id : "hidden" ∉ selector_classes (highlightOf id).
Proof. by vm_compute; set_solver. Qed.

Lemma the_elem_stale n s :
  find_elem n (document s) = None → the_elem n s = (Throw StaleReference, s).
Proof. unfold the_elem. by intros ->. Qed.

Lemma modify_stale n f s :
  find_elem n (document s) = None → modify n f s = (Throw StaleReference, s).
Proof.
  intros H. unfold modify. by rewrite (bind_throw _ _ _ _ _ (the_elem_stale _ _ H)).
Qed.

Lemma getAttribute_stale n k s :
  find_elem n (document s) = None →
  getAttribute n k s = (Throw StaleReference, s).
Proof.
  intros H. unfold getAttribute.
  by rewrite (bind_throw _ _ _ _ _ (the_elem_stale _ _ H)).
Qed.

Lemma bind_reads {A B} (f : State → A) (k : A → M B) s :
  bind (reads f) k s = k (f s) s.
Proof. done. Qed.

Lemma bind_ret {A B} (a : A) (k : A → M B) s : bind (ret a) k s = k a s.
Proof. done. Qed.

(** [setCodeCellVisibility(inputField, 'hidden')], step by step. *)
Lemma querySelector_id_ok sel id s :
  css_identifier id = true →
  querySelector_id sel id s = (Ok (head (select (sel id) (document s))), s).
Proof. intros H. unfold querySelector_id. by rewrite H. Qed.

Lemma querySelector_id_unread sel id s :
  css_identifier id = false →
  querySelector_id sel id s = (Throw UnreadSelector, s).
Proof. intros H. unfold querySelector_id. by rewrite H. Qed.

Lemma setCodeCellVisibility_hidden item s :
  setCodeCellVisibility item "hidden" s
  = match find_elem item (document s) with
    | None => (Throw StaleReference, s)
    | Some e =>
        if css_identifier (js_string (attrs e !! "data-id")) then
          match head (select (highlightOf (js_string (attrs e !! "data-id")))
                             (document s)) with
          | None => (Throw TypeError, s)
          | Some h =>
              match find_elem h (document s) with
              | None => (Throw StaleReference, s)
              | Some eh =>
                  (Ok (),
                   set_document
                     (update item (with_checked false)
                        (update h (with_class "hidden") (document s))) s)
              end
          end
        else (Throw UnreadSelector, s)
    end.
Proof.
  unfold setCodeCellVisibility.
  destruct (find_elem item (document s)) as [e|] eqn:He.
  2:{ by rewrite (bind_throw _ _ _ _ _ (getAttribute_stale _ _ _ He)). }
  rewrite (bind_ok _ _ _ _ _ (getAttribute_ok _ _ _ _ He)).
  destruct (css_identifier (js_string (attrs e !! "data-id"))) eqn:Hid.
  2:{ by rewrite (bind_throw _ _ _ _ _ (querySelector_id_unread _ _ _ Hid)). }
  rewrite (bind_ok _ _ _ _ _ (querySelector_id_ok _ _ _ Hid)).
  rewrite bool_decide_false by done.
  destruct (head (select _ (document s))) as [h|] eqn:Hh; [|done].
  simpl deref. rewrite bind_ret. unfold classList_add.
  destruct (find_elem h (document s)) as [eh|] eqn:Heh.
  2:{ by rewrite (bind_throw _ _ _ _ _ (modify_stale _ _ _ Heh)). }
  rewrite (bind_ok _ _ _ _ _ (modify_ok _ _ _ _ Heh)).
  unfold set_checked. erewrite modify_ok; [done|]. simpl.
  rewrite find_elem_update, He by auto with dom. done.
Qed.

(** One step of the loop of [initHiddenCells]. *)
Lemma collapse_step_eq item s :
  collapse_step item s
  = match find_elem item (document s) with
    | None => (Throw StaleReference, s)
    | Some e =>
        if css_identifier (js_string (attrs e !! "data-id")) then
          match head (select (highlightOf (js_string (attrs e !! "data-id")))
                             (document s)) with
          | None => (Throw TypeError, s)
          | Some h =>
              match find_elem h (document s) with
              | None => (Throw StaleReference, s)
              | Some eh =>
                  (Ok (),
                   set_document
                     (tmap (upd item (with_checked true)
                            ∘ upd item (with_checked false)
                            ∘ upd h (with_class "hidden"))
                           (document s)) s)
              end
          end
        else (Throw UnreadSelector, s)
    end.
Proof.
  cbv beta.
  pose proof (setCodeCellVisibility_hidden item s) as Hvis.
  destruct (find_elem item (document s)) as [e|] eqn:He.
  2:{ by rewrite (bind_throw _ _ _ _ _ Hvis). }
  destruct (css_identifier (js_string (attrs e !! "data-id"))) eqn:Hid.
  2:{ by rewrite (bind_throw _ _ _ _ _ Hvis). }
  destruct (head (select _ (document s))) as [h|] eqn:Hh.
  2:{ by rewrite (bind_throw _ _ _ _ _ Hvis). }
  destruct (find_elem h (document s)) as [eh|] eqn:Heh.
  2:{ by rewrite (bind_throw _ _ _ _ _ Hvis). }
  rewrite (bind_ok _ _ _ _ _ Hvis).
  unfold set_checked. erewrite modify_ok.
  - simpl. by rewrite !update_tmap, !tmap_compose.
  - simpl. rewrite !find_elem_update, He by auto with dom. done.
Qed.

Lemma collapse_glyph_facts it h :
  let g1 := upd it (with_checked true) ∘ upd it (with_checked false)
            ∘ upd h (with_class "hidden") in
  restyles g1
  ∧ (∀ e, nid e ≠ it → checked (g1 e) = checked e)
  ∧ (∀ e, nid e = it → checked (g1 e) = true)
  ∧ (∀ e, nid e = h → "hidden" ∈ classes (g1 e)).
Proof.
  intros g1. split; [|split; [|split]].
  - apply restyles_compose; [|apply restyles_compose];
      apply restyles_upd;
      first [apply restyles_with_class | apply restyles_with_checked].
  - intros e Hne. unfold g1, upd. simpl.
    destruct (bool_decide (nid e = h)) eqn:Hh; simpl;
      rewrite !(bool_decide_false (nid e = it)) by done; simpl;
      rewrite ?bool_decide_false by done; done.
  - intros e Heq. unfold g1, upd. simpl.
    destruct (bool_decide (nid e = h)) eqn:Hh; simpl;
      rewrite !(bool_decide_true (nid e = it)) by done; simpl;
      rewrite ?bool_decide_true by done; done.
  - intros e Heq. unfold g1. simpl.
    assert ("hidden" ∈ classes (upd h (with_class "hidden") e)) as Hin.
    { unfold upd. rewrite bool_decide_true by done. unfold with_class. simpl.
      case_bool_decide; [done|]. apply elem_of_app. right. left. }
    revert Hin. generalize (upd h (with_class "hidden") e) as e1. intros e1 H1.
    unfold upd. repeat case_bool_decide; done.
Qed.

(** The loop of [initHiddenCells], when it returns: the document is
    restyled; every checkbox of the list is checked, and the element that
    its [data-id] leads to has the class [hidden]. *)
Lemma collapse_loop items s s' :
  NoDup items →
  forEach items collapse_step s = (Ok (), s') →
  ∃ g, restyles g ∧ document s' = tmap g (document s)
       ∧ (∀ e, nid e ∉ items → checked (g e) = checked e)
       ∧ ∀ it e, it ∈ items → find_elem it (document s) = Some e →
           checked (g e) = true
           ∧ ∃ h eh,
               head (select (highlightOf (js_string (attrs e !! "data-id")))
                            (document s)) = Some h
               ∧ find_elem h (document s) = Some eh
               ∧ "hidden" ∈ classes (g eh).
Proof.
  revert s. induction items as [|it r IH]; intros s Hnd Hrun.
  - simpl in Hrun. unfold ret in Hrun. injection Hrun as <-.
    exists id. split; [apply restyles_id|]. split; [by rewrite tmap_id|].
    split; [done|]. intros it e Hit. by inversion Hit.
  - apply NoDup_cons in Hnd as [Hit Hnd].
    pose proof (collapse_step_eq it s) as Hstep.
    destruct (find_elem it (document s)) as [e0|] eqn:He0.
    2:{ by rewrite (forEach_cons_throw r collapse_step it s _ s Hstep) in Hrun. }
    destruct (css_identifier (js_string (attrs e0 !! "data-id"))) eqn:Hid0.
    2:{ by rewrite (forEach_cons_throw r collapse_step it s _ s Hstep) in Hrun. }
    destruct (head (select _ (document s))) as [h|] eqn:Hh.
    2:{ by rewrite (forEach_cons_throw r collapse_step it s _ s Hstep) in Hrun. }
    destruct (find_elem h (document s)) as [eh|] eqn:Heh.
    2:{ by rewrite (forEach_cons_throw r collapse_step it s _ s Hstep) in Hrun. }
    rewrite (forEach_cons_ok r collapse_step it s _ Hstep) in Hrun.
    destruct (collapse_glyph_facts it h) as (Hg1 & Hk1 & Hc1 & Hh1).
    set (g1 := upd it (with_checked true) ∘ upd it (with_checked false)
               ∘ upd h (with_class "hidden")) in *.
    destruct (IH _ Hnd Hrun) as (g2 & Hg2 & Hdoc & Hk2 & Hitems).
    simpl in Hdoc, Hitems.
    assert (∀ e, nid (g1 e) = nid e) as Hn1 by (intros e; apply Hg1).
    assert (∀ e, attrs (g1 e) = attrs e) as Ha1 by (intros e; apply Hg1).
    exists (g2 ∘ g1). split; [by apply restyles_compose|].
    split; [by rewrite Hdoc, tmap_compose|]. split.
    { intros e [Hne Hr]%not_elem_of_cons. simpl.
      rewrite Hk2 by by rewrite Hn1. by apply Hk1. }
    intros it' e Hin He. simpl. apply elem_of_cons in Hin as [->|Hin].
    + rewrite He0 in He. injection He as <-. split.
      * rewrite Hk2; [apply Hc1; by eapply find_elem_nid|].
        rewrite Hn1. by rewrite (find_elem_nid _ _ _ He0).
      * exists h, eh. split; [done|]. split; [done|].
        destruct (Hg2 (g1 eh)) as (_ & _ & _ & Hmono & _). apply Hmono.
        apply Hh1. by eapply find_elem_nid.
    + destruct (Hitems it' (g1 e) Hin) as (Hchk & h' & eh' & Hsel & Hfind & Hhid).
      { by rewrite find_elem_tmap, He. }
      split; [done|]. rewrite Ha1 in Hsel.
      rewrite (select_restyle g1 _ _ Hg1 (highlightOf_plain _)) in Hsel.
      rewrite find_elem_tmap in Hfind by done.
      destruct (find_elem h' (document s)) as [eh0|] eqn:Heh0; [|done].
      simpl in Hfind. injection Hfind as <-.
      exists h', eh0. by repeat split.
Qed.

Lemma existsb_elem_of {A} (f : A → bool) (l : list A) x :
  x ∈ l → f x = true → existsb f l = true.
Proof.
  intros Hin Hf. induction l as [|y l IH]; [by inversion Hin|]. simpl.
  apply elem_of_cons in Hin as [<-|Hin]; [by rewrite Hf|].
  rewrite IH by done. apply orb_true_r.
Qed.

Lemma entries_tmap_root g t :
  entries [] [] (tmap g t) = map (map_path g) (entries [] [] t).
Proof. apply (entries_tmap g [] [] t). Qed.

(** X25.  On a page whose input cells are collected
    and which has no checkbox below a tagged [div] yet, when
    [initHiddenCells] returns every collected cell with the class
    [tag_hide_input] contains the checkbox and the label of a hide button,
    the checkbox checked, and the element that [#<id of the cell>
    div.highlight] selects has the class [hidden]. *)
Theorem initHiddenCells_collapses (l : list nat) (s s' : State) :
  wf (document s) → cells_ready l s → ¬ guarded (document s) →
  initHiddenCells s = (Ok (), s') →
  ∀ i c e, l !! i = Some c → find_elem c (document s) = Some e →
    "tag_hide_input" ∈ classes e →
    has_toggle c (inputCellId i) (document s') = true
    ∧ highlight_hidden (inputCellId i) (document s') = true.
Proof.
  intros Hwf [Hpe Hcells] Hguard Hrun i c e Hi He Htag.
  rewrite initHiddenCells_form in Hrun.
  destruct (addHideButton s) as [[[]|err] sa] eqn:Hadd; [|done].
  rewrite addHideButton_loop, Hpe in Hadd by done.
  destruct (hide_loop_places l 0 s sa Hwf Hcells Hadd) as [Hgrown Hplaced].
  destruct (Hgrown Hwf) as (Hwfa & _ & _).
  specialize (Hplaced i c e Hi He Htag). simpl in Hplaced.
  destruct Hplaced
    as (inp & lab & qs & fr0 & l1 & ce & fr & l2 & H1 & H2 & Hc & Hdiv & Hcls
        & Hlab & Hinp & Hbtn & Hdata).
  change (forEach (select hiddenInputs (document sa)) collapse_step sa
          = (Ok (), s')) in Hrun.
  destruct (collapse_loop _ sa s' (select_NoDup _ _ Hwfa) Hrun)
    as (g & Hg & Hdoc & _ & Hitems).
  assert (find_elem (nid inp) (document sa) = Some inp) as Hfind.
  { apply find_elem_wf; [done|].
    destruct (entries_head _ _ _ _ H1) as (x & Hx & Hin). simpl in Hx.
    by simplify_eq. }
  destruct (Hitems (nid inp) inp) as (Hchk & h & eh & Hsel & Hfh & Hhid);
    [|done|].
  { apply elem_of_select. eexists. split; [exact H1|]. split; [|done].
    by apply hidden_input_matches. }
  rewrite Hdata in Hsel. simpl in Hsel.
  destruct (Hg lab) as (_ & Htl & _ & _ & _).
  destruct (Hg inp) as (_ & Hti & Hai & Hci & _).
  destruct (Hg ce) as (Hnc & _ & _ & _ & _).
  split.
  - unfold has_toggle. rewrite Hdoc, entries_tmap_root.
    eapply existsb_elem_of; [apply list_elem_of_fmap_2; exact H2|].
    simpl. rewrite Htl, Hlab, Hti, Hinp, Hai, Hdata, Hchk.
    rewrite (bool_decide_true ("hidebtn" ∈ classes (g inp)))
      by by apply Hci.
    rewrite !bool_decide_true; [done | | done..].
    unfold path_nids, map_path. rewrite !map_app. simpl. right.
    apply elem_of_app. right. rewrite Hnc, Hc. left.
  - unfold highlight_hidden.
    rewrite Hdoc, (select_restyle g _ _ Hg (highlightOf_plain _)), Hsel.
    rewrite find_elem_tmap by (intros x; apply Hg). rewrite Hfh. simpl.
    by rewrite bool_decide_true.
Qed.

Lemma initHiddenCells_collapses_witness :
  let s := exec findInputCells sample_state in
  has_toggle 10 (inputCellId 0) (document (exec initHiddenCells s)) = true
  ∧ highlight_hidden (inputCellId 0) (document (exec initHiddenCells s))
    = true.
Proof.
  intros s.
  eapply (initHiddenCells_collapses [10; 20; 30] s (exec initHiddenCells s)).
  - apply (bool_decide_unpack (wf _)). vm_compute. exact I.
  - split; [by vm_compute|].
    intros [|[|[|i]]] c Hi; simplify_eq/=; eexists; by vm_compute.
  - unfold guarded. intros H. apply H. by vm_compute.
  - by vm_compute.
  - reflexivity.
  - by vm_compute.
  - vm_compute. apply list_elem_of_further, list_elem_of_here.
Defined.

(** C6.  The existence check of [addHideButton] finds any [input] below a
    tagged [div], not only a hide button.  On a page where the first tagged
    cell shows a checkbox of its own, the check finds that checkbox, which
    is no hide button, and no button is added; the run returns and leaves
    the second tagged cell with no hide button and its [div.highlight]
    without the class [hidden]; the checkbox of the page is the only
    [input] of the document. *)
Theorem hide_button_missing :
  let s := exec findInputCells widget_state in
  readyState s = Complete
  ∧ pageElements s !! "inputCells" = Some [10; 20]
  ∧ attr_of 20 "id" (document s) = Some (inputCellId 1)
  ∧ (classes <$> find_elem 20 (document s))
    = Some ["jb_cell"; "tag_hide_input"]
  ∧ querySelector hiddenInputs s = (Ok (Some 18), s)
  ∧ (classes <$> find_elem 18 (document s)) = Some []
  ∧ outcome initHiddenCells s = Ok ()
  ∧ select_in 20 [Sel (div_ "highlight")] (document s) = [25]
  ∧ (classes <$> find_elem 25 (document (exec initHiddenCells s)))
    = Some ["highlight"]
  ∧ has_toggle 20 (inputCellId 1) (document (exec initHiddenCells s)) = false
  ∧ highlight_hidden (inputCellId 1) (document (exec initHiddenCells s))
    = false
  ∧ select [Sel [STag "input"]] (document (exec initHiddenCells s)) = [18].
Proof. intros s. by vm_compute. Qed.

(** * More about the script *)

(** ** Cells that were not collected *)

(** X1.  A routine that reads [pageElements] before its key is there
    throws a TypeError and changes nothing: [addCopyButtonToCodeCells]
    without [codeCells] (ClipboardJS loaded), [addHideButton] and
    [initHiddenCells] without [inputCells] (no checkbox below a tagged
    [div] yet). *)
Theorem cells_not_collected (s : State) :
  (ClipboardJS s = true → pageElements s !! "codeCells" = None →
     addCopyButtonToCodeCells s = (Throw TypeError, s))
  ∧ (¬ guarded (document s) → pageElements s !! "inputCells" = None →
     addHideButton s = (Throw TypeError, s)
     ∧ initHiddenCells s = (Throw TypeError, s)).
Proof.
  split.
  - intros Hl Hpe. unfold addCopyButtonToCodeCells, bind at 1, reads.
    rewrite Hl. simpl.
    by rewrite (bind_throw _ _ _ _ _ (pageElement_none _ _ Hpe)).
  - intros Hg Hpe.
    assert (addHideButton s = (Throw TypeError, s)) as H.
    { rewrite addHideButton_loop by done. by rewrite Hpe. }
    split; [done|]. unfold initHiddenCells.
    by rewrite (bind_throw _ _ _ _ _ H).
Qed.

Lemma cells_not_collected_witness :
  addCopyButtonToCodeCells sample_state = (Throw TypeError, sample_state)
  ∧ addHideButton sample_state = (Throw TypeError, sample_state)
  ∧ initHiddenCells sample_state = (Throw TypeError, sample_state).
Proof.
  split.
  - apply (proj1 (cells_not_collected sample_state)); reflexivity.
  - apply (proj2 (cells_not_collected sample_state)); [|reflexivity].
    unfold guarded. intros H. apply H. by vm_compute.
Defined.

(** ** Waiting without end *)

Lemma routine_waits r s :
  library_loaded r s = false →
  routine r s = (Ok (), set_timers (timers s ++ [(Named r, 250)]) s).
Proof.
  destruct r; simpl; try done.
  - intros H. unfold addCopyButtonToCodeCells, bind, reads. by rewrite H.
  - intros H. apply bool_decide_eq_false in H.
    unfold initAnchors, bind, reads.
    destruct (anchors s); [|done]. by destruct H.
  - intros H. apply bool_decide_eq_false in H.
    unfold initToc, bind, reads.
    destruct (tocbot s); [|done]. by destruct H.
Qed.

Lemma library_loaded_tables r s l c :
  library_loaded r (set_calls c (set_timers l s)) = library_loaded r s.
Proof. by destruct r. Qed.

Lemma polling_state r s n :
  library_loaded r s = false → timers s = [] →
  Nat.iter n (fireTimer 0) (exec (routine r) s)
  = set_calls (calls s ++ replicate n (Named r))
              (set_timers [(Named r, 250)] s).
Proof.
  intros Hl Ht. induction n as [|n IH]; simpl.
  - unfold exec. rewrite routine_waits, Ht by done. simpl.
    rewrite app_nil_r. by destruct s.
  - rewrite IH. unfold fireTimer. simpl.
    unfold invoke, exec, call, bind at 1, writes. simpl.
    rewrite routine_waits by by destruct r.
    simpl. destruct s; simpl in *. unfold set_timers, set_calls. simpl.
    f_equal. rewrite <- app_assoc. f_equal.
    change (Named r :: replicate n (Named r))
      with (replicate (S n) (Named r)).
    by rewrite replicate_S_end.
Qed.

(** X2.  While its library global stays undefined a routine goes on
    waiting: however often its timer has fired, the routine has been called
    that often, the document is as it was, and one timer for the routine is
    pending again. *)
Theorem polling_never_gives_up (r : Routine) (s : State) (n : nat) :
  library_loaded r s = false → timers s = [] →
  let sn := Nat.iter n (fireTimer 0) (exec (routine r) s) in
  timers sn = [(Named r, 250)]
  ∧ document sn = document s
  ∧ count_calls (Named r) sn = n + count_calls (Named r) s.
Proof.
  intros Hl Ht sn. unfold sn. rewrite polling_state by done.
  split; [done|]. split; [done|]. unfold count_calls. simpl.
  rewrite filter_app, length_app.
  assert (length (filter (λ x, x = Named r) (replicate n (Named r))) = n)
    as ->; [|lia].
  induction n as [|k IH]; simpl; [done|].
  rewrite filter_cons, decide_True by done. simpl. by rewrite IH.
Qed.

Lemma polling_never_gives_up_witness :
  let sn := Nat.iter 3 (fireTimer 0) (exec (routine InitAnchors) sample_state) in
  timers sn = [(Named InitAnchors, 250)]
  ∧ document sn = document sample_state
  ∧ count_calls (Named InitAnchors) sn
    = 3 + count_calls (Named InitAnchors) sample_state.
Proof.
  apply (polling_never_gives_up InitAnchors sample_state 3); reflexivity.
Defined.

(** ** The script as the page loads it *)

Lemma addEventListener_new t ev cb s :
  hasAddEventListener s = true → (t, ev, cb) ∉ listeners s →
  addEventListener t ev cb s
  = (Ok (), set_listeners (listeners s ++ [(t, ev, cb)]) s).
Proof.
  intros Hh Hn. unfold addEventListener, bind, reads, writes. rewrite Hh.
  by rewrite bool_decide_false.
Qed.

Lemma runWhenDOMLoaded_loading cb s :
  readyState s = Loading → hasAddEventListener s = true →
  runWhenDOMLoaded cb s = addEventListener Document "DOMContentLoaded" cb s.
Proof.
  intros Hr Hh. unfold runWhenDOMLoaded, bind at 1, reads. rewrite Hr.
  rewrite bool_decide_false by (by intros ?).
  unfold bind, reads. by rewrite Hh.
Qed.

Lemma initFunction_loading r s :
  readyState s = Loading → hasAddEventListener s = true →
  Forall (λ x, x ∉ listeners s) (registered r) →
  initFunction (Named r) s
  = (Ok (), set_listeners (listeners s ++ registered r) s).
Proof.
  intros Hr Hh Hn.
  apply Forall_cons in Hn as [H1 Hn]. apply Forall_cons in Hn as [H2 _].
  unfold initFunction.
  rewrite (bind_ok _ _ s () (set_listeners (listeners s ++ [(Document, "DOMContentLoaded", Named r)]) s)).
  - rewrite addEventListener_new; [|done|].
    + simpl. rewrite <- app_assoc. by destruct s.
    + simpl. rewrite elem_of_app, list_elem_of_singleton.
      intros [?|?]; [done|]. simplify_eq.
  - rewrite runWhenDOMLoaded_loading by done. by apply addEventListener_new.
Qed.

(** X3.  Loaded while the document is loading, where no listener is
    registered yet, the script calls no routine: it empties [pageElements]
    and registers every routine, in script order, for [DOMContentLoaded]
    and for [turbolinks:load], and changes nothing else.  A dispatch of
    either event then calls the six routines, each once, in script order,
    whatever any of them does: the cells are collected before the routines
    that read them run. *)
Theorem script_while_loading (s : State) :
  readyState s = Loading → hasAddEventListener s = true → listeners s = [] →
  script s
  = (Ok (), set_listeners (concat (map registered script_order))
                          (set_pageElements ∅ s))
  ∧ calls (dispatchEvent Document "DOMContentLoaded" None (exec script s))
    = calls s ++ map Named script_order
  ∧ calls (dispatchEvent Document "turbolinks:load" None (exec script s))
    = calls s ++ map Named script_order.
Proof.
  intros Hr Hh Hl.
  assert (script s
          = (Ok (), set_listeners (concat (map registered script_order))
                                  (set_pageElements ∅ s))) as Hs.
  { unfold script. unfold bind at 1, writes.
    set (s0 := set_pageElements ∅ s).
    assert (listeners s0 = []) as Hl0 by done.
    do 5 (erewrite bind_ok;
          [|apply initFunction_loading;
            [exact Hr | exact Hh | simpl; rewrite ?Hl0, ?Hl;
              apply (bool_decide_unpack _); vm_compute; exact I]]).
    rewrite initFunction_loading;
      [|exact Hr | exact Hh | simpl; rewrite ?Hl0, ?Hl;
              apply (bool_decide_unpack _); vm_compute; exact I].
    simpl. rewrite Hl. by destruct s. }
  split; [done|]. unfold exec. rewrite Hs. cbn [snd].
  split; rewrite calls_dispatchEvent; reflexivity.
Qed.

Lemma script_while_loading_witness :
  script loading_state
  = (Ok (), set_listeners (concat (map registered script_order))
                          (set_pageElements ∅ loading_state))
  ∧ calls (dispatchEvent Document "DOMContentLoaded" None
             (exec script loading_state))
    = calls loading_state ++ map Named script_order
  ∧ calls (dispatchEvent Document "turbolinks:load" None
             (exec script loading_state))
    = calls loading_state ++ map Named script_order.
Proof. apply (script_while_loading loading_state); reflexivity. Defined.

Lemma run_keeps_hasAddEventListener cb target :
  respects (keeps hasAddEventListener) (run cb target).
Proof. destruct cb as [[]| | | | |]; keeps_walk. Qed.

Lemma addEventListener_missing t ev cb s :
  hasAddEventListener s = false →
  addEventListener t ev cb s = (Throw TypeError, s).
Proof. intros Hh. unfold addEventListener, bind, reads. by rewrite Hh. Qed.

(** X4.  Where the document has no [addEventListener], no registration
    with [initFunction] returns: what [runWhenDOMLoaded] falls back to does
    not help the registration for [turbolinks:load], which throws.  The
    script, loaded while the document is loading, ends at its first
    registration: [findCodeCells] is attached for [onreadystatechange] and
    no other routine is registered at all. *)
Theorem script_without_addEventListener (s : State) :
  hasAddEventListener s = false →
  (∀ cb, ∃ e, outcome (initFunction cb) s = Throw e)
  ∧ (readyState s = Loading →
     script s
     = (Throw TypeError,
        set_attached
          (attached s ++ [("onreadystatechange", Named FindCodeCells)])
          (set_pageElements ∅ s))).
Proof.
  intros Hh. split.
  - intros cb. unfold outcome, initFunction.
    destruct (runWhenDOMLoaded cb s) as [[[]|e] s1] eqn:Hrun.
    2:{ exists e. by rewrite (bind_throw _ _ _ _ _ Hrun). }
    exists TypeError. rewrite (bind_ok _ _ _ _ _ Hrun).
    rewrite addEventListener_missing; [done|].
    unfold runWhenDOMLoaded, bind at 1, reads in Hrun.
    case_bool_decide as Hr.
    + unfold call, bind at 1, writes in Hrun.
      pose proof (run_keeps_hasAddEventListener cb None
                    (set_calls (calls s ++ [cb]) s)) as Hk.
      unfold keeps, exec in Hk. rewrite Hrun in Hk. cbn [snd] in Hk.
      by rewrite Hk.
    + unfold bind, reads in Hrun. rewrite Hh in Hrun.
      unfold attachEvent, writes in Hrun. by simplify_eq.
  - intros Hr. unfold script. unfold bind at 1, writes.
    assert (initFunction (Named FindCodeCells) (set_pageElements ∅ s)
            = (Throw TypeError,
               set_attached
                 (attached s ++ [("onreadystatechange", Named FindCodeCells)])
                 (set_pageElements ∅ s))) as Hi.
    { unfold initFunction, runWhenDOMLoaded, bind at 1, bind at 1, reads.
      cbn [readyState set_pageElements]. rewrite Hr.
      rewrite bool_decide_false by (by intros ?).
      unfold bind at 1, reads.
      change (hasAddEventListener (set_pageElements ∅ s))
        with (hasAddEventListener s). rewrite Hh.
      unfold attachEvent, writes. by rewrite addEventListener_missing. }
    by rewrite (bind_throw _ _ _ _ _ Hi).
Qed.

Lemma script_without_addEventListener_witness :
  (∃ e, outcome (initFunction (Named InitToc)) legacy_state = Throw e)
  ∧ script legacy_state
    = (Throw TypeError,
       set_attached
         (attached legacy_state
          ++ [("onreadystatechange", Named FindCodeCells)])
         (set_pageElements ∅ legacy_state)).
Proof.
  split.
  - apply (proj1 (script_without_addEventListener legacy_state eq_refl)).
  - apply (proj2 (script_without_addEventListener legacy_state eq_refl)).
    reflexivity.
Defined.

(** ** The tooltip, set and restored *)

Lemma tmap_fix g t : (∀ e, e ∈ elems t → g e = e) → tmap g t = t.
Proof.
  induction t as [e ks IH] using Node_ind'. intros Hg. simpl.
  rewrite Hg by (simpl; left). f_equal.
  assert (∀ k, k ∈ ks → ∀ x, x ∈ elems k → g x = x) as Hks.
  { intros k Hk x Hx. apply Hg. simpl. right.
    apply elem_of_concat. exists (elems k). split; [|done].
    by apply list_elem_of_fmap_2. }
  clear Hg. induction IH as [|a r Ha _ IHr]; simpl; [done|].
  rewrite Ha by (apply Hks; left).
  rewrite IHr; [done|]. intros k Hk. apply Hks. by right.
Qed.

Lemma with_attr_back k v w e :
  attrs e !! k = Some v → with_attr k v (with_attr k w e) = e.
Proof.
  intros H. destruct e as [n t c a ch]. unfold with_attr. simpl in *.
  f_equal. by rewrite insert_insert_eq, insert_id.
Qed.

(** A restore callback, called on an element of the document, writes the
    text of the value it holds. *)
Lemma restore_invoke el o s e :
  find_elem el (document s) = Some e →
  invoke (RestoreTooltip el o) None s
  = set_document
      (update el (with_attr "data-tooltip" (js_string o)) (document s))
      (set_calls (calls s ++ [RestoreTooltip el o]) s).
Proof.
  intros He. unfold invoke, exec, call, bind at 1, writes.
  cbn [run]. unfold setAttribute.
  by rewrite (modify_ok _ _ _ e).
Qed.

(** X5.  For an element that has a [data-tooltip], the call shows the new
    text and sets one timer of 2000 ms; when that timer fires the document
    is again exactly as it was before the call. *)
Theorem tooltip_restored (el : nat) (newText : string) (s : State) (v : string) :
  wf (document s) → attr_of el "data-tooltip" (document s) = Some v →
  let s1 := exec (temporarilyChangeTooltip el newText) s in
  outcome (temporarilyChangeTooltip el newText) s = Ok ()
  ∧ attr_of el "data-tooltip" (document s1) = Some newText
  ∧ timers s1 = timers s ++ [(RestoreTooltip el (Some v), 2000)]
  ∧ document (fireTimer (length (timers s)) s1) = document s.
Proof.
  intros Hwf Hv s1. unfold attr_of in Hv.
  destruct (find_elem el (document s)) as [e|] eqn:He; [|done].
  simpl in Hv. unfold s1, outcome, exec.
  rewrite (temporarilyChangeTooltip_ok _ _ _ _ He), Hv. cbn [fst snd].
  split; [done|]. split; [by eapply attr_of_set|]. split; [done|].
  set (s0 := set_document _ s).
  change (timers s) with (timers s0). rewrite fireTimer_last.
  rewrite (restore_invoke _ _ _ (with_attr "data-tooltip" newText e)).
  2:{ apply find_elem_update_same; auto with dom. }
  simpl. rewrite !update_tmap, tmap_compose. apply tmap_fix.
  intros x Hx. unfold compose, upd.
  destruct (decide (nid x = el)) as [Hn|Hn].
  2:{ rewrite (bool_decide_false (nid x = el)) by done.
      by rewrite bool_decide_false. }
  rewrite (bool_decide_true (nid x = el)) by done.
  rewrite bool_decide_true by done.
  apply with_attr_back.
  apply (find_elem_wf _ _ Hwf) in Hx. rewrite Hn, He in Hx. by simplify_eq.
Qed.

Lemma tooltip_restored_witness :
  let s := exec addCopyButtonToCodeCells (exec findCodeCells sample_state) in
  let s1 := exec (temporarilyChangeTooltip 37 "Copied!") s in
  outcome (temporarilyChangeTooltip 37 "Copied!") s = Ok ()
  ∧ attr_of 37 "data-tooltip" (document s1) = Some "Copied!"
  ∧ timers s1 = timers s ++ [(RestoreTooltip 37 (Some "Copy"), 2000)]
  ∧ document (fireTimer (length (timers s)) s1) = document s.
Proof.
  intros s. apply (tooltip_restored 37 "Copied!" s "Copy").
  - apply (bool_decide_unpack (wf _)). vm_compute. exact I.
  - by vm_compute.
Defined.

Lemma fireTimer_first l a b s :
  timers s = l ++ a :: b →
  fireTimer (length l) s = invoke a.1 None (set_timers (l ++ b) s).
Proof.
  intros Ht. unfold fireTimer. rewrite Ht.
  rewrite lookup_app_r, Nat.sub_diag by lia. simpl. destruct a as [cb ms].
  simpl. do 2 f_equal. clear Ht.
  induction l as [|x l IH]; simpl; [done|]. by rewrite IH.
Qed.

(** X6.  Two calls on the same element before the first timer has fired do
    not restore the tooltip: the second call reads the text the first one
    has set, and once both timers have fired, in the order they were set,
    the element shows the text of the first call, not what it showed
    before. *)
Theorem tooltip_overlap (el : nat) (text1 text2 : string) (s : State) (v : string) :
  attr_of el "data-tooltip" (document s) = Some v →
  let n := length (timers s) in
  let s2 := exec (temporarilyChangeTooltip el text2)
                 (exec (temporarilyChangeTooltip el text1) s) in
  timers s2 = timers s ++ [(RestoreTooltip el (Some v), 2000);
                           (RestoreTooltip el (Some text1), 2000)]
  ∧ attr_of el "data-tooltip" (document (fireTimer n s2)) = Some v
  ∧ attr_of el "data-tooltip" (document (fireTimer n (fireTimer n s2)))
    = Some text1.
Proof.
  intros Hv n s2. unfold attr_of in Hv.
  destruct (find_elem el (document s)) as [e|] eqn:He; [|done].
  simpl in Hv.
  assert (Hk : keeps_nid (with_attr "data-tooltip" text1)) by auto with dom.
  pose proof (find_elem_update_same el _ _ e Hk He) as He1.
  assert (Hk2 : keeps_nid (with_attr "data-tooltip" text2)) by auto with dom.
  pose proof (find_elem_update_same el _ _ _ Hk2 He1) as He2.
  set (d1 := update el (with_attr "data-tooltip" text1) (document s)) in *.
  set (d2 := update el (with_attr "data-tooltip" text2) d1) in *.
  assert (s2 = set_timers
                 (timers s ++ [(RestoreTooltip el (Some v), 2000);
                               (RestoreTooltip el (Some text1), 2000)])
                 (set_document d2 s)) as Hs2.
  { unfold s2, exec. rewrite (temporarilyChangeTooltip_ok _ _ _ _ He).
    cbn [snd]. erewrite temporarilyChangeTooltip_ok by exact He1.
    cbn [snd]. simpl. rewrite Hv, lookup_insert_eq, <- app_assoc. simpl.
    by destruct s. }
  split; [by rewrite Hs2|].
  rewrite Hs2.
  erewrite (fireTimer_first (timers s)) by reflexivity. simpl.
  erewrite restore_invoke by exact He2. simpl.
  split; [by eapply attr_of_set|].
  set (d3 := update el (with_attr "data-tooltip" v) d2).
  assert (Hk3 : keeps_nid (with_attr "data-tooltip" v)) by auto with dom.
  pose proof (find_elem_update_same el _ _ _ Hk3 He2) as He3.
  erewrite (fireTimer_first (timers s) _ []) by reflexivity. simpl.
  erewrite restore_invoke by exact He3. simpl.
  by eapply attr_of_set.
Qed.

Lemma tooltip_overlap_witness :
  let s := exec addCopyButtonToCodeCells (exec findCodeCells sample_state) in
  let s2 := exec (temporarilyChangeTooltip 37 "Copied!")
                 (exec (temporarilyChangeTooltip 37 "Copied!") s) in
  timers s2 = timers s ++ [(RestoreTooltip 37 (Some "Copy"), 2000);
                           (RestoreTooltip 37 (Some "Copied!"), 2000)]
  ∧ attr_of 37 "data-tooltip"
      (document (fireTimer (length (timers s)) s2)) = Some "Copy"
  ∧ attr_of 37 "data-tooltip"
      (document (fireTimer (length (timers s))
                   (fireTimer (length (timers s)) s2)))
    = Some "Copied!".
Proof.
  intros s. apply (tooltip_overlap 37 "Copied!" "Copied!" s "Copy").
  by vm_compute.
Defined.

(** ** Showing and hiding a cell *)

Lemma setCodeCellVisibility_get inputField kind s e :
  find_elem inputField (document s) = Some e →
  css_identifier (js_string (attrs e !! "data-id")) = true →
  setCodeCellVisibility inputField kind s
  = (let found := head (select (highlightOf (js_string (attrs e !! "data-id")))
                               (document s)) in
     if bool_decide (kind = "visible") then
       codeCell <- deref found ;;
       classList_remove codeCell "hidden" ;;
       set_checked inputField true
     else
       codeCell <- deref found ;;
       classList_add codeCell "hidden" ;;
       set_checked inputField false) s.
Proof.
  intros He Hid. unfold setCodeCellVisibility.
  rewrite (bind_ok _ _ _ _ _ (getAttribute_ok _ _ _ _ He)).
  by rewrite (bind_ok _ _ _ _ _ (querySelector_id_ok _ _ _ Hid)).
Qed.

(** [setCodeCellVisibility(inputField, 'visible')], when its elements are
    there. *)
Lemma setCodeCellVisibility_visible inputField s e h eh :
  find_elem inputField (document s) = Some e →
  css_identifier (js_string (attrs e !! "data-id")) = true →
  head (select (highlightOf (js_string (attrs e !! "data-id"))) (document s))
  = Some h →
  find_elem h (document s) = Some eh →
  setCodeCellVisibility inputField "visible" s
  = (Ok (),
     set_document
       (update inputField (with_checked true)
          (update h (without_class "hidden") (document s))) s).
Proof.
  intros He Hid Hh Heh. rewrite (setCodeCellVisibility_get _ _ _ _ He Hid).
  cbv zeta. rewrite Hh, bool_decide_true by done.
  simpl deref. rewrite bind_ret. unfold classList_remove.
  rewrite (bind_ok _ _ _ _ _ (modify_ok _ _ _ _ Heh)).
  unfold set_checked. erewrite modify_ok; [done|]. simpl.
  rewrite find_elem_update, He by auto with dom. done.
Qed.

(** X7.  A checkbox whose [data-id] is an identifier that leads to no
    [div.highlight] (a checkbox without [data-id] looks below the element
    of id [null]) makes [setCodeCellVisibility] throw a TypeError before
    anything is changed.  When such a checkbox is the first input below a
    tagged [div], [initHiddenCells] adds no button and throws likewise. *)
Theorem setCodeCellVisibility_no_target (inputField : nat) (s : State) (e : Elem) :
  find_elem inputField (document s) = Some e →
  css_identifier (js_string (attrs e !! "data-id")) = true →
  select (highlightOf (js_string (attrs e !! "data-id"))) (document s) = [] →
  (∀ kind, setCodeCellVisibility inputField kind s = (Throw TypeError, s))
  ∧ (head (select hiddenInputs (document s)) = Some inputField →
     initHiddenCells s = (Throw TypeError, s)).
Proof.
  intros He Hid Hsel.
  assert (∀ kind, setCodeCellVisibility inputField kind s = (Throw TypeError, s))
    as Hset.
  { intros kind. rewrite (setCodeCellVisibility_get _ _ _ _ He Hid).
    cbv zeta. rewrite Hsel. by case_bool_decide. }
  split; [done|]. intros Hhead.
  assert (guarded (document s)) as Hg.
  { unfold guarded. intros Hnil. by rewrite Hnil in Hhead. }
  unfold initHiddenCells.
  rewrite (bind_ok _ _ _ _ _ (addHideButton_guarded _ Hg)).
  unfold querySelectorAll. rewrite bind_reads.
  destruct (select hiddenInputs (document s)) as [|x r]; [done|].
  simpl in Hhead. simplify_eq. simpl.
  by rewrite (bind_throw _ _ _ _ _ (bind_throw _ _ _ _ _ (Hset "hidden"))).
Qed.

Lemma setCodeCellVisibility_no_target_witness :
  let s := exec findInputCells plain_widget_state in
  (∀ kind, setCodeCellVisibility 18 kind s = (Throw TypeError, s))
  ∧ initHiddenCells s = (Throw TypeError, s).
Proof.
  intros s.
  assert (find_elem 18 (document s)
          = Some (el 18 "input" [] [("type", "checkbox")])) as He
    by (by vm_compute).
  destruct (setCodeCellVisibility_no_target 18 s _ He) as [H1 H2].
  - reflexivity.
  - by vm_compute.
  - split; [exact H1|]. apply H2. by vm_compute.
Defined.

Lemma without_with_class c e :
  c ∉ classes e → without_class c (with_class c e) = e.
Proof.
  intros Hc. destruct e as [n t cs a ch]. unfold without_class, with_class.
  simpl in *. f_equal. rewrite bool_decide_false by done.
  rewrite filter_app, filter_cons, decide_False by (by intros ?).
  rewrite filter_nil, app_nil_r.
  induction cs as [|x cs IH]; [done|].
  apply not_elem_of_cons in Hc as [Hne Hc].
  rewrite filter_cons, decide_True by done. by rewrite IH.
Qed.

Lemma hide_show_elem b b' x :
  "hidden" ∉ classes x →
  with_checked b'
    (without_class "hidden" (with_checked b (with_class "hidden" x)))
  = with_checked b' x.
Proof.
  intros Hc.
  change (with_checked b' (with_checked b
            (without_class "hidden" (with_class "hidden" x)))
          = with_checked b' x).
  by rewrite without_with_class.
Qed.

(** X8.  Showing undoes hiding: for a checked checkbox whose [data-id] is
    an identifier and whose cell is not hidden, hiding the cell and then
    showing it leaves the page exactly as it was. *)
Theorem show_undoes_hide (inputField : nat) (s : State) (e : Elem)
    (h : nat) (eh : Elem) :
  wf (document s) →
  find_elem inputField (document s) = Some e →
  css_identifier (js_string (attrs e !! "data-id")) = true →
  head (select (highlightOf (js_string (attrs e !! "data-id"))) (document s))
  = Some h →
  find_elem h (document s) = Some eh →
  "hidden" ∉ classes eh → checked e = true →
  (setCodeCellVisibility inputField "hidden" ;;
   setCodeCellVisibility inputField "visible") s = (Ok (), s).
Proof.
  intros Hwf He Hid Hh Heh Hcls Hchk.
  pose proof (setCodeCellVisibility_hidden inputField s) as Hhide.
  rewrite He, Hid, Hh, Heh in Hhide.
  rewrite (bind_ok _ _ _ _ _ Hhide).
  set (g := upd inputField (with_checked false) ∘ upd h (with_class "hidden")).
  assert (restyles g) as Hg.
  { apply restyles_compose; apply restyles_upd;
      [apply restyles_with_class | apply restyles_with_checked]. }
  assert (update inputField (with_checked false)
            (update h (with_class "hidden") (document s))
          = tmap g (document s)) as Hd.
  { by rewrite !update_tmap, tmap_compose. }
  rewrite Hd.
  assert (∀ x, nid (g x) = nid x) as Hgn by (intros x; apply Hg).
  erewrite (setCodeCellVisibility_visible inputField _ (g e) h (g eh)).
  - simpl. rewrite !update_tmap, !tmap_compose.
    rewrite tmap_fix; [by destruct s|].
    intros x Hx. apply (find_elem_wf _ _ Hwf) in Hx.
    unfold g, compose, upd. simpl.
    destruct (decide (nid x = h)) as [Hxh|Hxh];
      destruct (decide (nid x = inputField)) as [Hxi|Hxi];
      repeat first
        [ rewrite (bool_decide_true (nid x = h)) by done
        | rewrite (bool_decide_false (nid x = h)) by done
        | rewrite (bool_decide_true (nid x = inputField)) by done
        | rewrite (bool_decide_false (nid x = inputField)) by done
        | progress simpl ].
    + assert (x = eh) as -> by (rewrite Hxh, Heh in Hx; congruence).
      assert (eh = e) as -> by (rewrite <- Hxh, Hxi, He in Heh; congruence).
      rewrite hide_show_elem by done. destruct e. simpl in *. by subst.
    + assert (x = eh) as -> by (rewrite Hxh, Heh in Hx; congruence).
      by apply without_with_class.
    + assert (x = e) as -> by (rewrite Hxi, He in Hx; congruence).
      destruct e. simpl in *. by subst.
    + done.
  - simpl. by rewrite find_elem_tmap, He.
  - by destruct (Hg e) as (_ & _ & -> & _).
  - simpl. destruct (Hg e) as (_ & _ & -> & _).
    by rewrite (select_restyle g _ _ Hg (highlightOf_plain _)).
  - simpl. by rewrite find_elem_tmap, Heh.
Qed.

Lemma show_undoes_hide_witness :
  let s := exec (setCodeCellVisibility 37 "visible")
             (exec initHiddenCells (exec findInputCells sample_state)) in
  (setCodeCellVisibility 37 "hidden" ;;
   setCodeCellVisibility 37 "visible") s = (Ok (), s).
Proof.
  intros s.
  apply (show_undoes_hide 37 s
           (with_checked true
              (el 37 "input" ["hidebtn"]
                  [("type", "checkbox"); ("id", "hidebtninputcell0");
                   ("data-id", "inputcell0")]))
           15 (el 15 "div" ["highlight"] [])).
  - apply (bool_decide_unpack (wf _)). vm_compute. exact I.
  - by vm_compute.
  - reflexivity.
  - by vm_compute.
  - by vm_compute.
  - apply (bool_decide_unpack _). vm_compute. exact I.
  - reflexivity.
Defined.

(** ** A click on the toggle *)

Lemma tagName_ok n s e :
  find_elem n (document s) = Some e → tagName n s = (Ok (uppercase (tag e)), s).
Proof.
  intros He. unfold tagName. by rewrite (bind_ok _ _ _ _ _ (the_elem_ok _ _ _ He)).
Qed.

Lemma previousElementSibling_ok n s e :
  find_elem n (document s) = Some e →
  previousElementSibling n s
  = (Ok (nid <$> previous_sibling n (document s)), s).
Proof.
  intros He. unfold previousElementSibling.
  by rewrite (bind_ok _ _ _ _ _ (the_elem_ok _ _ _ He)).
Qed.

Lemma parentElement_ok n s e :
  find_elem n (document s) = Some e →
  parentElement n s = (Ok (nid <$> parent_of n (document s)), s).
Proof.
  intros He. unfold parentElement.
  by rewrite (bind_ok _ _ _ _ _ (the_elem_ok _ _ _ He)).
Qed.

(** The handler, once it has found the checkbox. *)
Lemma toggle_on_label lab s el :
  find_elem lab (document s) = Some el → tag el = "label" →
  toggleCodeCellVisibility lab s
  = (inputField <- deref (nid <$> previous_sibling lab (document s)) ;;
     c <- get_checked inputField ;;
     if c : bool then setCodeCellVisibility inputField "visible"
     else setCodeCellVisibility inputField "hidden") s.
Proof.
  intros He Ht. unfold toggleCodeCellVisibility.
  rewrite (bind_ok _ _ _ _ _ (tagName_ok _ _ _ He)), Ht.
  rewrite bool_decide_true by done.
  by rewrite (bind_ok _ _ _ _ _ (previousElementSibling_ok _ _ _ He)).
Qed.

(** X9.  A click that lands on an element inside the label (one of its two
    spans) does what a click on the label itself does. *)
Theorem toggle_from_inside_label (sp lab : nat) (s : State) (es el : Elem) :
  find_elem sp (document s) = Some es → uppercase (tag es) ≠ "LABEL" →
  (nid <$> parent_of sp (document s)) = Some lab →
  find_elem lab (document s) = Some el → tag el = "label" →
  toggleCodeCellVisibility sp s = toggleCodeCellVisibility lab s.
Proof.
  intros Hes Hts Hpar Hel Htl.
  rewrite (toggle_on_label _ _ _ Hel Htl).
  unfold toggleCodeCellVisibility.
  rewrite (bind_ok _ _ _ _ _ (tagName_ok _ _ _ Hes)).
  rewrite bool_decide_false by done.
  rewrite (bind_ok _ _ _ (nid <$> previous_sibling lab (document s)) s).
  - done.
  - rewrite (bind_ok _ _ _ _ _ (parentElement_ok _ _ _ Hes)), Hpar.
    simpl deref. rewrite bind_ret.
    by apply previousElementSibling_ok with el.
Qed.

Lemma toggle_from_inside_label_witness :
  let s := exec initHiddenCells (exec findInputCells sample_state) in
  toggleCodeCellVisibility 39 s = toggleCodeCellVisibility 38 s.
Proof.
  intros s.
  apply (toggle_from_inside_label 39 38 s
           (el 39 "span" ["pm_h"] [])
           (el 38 "label" ["plusminus"]
               [("title", "Toggle cell"); ("for", "hidebtninputcell0")])).
  - by vm_compute.
  - by vm_compute.
  - by vm_compute.
  - by vm_compute.
  - reflexivity.
Defined.

Lemma classes_upd_checked n b x : classes (upd n (with_checked b) x) = classes x.
Proof. unfold upd. by case_bool_decide. Qed.

Lemma get_checked_ok n s e :
  find_elem n (document s) = Some e → get_checked n s = (Ok (checked e), s).
Proof.
  intros He. unfold get_checked.
  by rewrite (bind_ok _ _ _ _ _ (the_elem_ok _ _ _ He)).
Qed.

(** X10.  The handler [toggleCodeCellVisibility] alone, called with the
    label of a hide button as the target of the event, reads the [checked]
    property of the checkbox before the label as it finds it (whatever the
    browser did to the checkbox before calling the handler is not part of
    this statement).  When the [data-id] of that checkbox is an identifier
    and leads to a [div.highlight], the handler returns, that element is
    shown when the property is [true] and hidden when it is [false], the
    property is left as it was found, and every other element is as it
    was. *)
Theorem toggle_follows_checkbox (lab : nat) (s : State) (el : Elem)
    (i : nat) (inp : Elem) (h : nat) :
  find_elem lab (document s) = Some el → tag el = "label" →
  (nid <$> previous_sibling lab (document s)) = Some i →
  find_elem i (document s) = Some inp →
  css_identifier (js_string (attrs inp !! "data-id")) = true →
  head (select (highlightOf (js_string (attrs inp !! "data-id"))) (document s))
  = Some h →
  let s' := exec (toggleCodeCellVisibility lab) s in
  outcome (toggleCodeCellVisibility lab) s = Ok ()
  ∧ (checked <$> find_elem i (document s')) = Some (checked inp)
  ∧ (∃ eh, find_elem h (document s') = Some eh
           ∧ ("hidden" ∈ classes eh ↔ checked inp = false))
  ∧ (∀ c, c ≠ i → c ≠ h →
          find_elem c (document s') = find_elem c (document s)).
Proof.
  intros Hel Htl Hprev Hinp Hid Hh s'.
  destruct (find_elem_Some h (document s)) as [eh Heh].
  { eapply select_nids. by apply head_Some_elem_of. }
  assert (toggleCodeCellVisibility lab s
          = (Ok (),
             set_document
               (update i (with_checked (checked inp))
                  (update h (if checked inp then without_class "hidden"
                             else with_class "hidden") (document s))) s))
    as Hrun.
  { rewrite (toggle_on_label _ _ _ Hel Htl), Hprev. simpl deref.
    rewrite bind_ret, (bind_ok _ _ _ _ _ (get_checked_ok _ _ _ Hinp)).
    destruct (checked inp).
    - by apply setCodeCellVisibility_visible with inp eh.
    - pose proof (setCodeCellVisibility_hidden i s) as Hhide.
      by rewrite Hinp, Hid, Hh, Heh in Hhide. }
  assert (keeps_nid (if checked inp then without_class "hidden"
                     else with_class "hidden")) as Hk
    by (destruct (checked inp); auto with dom).
  unfold s', outcome, exec. rewrite Hrun. cbn [fst snd]. simpl.
  split; [done|]. split; [|split].
  - rewrite find_elem_update by auto with dom.
    rewrite find_elem_update, Hinp by done. simpl.
    unfold upd at 1. rewrite bool_decide_true; [done|].
    rewrite upd_nid by done. by eapply find_elem_nid.
  - rewrite find_elem_update by auto with dom.
    rewrite (find_elem_update_same _ _ _ eh) by done. simpl.
    eexists. split; [done|]. rewrite classes_upd_checked.
    destruct (checked inp); simpl.
    + split; [|done]. intros Hin. by apply list_elem_of_filter in Hin as [? _].
    + split; [done|]. intros _. case_bool_decide; [done|].
      apply elem_of_app. right. left.
  - intros c Hci Hch. rewrite find_elem_update_other by auto with dom.
    by rewrite find_elem_update_other.
Qed.

Lemma toggle_follows_checkbox_witness :
  let s := exec initHiddenCells (exec findInputCells sample_state) in
  let s' := exec (toggleCodeCellVisibility 38) s in
  outcome (toggleCodeCellVisibility 38) s = Ok ()
  ∧ (checked <$> find_elem 37 (document s')) = Some true
  ∧ (∃ eh, find_elem 15 (document s') = Some eh
           ∧ ("hidden" ∈ classes eh ↔ true = false))
  ∧ (∀ c, c ≠ 37 → c ≠ 15 →
          find_elem c (document s') = find_elem c (document s)).
Proof.
  intros s.
  apply (toggle_follows_checkbox 38 s
           (el 38 "label" ["plusminus"]
               [("title", "Toggle cell"); ("for", "hidebtninputcell0")])
           37
           (with_checked true
              (el 37 "input" ["hidebtn"]
                  [("type", "checkbox"); ("id", "hidebtninputcell0");
                   ("data-id", "inputcell0")]))
           15).
  - by vm_compute.
  - reflexivity.
  - by vm_compute.
  - by vm_compute.
  - reflexivity.
  - by vm_compute.
Defined.

(** ** Changes that no class or tag selector sees *)

Lemma tmap_ext g1 g2 t : (∀ e, g1 e = g2 e) → tmap g1 t = tmap g2 t.
Proof.
  intros Hg. induction t as [e ks IH] using Node_ind'. simpl.
  rewrite Hg. f_equal.
  induction IH as [|a r Ha _ IHr]; simpl; [done|]. by rewrite Ha, IHr.
Qed.

Lemma match_simple_relabel g s e :
  relabels g → simple_plain s = true →
  match_simple s (g e) = match_simple s e.
Proof.
  intros Hg Hs. destruct (Hg e) as (Hn & Ht & Hc).
  destruct s as [t|c|i]; simpl in *; [by rewrite Ht | by rewrite Hc | done].
Qed.

Lemma match_compound_relabel g c e :
  relabels g → forallb simple_plain c = true →
  match_compound c (g e) = match_compound c e.
Proof.
  intros Hg. unfold match_compound.
  induction c as [|s c IH]; simpl; [done|].
  intros [Hs Hc]%andb_true_iff.
  by rewrite match_simple_relabel, IH.
Qed.

Lemma match_complex_relabel g s p :
  relabels g → complex_plain s = true →
  match_complex s (map_path g p) = match_complex s p.
Proof.
  intros Hg. revert p. induction s as [c|l IH k c]; intros p Hs; simpl in *.
  - destruct p as [|[e ps] ups]; simpl; [done|].
    by apply match_compound_relabel.
  - apply andb_true_iff in Hs as [Hc Hl].
    destruct p as [|[e ps] ups]; simpl; [done|].
    rewrite match_compound_relabel by done. f_equal.
    destruct k.
    + apply some_suffix_ext. intros l'. by apply IH.
    + by apply IH.
    + destruct ps as [|pe ps']; simpl; [done|].
      by apply (IH ((pe, ps') :: ups)).
Qed.

Lemma matches_relabel g sel p :
  relabels g → selector_plain sel = true →
  matches sel (map_path g p) = matches sel p.
Proof.
  intros Hg. unfold matches, selector_plain.
  induction sel as [|s sel IH]; simpl; [done|].
  intros [Hs Hsel]%andb_true_iff.
  by rewrite match_complex_relabel, IH.
Qed.

(** A selector without an [#id] part selects the same elements after a
    change of attributes. *)
Lemma select_relabel g sel t :
  relabels g → selector_plain sel = true →
  select sel (tmap g t) = select sel t.
Proof.
  intros Hg Hs. unfold select.
  change (@nil Frame) with (map_path g []) at 1.
  change (@nil Elem) with (map g []) at 1.
  rewrite entries_tmap. generalize (entries [] [] t) as L.
  induction L as [|p L IH]; [done|].
  change (map (map_path g) (p :: L)) with (map_path g p :: map (map_path g) L).
  rewrite !filter_cons, matches_relabel by done.
  destruct (decide (matches sel p = true)) as [Hm|Hm]; [|exact IH].
  change (omap path_nid (?a :: ?b)) with
    (match path_nid a with Some x => x :: omap path_nid b
                         | None => omap path_nid b end).
  rewrite path_nid_map by (intros e; apply Hg). by rewrite IH.
Qed.

Lemma relabels_upd_in l k v : relabels (upd_in l (with_attr k v)).
Proof. intros e. unfold upd_in. by case_bool_decide. Qed.

(** The loop that gives one attribute to every element of a list. *)
Lemma set_attr_loop k v (l : list nat) s :
  (∀ c, c ∈ l → c ∈ nids (document s)) →
  forEach l (λ c, setAttribute c k v) s
  = (Ok (), set_document (tmap (upd_in l (with_attr k v)) (document s)) s).
Proof.
  revert s. induction l as [|x l IH]; intros s Hin.
  - simpl. unfold ret. rewrite (tmap_ext _ id), tmap_id by done.
    by rewrite set_document_id.
  - destruct (find_elem_Some x (document s)) as [e He]; [apply Hin; left|].
    simpl. unfold setAttribute at 1.
    rewrite (bind_ok _ _ _ _ _ (modify_ok _ _ _ _ He)).
    rewrite IH.
    2:{ intros c Hc. simpl. rewrite nids_update by auto with dom.
        apply Hin. by right. }
    simpl. rewrite update_tmap, tmap_compose, set_document_twice.
    do 2 f_equal. apply tmap_ext. intros y. unfold compose, upd_in, upd.
    destruct (decide (nid y = x)) as [Hy|Hy].
    + rewrite (bool_decide_true (nid y = x)) by done.
      rewrite (bool_decide_true (nid y ∈ x :: l)) by (rewrite Hy; left).
      case_bool_decide; [|done].
      destruct y. unfold with_attr. simpl. f_equal. apply insert_insert_eq.
    + rewrite (bool_decide_false (nid y = x)) by done.
      rewrite (bool_decide_ext (nid y ∈ x :: l) (nid y ∈ l)); [done|].
      rewrite elem_of_cons. naive_solver.
Qed.

(** ** Anchors and the table of contents *)

Lemma attr_of_upd_in k v (links : list nat) d c :
  c ∈ links → c ∈ nids d →
  attr_of c k (tmap (upd_in links (with_attr k v)) d) = Some v.
Proof.
  intros Hc Hn. unfold attr_of.
  rewrite find_elem_tmap by (intros e; apply relabels_upd_in).
  destruct (find_elem_Some c d Hn) as [e He]. rewrite He. simpl.
  unfold upd_in. rewrite bool_decide_true.
  - simpl. apply lookup_insert_eq.
  - by rewrite (find_elem_nid _ _ _ He).
Qed.

Lemma find_elem_upd_in (links : list nat) f d c :
  keeps_nid f → c ∉ links →
  find_elem c (tmap (upd_in links f) d) = find_elem c d.
Proof.
  intros Hf Hc.
  rewrite find_elem_tmap.
  2:{ intros e. unfold upd_in. by case_bool_decide. }
  destruct (find_elem c d) as [e|] eqn:He; [|done]. simpl.
  unfold upd_in. rewrite bool_decide_false; [done|].
  by rewrite (find_elem_nid _ _ _ He).
Qed.

Lemma initAnchors_eq s add :
  anchors s = Some add →
  let d := add "main h1, main h2, main h3, main h4" (document s) in
  initAnchors s
  = (Ok (), set_document
              (tmap (upd_in (select anchorLinks d)
                            (with_attr "data-turbolinks" "false")) d) s).
Proof.
  intros Ha d. unfold initAnchors. rewrite bind_reads, Ha.
  unfold library_call at 1. unfold bind at 1, writes.
  unfold querySelectorAll. rewrite bind_reads.
  rewrite set_attr_loop; [done|].
  intros c Hc. by apply select_nids in Hc.
Qed.

(** X11.  Once [anchors] is defined, [initAnchors] lets the library add its
    links and returns; afterwards every element of the document that
    matches [.anchorjs-link] has [data-turbolinks] set to [false], and
    every other element is as the library left it. *)
Theorem initAnchors_links (s : State) (add : string → Node → Node) :
  anchors s = Some add →
  let d := add "main h1, main h2, main h3, main h4" (document s) in
  let s' := exec initAnchors s in
  outcome initAnchors s = Ok ()
  ∧ select anchorLinks (document s') = select anchorLinks d
  ∧ (∀ c, c ∈ select anchorLinks (document s') →
          attr_of c "data-turbolinks" (document s') = Some "false")
  ∧ (∀ c, c ∉ select anchorLinks (document s') →
          find_elem c (document s') = find_elem c d).
Proof.
  intros Ha d s'. unfold s', outcome, exec.
  rewrite (initAnchors_eq _ _ Ha). cbn [fst snd]. fold d. simpl.
  assert (select anchorLinks
            (tmap (upd_in (select anchorLinks d)
                          (with_attr "data-turbolinks" "false")) d)
          = select anchorLinks d) as Hsel.
  { apply select_relabel; [apply relabels_upd_in | done]. }
  rewrite Hsel. split; [done|]. split; [done|]. split.
  - intros c Hc. apply attr_of_upd_in; [done|]. by apply select_nids in Hc.
  - intros c Hc. apply find_elem_upd_in; auto with dom.
Qed.

Lemma initToc_eq s init :
  tocbot s = Some init →
  initToc s
  = match select sidebarContent (document s),
          head (select onThisPage (document s)) with
    | [], None => (Throw TypeError, s)
    | content, nav =>
        let d1 := match content, nav with
                  | [], Some n =>
                      update n (with_class "no_sidebar_content") (document s)
                  | _, _ => document s
                  end in
        let d2 := init toc_options d1 in
        (Ok (), set_document
                  (tmap (upd_in (select tocLinks d2)
                                (with_attr "data-turbolinks" "false")) d2) s)
    end.
Proof.
  intros Ht. unfold initToc. rewrite bind_reads, Ht.
  unfold querySelectorAll at 1. rewrite bind_reads.
  fold sidebarContent.
  assert (∀ d1,
    (library_call (init toc_options) ;;
     links <- querySelectorAll tocLinks ;;
     forEach links (λ it, setAttribute it "data-turbolinks" "false"))
      (set_document d1 s)
    = (Ok (), set_document
                (tmap (upd_in (select tocLinks (init toc_options d1))
                              (with_attr "data-turbolinks" "false"))
                      (init toc_options d1)) s)) as Hrest.
  { intros d1. unfold library_call. unfold bind at 1, writes.
    unfold querySelectorAll. rewrite bind_reads.
    rewrite set_attr_loop; [done|].
    intros c Hc. by apply select_nids in Hc. }
  destruct (select sidebarContent (document s)) as [|c0 cs] eqn:Hc.
  - simpl length. rewrite bool_decide_true by done.
    fold onThisPage.
    destruct (head (select onThisPage (document s))) as [n|] eqn:Hn.
    + destruct (find_elem_Some n (document s)) as [e He].
      { eapply select_nids. by apply head_Some_elem_of. }
      erewrite bind_ok; [apply Hrest|].
      unfold querySelector. rewrite bind_reads, Hn. simpl deref.
      rewrite bind_ret. unfold classList_add. by apply modify_ok with e.
    + erewrite bind_throw; [done|].
      unfold querySelector. by rewrite bind_reads, Hn.
  - simpl length. rewrite bool_decide_false by done.
    erewrite bind_ok; [|reflexivity].
    rewrite <- (set_document_id s) at 1.
    by rewrite Hrest.
Qed.

Lemma initAnchors_links_witness :
  let d := sample_anchors "main h1, main h2, main h3, main h4"
                          (document library_state) in
  let s' := exec initAnchors library_state in
  outcome initAnchors library_state = Ok ()
  ∧ select anchorLinks (document s') = select anchorLinks d
  ∧ (∀ c, c ∈ select anchorLinks (document s') →
          attr_of c "data-turbolinks" (document s') = Some "false")
  ∧ (∀ c, c ∉ select anchorLinks (document s') →
          find_elem c (document s') = find_elem c d).
Proof.
  intros d s'. apply (initAnchors_links library_state sample_anchors eq_refl).
Defined.

(** X12.  Once [tocbot] is defined: on a page with no sidebar content and
    no [nav.onthispage], [initToc] throws a TypeError before the library is
    called, and changes nothing.  Otherwise it returns: the library is
    called, with the options of the script, on the document in which the
    first [nav.onthispage] has got the class [no_sidebar_content] if the
    page has no sidebar content, and on the document as it is if the page
    has some; afterwards every element that matches [.toc-list-item a] has
    [data-turbolinks] set to [false], and every other element is as the
    library left it. *)
Theorem initToc_sidebar (s : State) (init : TocbotOptions → Node → Node) :
  tocbot s = Some init →
  let content := select sidebarContent (document s) in
  let nav := head (select onThisPage (document s)) in
  (content = [] → nav = None → initToc s = (Throw TypeError, s))
  ∧ (content ≠ [] ∨ is_Some nav →
     let d1 := match content, nav with
               | [], Some n =>
                   update n (with_class "no_sidebar_content") (document s)
               | _, _ => document s
               end in
     let d2 := init toc_options d1 in
     let s' := exec initToc s in
     outcome initToc s = Ok ()
     ∧ select tocLinks (document s') = select tocLinks d2
     ∧ (∀ c, c ∈ select tocLinks (document s') →
             attr_of c "data-turbolinks" (document s') = Some "false")
     ∧ (∀ c, c ∉ select tocLinks (document s') →
             find_elem c (document s') = find_elem c d2)).
Proof.
  intros Ht content nav. pose proof (initToc_eq s init Ht) as Heq.
  fold content nav in Heq. split.
  - intros Hc Hn. by rewrite Hc, Hn in Heq.
  - intros Hsome d1 d2 s'.
    assert (initToc s
            = (Ok (), set_document
                        (tmap (upd_in (select tocLinks d2)
                                      (with_attr "data-turbolinks" "false"))
                              d2) s)) as Hrun.
    { rewrite Heq. unfold d2, d1.
      destruct content as [|c0 cs]; [|done].
      destruct nav as [n|]; [done|]. destruct Hsome as [?|[? ?]]; done. }
    unfold s', outcome, exec. rewrite Hrun. cbn [fst snd]. simpl.
    assert (select tocLinks
              (tmap (upd_in (select tocLinks d2)
                            (with_attr "data-turbolinks" "false")) d2)
            = select tocLinks d2) as Hsel.
    { apply select_relabel; [apply relabels_upd_in | done]. }
    rewrite Hsel. split; [done|]. split; [done|]. split.
    + intros c Hc. apply attr_of_upd_in; [done|]. by apply select_nids in Hc.
    + intros c Hc. apply find_elem_upd_in; auto with dom.
Qed.

Lemma initToc_sidebar_witness :
  let d2 := sample_tocbot toc_options
              (update 3 (with_class "no_sidebar_content")
                      (document library_state)) in
  let s' := exec initToc library_state in
  outcome initToc library_state = Ok ()
  ∧ select tocLinks (document s') = select tocLinks d2
  ∧ (∀ c, c ∈ select tocLinks (document s') →
          attr_of c "data-turbolinks" (document s') = Some "false")
  ∧ (∀ c, c ∉ select tocLinks (document s') →
          find_elem c (document s') = find_elem c d2).
Proof.
  intros d2 s'.
  apply (proj2 (initToc_sidebar library_state sample_tocbot eq_refl)).
  right. exists 3. by vm_compute.
Defined.

(** ** Collecting the cells, again and in either order *)

Lemma index_of_None n l : index_of n l = None ↔ n ∉ l.
Proof.
  induction l as [|x l IH]; simpl.
  - split; [intros _ H; inversion H | done].
  - case_bool_decide as Hx.
    + split; [done|]. intros H. destruct H. subst. left.
    + rewrite fmap_None, IH, not_elem_of_cons. naive_solver.
Qed.

Lemma relabels_numbered idOf l : relabels (numbered idOf l).
Proof. intros e. unfold numbered. by destruct (index_of _ _). Qed.

Lemma numbered_nid idOf l e : nid (numbered idOf l e) = nid e.
Proof. apply relabels_numbered. Qed.

(** The loop that numbers the elements of a list, in one go. *)
Lemma number_loop (idOf : nat → string) (l : list nat) (i0 : nat) s :
  NoDup l → (∀ c, c ∈ l → c ∈ nids (document s)) →
  forEach_from i0 l (λ c j, setAttribute c "id" (idOf j)) s
  = (Ok (), set_document
              (tmap (numbered (λ j, idOf (i0 + j)) l) (document s)) s).
Proof.
  revert i0 s. induction l as [|x l IH]; intros i0 s Hnd Hin.
  - simpl. unfold ret. rewrite (tmap_ext _ id), tmap_id by done.
    by rewrite set_document_id.
  - apply NoDup_cons in Hnd as [Hx Hnd].
    destruct (find_elem_Some x (document s)) as [e He]; [apply Hin; left|].
    simpl. unfold setAttribute at 1.
    rewrite (bind_ok _ _ _ _ _ (modify_ok _ _ _ _ He)).
    rewrite IH; [|done|].
    2:{ intros c Hc. simpl. rewrite nids_update by auto with dom.
        apply Hin. by right. }
    simpl. rewrite update_tmap, tmap_compose, set_document_twice.
    do 2 f_equal. apply tmap_ext. intros y. unfold compose, numbered, upd.
    simpl. destruct (decide (nid y = x)) as [Hy|Hy].
    + rewrite (bool_decide_true (nid y = x)) by done.
      rewrite (bool_decide_true (x = nid y)) by done. simpl.
      rewrite (proj2 (index_of_None _ _)) by by rewrite Hy.
      by rewrite Nat.add_0_r.
    + rewrite (bool_decide_false (nid y = x)) by done.
      rewrite (bool_decide_false (x = nid y)) by done.
      destruct (index_of (nid y) l) as [i|]; simpl; [|done].
      by replace (i0 + S i) with (S (i0 + i)) by lia.
Qed.

(** [findCodeCells] and [findInputCells] in one go. *)
Lemma find_cells_eq (key : string) (sel : Selector) (idOf : nat → string) s :
  wf (document s) →
  (cells <- querySelectorAll sel ;;
   writes (λ s, set_pageElements (<[key := cells]> (pageElements s)) s) ;;
   forEach_from 0 cells (λ c j, setAttribute c "id" (idOf j))) s
  = (Ok (),
     set_document
       (tmap (numbered idOf (select sel (document s))) (document s))
       (set_pageElements
          (<[key := select sel (document s)]> (pageElements s)) s)).
Proof.
  intros Hwf. unfold querySelectorAll. rewrite bind_reads.
  unfold bind at 1, writes.
  rewrite number_loop.
  - done.
  - by apply select_NoDup.
  - intros c Hc. by apply select_nids in Hc.
Qed.

Lemma numbered_twice idOf l e :
  numbered idOf l (numbered idOf l e) = numbered idOf l e.
Proof.
  unfold numbered at 1. rewrite numbered_nid. unfold numbered.
  destruct (index_of (nid e) l) as [i|]; [|done].
  destruct e. unfold with_attr. simpl. f_equal. apply insert_insert_eq.
Qed.

Lemma find_cells_twice (key : string) (sel : Selector) (idOf : nat → string) s :
  wf (document s) → selector_plain sel = true →
  let m := (cells <- querySelectorAll sel ;;
            writes (λ s, set_pageElements (<[key := cells]> (pageElements s)) s) ;;
            forEach_from 0 cells (λ c j, setAttribute c "id" (idOf j))) in
  exec m (exec m s) = exec m s.
Proof.
  intros Hwf Hplain m. unfold exec, m.
  rewrite (find_cells_eq key sel idOf s Hwf). cbn [snd].
  rewrite find_cells_eq.
  2:{ simpl. unfold wf. rewrite nids_tmap; [done|]. apply numbered_nid. }
  cbn [snd]. simpl.
  rewrite (select_relabel _ _ _ (relabels_numbered _ _) Hplain).
  rewrite tmap_compose, insert_insert_eq.
  rewrite (tmap_ext _ (numbered idOf (select sel (document s)))); [done|].
  intros e. apply numbered_twice.
Qed.

(** X13.  Collecting the cells is idempotent: on a document whose element
    objects are distinct, a second run of [findCodeCells] (and of
    [findInputCells]) right after the first leaves the state of the
    first, so a revisit of the page numbers the cells as before. *)
Theorem find_cells_idempotent (s : State) :
  wf (document s) →
  exec findCodeCells (exec findCodeCells s) = exec findCodeCells s
  ∧ exec findInputCells (exec findInputCells s) = exec findInputCells s.
Proof.
  intros Hwf. split.
  - by apply (find_cells_twice "codeCells" codeCellSelector codeCellId).
  - by apply (find_cells_twice "inputCells" inputCellSelector inputCellId).
Qed.

Lemma find_cells_idempotent_witness :
  exec findCodeCells (exec findCodeCells sample_state)
  = exec findCodeCells sample_state
  ∧ exec findInputCells (exec findInputCells sample_state)
    = exec findInputCells sample_state.
Proof.
  apply (find_cells_idempotent sample_state).
  apply (bool_decide_unpack (wf _)). vm_compute. exact I.
Defined.

Lemma tmap_ext_in g1 g2 t :
  (∀ e, e ∈ elems t → g1 e = g2 e) → tmap g1 t = tmap g2 t.
Proof.
  induction t as [e ks IH] using Node_ind'. intros Hg. simpl.
  rewrite Hg by (simpl; left). f_equal.
  assert (∀ k, k ∈ ks → ∀ x, x ∈ elems k → g1 x = g2 x) as Hks.
  { intros k Hk x Hx. apply Hg. simpl. right.
    apply elem_of_concat. exists (elems k). split; [|done].
    by apply list_elem_of_fmap_2. }
  clear Hg. induction IH as [|a r Ha _ IHr]; simpl; [done|].
  rewrite Ha by (apply Hks; left).
  rewrite IHr; [done|]. intros k Hk. apply Hks. by right.
Qed.

(** The element behind a selected reference is the subject of a match. *)
Lemma select_subject sel t c e :
  wf t → c ∈ select sel t → find_elem c t = Some e →
  ∃ ps ups, matches sel ((e, ps) :: ups) = true.
Proof.
  intros Hwf Hc He.
  apply elem_of_select in Hc as (p & Hp & Hm & Hn).
  destruct p as [|[x ps] ups]; [done|]. simpl in Hn. simplify_eq.
  destruct (entries_frames _ _ _ _ (x, ps) Hp) as [Hf|Hf];
    [left | by inversion Hf |].
  simpl in Hf. rewrite (find_elem_wf _ _ Hwf Hf) in He. simplify_eq.
  by exists ps, ups.
Qed.

Lemma code_cell_is_pre t c e :
  wf t → c ∈ select codeCellSelector t → find_elem c t = Some e →
  tag e = "pre".
Proof.
  intros Hwf Hc He.
  destruct (select_subject _ _ _ _ Hwf Hc He) as (ps & ups & Hm).
  unfold matches, codeCellSelector in Hm. simpl in Hm.
  destruct (bool_decide (tag e = "pre")) eqn:Ht.
  - by apply bool_decide_eq_true in Ht.
  - by simpl in Hm.
Qed.

Lemma input_cell_is_div t c e :
  wf t → c ∈ select inputCellSelector t → find_elem c t = Some e →
  tag e = "div".
Proof.
  intros Hwf Hc He.
  destruct (select_subject _ _ _ _ Hwf Hc He) as (ps & ups & Hm).
  unfold matches, inputCellSelector in Hm. simpl in Hm.
  destruct (bool_decide (tag e = "div")) eqn:Ht.
  - by apply bool_decide_eq_true in Ht.
  - by simpl in Hm.
Qed.

Lemma index_of_elem_of n l i : index_of n l = Some i → n ∈ l.
Proof.
  intros Hi. destruct (decide (n ∈ l)) as [|Hn]; [done|].
  apply index_of_None in Hn. congruence.
Qed.

Lemma index_of_lookup l i c :
  NoDup l → l !! i = Some c → index_of c l = Some i.
Proof.
  revert i. induction l as [|x l IH]; intros i Hnd Hi; [done|].
  apply NoDup_cons in Hnd as [Hx Hnd]. destruct i as [|i]; simpl in *.
  - simplify_eq. by rewrite bool_decide_true.
  - rewrite bool_decide_false.
    + by rewrite (IH i).
    + intros ->. apply Hx. by eapply list_elem_of_lookup_2.
Qed.

Lemma findCodeCells_eq s :
  wf (document s) →
  findCodeCells s
  = (Ok (),
     set_document
       (tmap (numbered codeCellId (select codeCellSelector (document s)))
             (document s))
       (set_pageElements
          (<["codeCells" := select codeCellSelector (document s)]>
             (pageElements s)) s)).
Proof. apply (find_cells_eq "codeCells" codeCellSelector codeCellId). Qed.

Lemma findInputCells_eq s :
  wf (document s) →
  findInputCells s
  = (Ok (),
     set_document
       (tmap (numbered inputCellId (select inputCellSelector (document s)))
             (document s))
       (set_pageElements
          (<["inputCells" := select inputCellSelector (document s)]>
             (pageElements s)) s)).
Proof. apply (find_cells_eq "inputCells" inputCellSelector inputCellId). Qed.

Lemma wf_numbered idOf l t : wf t → wf (tmap (numbered idOf l) t).
Proof. unfold wf. rewrite nids_tmap; [done|]. apply numbered_nid. Qed.

(** X14.  The two routines that collect cells do not get in each other's
    way: on a document whose element objects are distinct they lead to the
    same state in either order, in which both tables are stored and every
    code cell and every input cell has the id of its position. *)
Theorem find_cells_commute (s : State) :
  wf (document s) →
  let s' := exec findInputCells (exec findCodeCells s) in
  s' = exec findCodeCells (exec findInputCells s)
  ∧ pageElements s'
    = <["inputCells" := select inputCellSelector (document s)]>
        (<["codeCells" := select codeCellSelector (document s)]>
           (pageElements s))
  ∧ (∀ i c, select codeCellSelector (document s) !! i = Some c →
            attr_of c "id" (document s') = Some (codeCellId i))
  ∧ (∀ i c, select inputCellSelector (document s) !! i = Some c →
            attr_of c "id" (document s') = Some (inputCellId i)).
Proof.
  intros Hwf s'.
  set (cc := select codeCellSelector (document s)).
  set (ci := select inputCellSelector (document s)).
  assert (s' = set_document
                 (tmap (numbered inputCellId ci ∘ numbered codeCellId cc)
                       (document s))
                 (set_pageElements
                    (<["inputCells" := ci]>
                       (<["codeCells" := cc]> (pageElements s))) s)) as Hs1.
  { unfold s', exec. rewrite (findCodeCells_eq s Hwf). cbn [snd].
    rewrite findInputCells_eq by (by apply wf_numbered). cbn [snd]. simpl.
    rewrite (select_relabel _ inputCellSelector _ (relabels_numbered _ _))
      by done.
    by rewrite tmap_compose. }
  assert (exec findCodeCells (exec findInputCells s)
          = set_document
              (tmap (numbered codeCellId cc ∘ numbered inputCellId ci)
                    (document s))
              (set_pageElements
                 (<["codeCells" := cc]>
                    (<["inputCells" := ci]> (pageElements s))) s)) as Hs2.
  { unfold exec. rewrite (findInputCells_eq s Hwf). cbn [snd].
    rewrite findCodeCells_eq by (by apply wf_numbered). cbn [snd]. simpl.
    rewrite (select_relabel _ codeCellSelector _ (relabels_numbered _ _))
      by done.
    by rewrite tmap_compose. }
  assert (∀ e, e ∈ elems (document s) →
               nid e ∈ cc → nid e ∈ ci → False) as Hdisj.
  { intros e He Hc Hi. apply (find_elem_wf _ _ Hwf) in He.
    pose proof (code_cell_is_pre _ _ _ Hwf Hc He) as Hp.
    pose proof (input_cell_is_div _ _ _ Hwf Hi He) as Hd. congruence. }
  split; [|split; [by rewrite Hs1|split]].
  - rewrite Hs1, Hs2. rewrite insert_insert_ne by done.
    f_equal. apply tmap_ext_in. intros e He. unfold compose.
    unfold numbered at 1 3. rewrite !numbered_nid.
    unfold numbered.
    destruct (index_of (nid e) cc) as [i|] eqn:Hi;
      destruct (index_of (nid e) ci) as [j|] eqn:Hj; try done.
    destruct (Hdisj e He); by eapply index_of_elem_of.
  - intros i c Hi. rewrite Hs1. simpl.
    assert (c ∈ cc) as Hc by by eapply list_elem_of_lookup_2.
    unfold attr_of. rewrite find_elem_tmap.
    2:{ intros e. unfold compose. by rewrite !numbered_nid. }
    destruct (find_elem_Some c (document s)) as [e He];
      [by eapply select_nids|].
    rewrite He. simpl. unfold compose.
    pose proof (find_elem_nid _ _ _ He) as Hn.
    assert (index_of (nid e) ci = None) as Hnone.
    { apply index_of_None. intros Hin.
      apply (Hdisj e); [by eapply find_elem_elem_of| by rewrite Hn | done]. }
    unfold numbered at 1. rewrite numbered_nid, Hnone.
    unfold numbered. rewrite Hn.
    rewrite (index_of_lookup cc i c); [apply lookup_insert_eq| |done].
    by apply select_NoDup.
  - intros i c Hi. rewrite Hs1. simpl.
    unfold attr_of. rewrite find_elem_tmap.
    2:{ intros e. unfold compose. by rewrite !numbered_nid. }
    destruct (find_elem_Some c (document s)) as [e He].
    { eapply select_nids. by eapply list_elem_of_lookup_2. }
    rewrite He. simpl. unfold compose.
    pose proof (find_elem_nid _ _ _ He) as Hn.
    unfold numbered at 1. rewrite numbered_nid, Hn.
    rewrite (index_of_lookup ci i c); [apply lookup_insert_eq| |done].
    by apply select_NoDup.
Qed.

Lemma find_cells_commute_witness :
  let s' := exec findInputCells (exec findCodeCells sample_state) in
  s' = exec findCodeCells (exec findInputCells sample_state)
  ∧ pageElements s'
    = <["inputCells" := select inputCellSelector (document sample_state)]>
        (<["codeCells" := select codeCellSelector (document sample_state)]>
           (pageElements sample_state))
  ∧ (∀ i c, select codeCellSelector (document sample_state) !! i = Some c →
            attr_of c "id" (document s') = Some (codeCellId i))
  ∧ (∀ i c, select inputCellSelector (document sample_state) !! i = Some c →
            attr_of c "id" (document s') = Some (inputCellId i)).
Proof.
  intros s'. apply (find_cells_commute sample_state).
  apply (bool_decide_unpack (wf _)). vm_compute. exact I.
Defined.

(** ** The ClipboardJS instance of a run *)

Lemma alter_last {A} (f : A → A) (l : list A) (x : A) :
  alter f (length l) (l ++ [x]) = l ++ [f x].
Proof.
  induction l as [|a l IH]; [done|].
  change (a :: alter f (length l) (l ++ [x]) = a :: l ++ [f x]).
  by rewrite IH.
Qed.

Lemma copy_loop_keeps {B} (f : State → B) (l : list nat) :
  (∀ d s, f (set_document d s) = f s) →
  respects (keeps f) (forEach l copy_step).
Proof. intros Hf. cbv beta. keeps_walk; apply Hf. Qed.

(** A run that returns has created one instance, set up its two handlers,
    and registered its destruction for the next visit. *)
Lemma addCopyButtonToCodeCells_clipboard s s1 :
  ClipboardJS s = true → addCopyButtonToCodeCells s = (Ok (), s1) →
  clipboards s1 = clipboards s ++ [copy_clipboard]
  ∧ (Document, "turbolinks:before-visit",
     DestroyClipboard (length (clipboards s))) ∈ listeners s1
  ∧ hasGetSelection s1 = hasGetSelection s
  ∧ hasDocumentSelection s1 = hasDocumentSelection s
  ∧ timers s1 = timers s ∧ selection s1 = selection s.
Proof.
  intros Hcj Hrun.
  unfold addCopyButtonToCodeCells in Hrun. rewrite bind_reads, Hcj in Hrun.
  simpl negb in Hrun. cbv iota in Hrun.
  apply bind_inv_ok in Hrun as (l & s0 & Hpe & Hrun).
  assert (s0 = s) as ->.
  { destruct (pageElements s !! "codeCells") as [l'|] eqn:Hl.
    - rewrite (pageElement_ok _ _ _ Hl) in Hpe. by simplify_eq.
    - rewrite (pageElement_none _ _ Hl) in Hpe. by simplify_eq. }
  apply bind_inv_ok in Hrun as ([] & sa & Hloop & Hrun).
  assert (∀ {B} (f : State → B), (∀ d s, f (set_document d s) = f s) →
            f sa = f s) as Hkeep.
  { intros B f Hf. change sa with ((Ok (), sa).2). rewrite <- Hloop.
    by apply (copy_loop_keeps f l). }
  unfold new_ClipboardJS, bind at 1 in Hrun.
  unfold clipboard_on at 1, bind at 1, writes in Hrun. simpl in Hrun.
  unfold clipboard_on at 1, bind at 1, writes in Hrun. simpl in Hrun.
  rewrite !alter_last in Hrun. simpl in Hrun.
  unfold addEventListener, bind, reads, writes in Hrun. simpl in Hrun.
  destruct (hasAddEventListener sa); [|done].
  rewrite (Hkeep _ clipboards) in Hrun by done.
  case_bool_decide as Hin; simplify_eq/=;
    rewrite (Hkeep _ hasGetSelection), (Hkeep _ hasDocumentSelection),
      (Hkeep _ timers), (Hkeep _ selection) by done.
  - done.
  - split; [done|]. split; [|done]. apply elem_of_app. right. left.
Qed.

Lemma clearSelection_eq s :
  clearSelection s
  = (Ok (), if hasGetSelection s || hasDocumentSelection s
            then set_selection false s else s).
Proof.
  unfold clearSelection, bind, reads, writes.
  destruct (hasGetSelection s); [done|]. by destruct (hasDocumentSelection s).
Qed.

(** What a report of the instance [c] does, given its handlers. *)
Lemma clipboardEmit_eq c name trigger s x :
  clipboards s !! c = Some x → cj_destroyed x = false →
  clipboardEmit c name trigger s
  = foldl (λ s cb, invoke cb (Some trigger) s) s
          (omap (λ h : string * Callback,
                   if bool_decide (h.1 = name) then Some h.2 else None)
                (cj_handlers x)).
Proof. intros Hc Hd. unfold clipboardEmit. by rewrite Hc, Hd. Qed.

(** X15.  The instance that a run of [addCopyButtonToCodeCells] has set
    up: when it reports a copy from a button, the button shows [Copied!],
    the selection is cleared (where the browser has a way to clear it) and
    one timer of 2000 ms is set to restore the tooltip; when it reports a
    failure, the button shows [Failed to copy], the timer is set, and the
    selection stays. *)
Theorem copy_report (s s1 : State) (b : nat) (e : Elem) :
  ClipboardJS s = true → addCopyButtonToCodeCells s = (Ok (), s1) →
  find_elem b (document s1) = Some e →
  let c := length (clipboards s) in
  let restore := (RestoreTooltip b (attrs e !! "data-tooltip"), 2000) in
  let ok := clipboardEmit c "success" b s1 in
  let ko := clipboardEmit c "error" b s1 in
  (attr_of b "data-tooltip" (document ok) = Some "Copied!"
   ∧ selection ok = (if hasGetSelection s || hasDocumentSelection s
                     then false else selection s)
   ∧ timers ok = timers s ++ [restore])
  ∧ (attr_of b "data-tooltip" (document ko) = Some "Failed to copy"
     ∧ selection ko = selection s
     ∧ timers ko = timers s ++ [restore]).
Proof.
  intros Hcj Hrun He c restore ok ko.
  destruct (addCopyButtonToCodeCells_clipboard s s1 Hcj Hrun)
    as (Hcl & _ & Hg & Hd & Ht & Hsel).
  assert (clipboards s1 !! c = Some copy_clipboard) as Hc.
  { rewrite Hcl. apply lookup_last. }
  set (s0 := set_calls (calls s1 ++ [CopySucceeded]) s1).
  set (sc := if hasGetSelection s0 || hasDocumentSelection s0
             then set_selection false s0 else s0).
  assert (document sc = document s1 ∧ timers sc = timers s1
          ∧ selection sc = (if hasGetSelection s1 || hasDocumentSelection s1
                            then false else selection s1))
    as (Hdoc & Htim & Hs).
  { unfold sc. simpl. by destruct (_ || _). }
  assert (ok = set_timers (timers sc ++ [restore])
                 (set_document
                    (update b (with_attr "data-tooltip" "Copied!")
                            (document sc)) sc)) as ->.
  { unfold ok. rewrite (clipboardEmit_eq _ _ _ _ _ Hc eq_refl). simpl.
    unfold invoke, exec, call, bind at 1, writes. cbn [run].
    simpl deref. rewrite bind_ret.
    rewrite (bind_ok _ _ _ _ _ (clearSelection_eq _)).
    fold s0. fold sc.
    by rewrite (temporarilyChangeTooltip_ok b "Copied!" sc e)
      by by rewrite Hdoc. }
  set (s0' := set_calls (calls s1 ++ [CopyFailed]) s1).
  assert (ko = set_timers (timers s0' ++ [restore])
                 (set_document
                    (update b (with_attr "data-tooltip" "Failed to copy")
                            (document s0')) s0')) as ->.
  { unfold ko. rewrite (clipboardEmit_eq _ _ _ _ _ Hc eq_refl). simpl.
    unfold invoke, exec, call, bind at 1, writes. cbn [run].
    simpl deref. rewrite bind_ret.
    fold s0'.
    by rewrite (temporarilyChangeTooltip_ok b "Failed to copy" s0' e). }
  simpl. rewrite Hdoc, Htim, Hs, Hg, Hd, Ht, Hsel.
  split; (split; [by eapply attr_of_set | done]).
Qed.

Lemma copy_report_witness :
  let s := exec findCodeCells sample_state in
  let s1 := exec addCopyButtonToCodeCells s in
  let ok := clipboardEmit 0 "success" 37 s1 in
  let ko := clipboardEmit 0 "error" 37 s1 in
  (attr_of 37 "data-tooltip" (document ok) = Some "Copied!"
   ∧ selection ok = false
   ∧ timers ok = [(RestoreTooltip 37 (Some "Copy"), 2000)])
  ∧ (attr_of 37 "data-tooltip" (document ko) = Some "Failed to copy"
     ∧ selection ko = false
     ∧ timers ko = [(RestoreTooltip 37 (Some "Copy"), 2000)]).
Proof.
  intros s s1.
  apply (copy_report s s1 37
           (el 37 "a" ["btn"; "copybtn"; "o-tooltip--left"]
               [("id", "copy-button-codecell0"); ("data-tooltip", "Copy");
                ("data-clipboard-target", "#codecell0")])).
  - reflexivity.
  - by vm_compute.
  - by vm_compute.
Defined.

(** ** The instance, destroyed before the next visit *)

Global Instance clip_kept_refl c : Reflexive (clip_kept c).
Proof. intros s x Hx. by exists x. Qed.

Global Instance clip_kept_trans c : Transitive (clip_kept c).
Proof.
  intros s1 s2 s3 H12 H23 x Hx.
  destruct (H12 x Hx) as (x2 & Hx2 & Hd2).
  destruct (H23 x2 Hx2) as (x3 & Hx3 & Hd3).
  exists x3. split; [done|]. auto.
Qed.









Lemma elem_of_handlers t ev cb s :
  (t, ev, cb) ∈ listeners s → cb ∈ handlers t ev s.
Proof.
  intros Hin. unfold handlers. apply list_elem_of_omap.
  exists (t, ev, cb). split; [done|]. simpl. by rewrite bool_decide_true.
Qed.



(** ** Pages with nothing to hide, and cells without an input area *)

Lemma hide_step_untagged c s e :
  find_elem c (document s) = Some e → "tag_hide_input" ∉ classes e →
  hide_step c s = (Ok (), s).
Proof.
  intros He Hc. cbv beta. unfold classList_contains.
  rewrite (bind_ok _ _ _ _ _ (bind_ok _ _ _ _ _ (the_elem_ok _ _ _ He))).
  unfold ret at 1. by rewrite bool_decide_false.
Qed.

Lemma hide_step_no_input c s e :
  find_elem c (document s) = Some e → "tag_hide_input" ∈ classes e →
  select_in c [Sel (div_ "input")] (document s) = [] →
  hide_step c s = (Throw TypeError, s).
Proof.
  intros He Hc Hsel. cbv beta. unfold classList_contains.
  rewrite (bind_ok _ _ _ _ _ (bind_ok _ _ _ _ _ (the_elem_ok _ _ _ He))).
  unfold ret at 1. rewrite bool_decide_true by done.
  change (negb true) with false. cbv iota.
  rewrite (bind_ok _ _ _ _ _ (getAttribute_ok _ _ _ _ He)).
  erewrite bind_ok.
  2:{ unfold querySelector_in.
      rewrite (bind_ok _ _ _ _ _ (the_elem_ok _ _ _ He)).
      unfold reads. by rewrite Hsel. }
  done.
Qed.

(** X17.  Where the existence check finds nothing: the loop of
    [addHideButton] passes over the cells that are not tagged without
    changing anything, so on a page without a tagged cell [initHiddenCells]
    returns and leaves the state as it was; and at the first tagged cell
    that has no [div.input] below it the loop throws a TypeError, so when
    nothing was tagged before that cell the state is as it was, too. *)
Theorem nothing_to_hide (s : State) (l1 : list nat) :
  ¬ guarded (document s) →
  (∀ c, c ∈ l1 → ∃ e, find_elem c (document s) = Some e
                      ∧ "tag_hide_input" ∉ classes e) →
  (pageElements s !! "inputCells" = Some l1 →
     initHiddenCells s = (Ok (), s))
  ∧ (∀ c e l2,
       pageElements s !! "inputCells" = Some (l1 ++ c :: l2) →
       find_elem c (document s) = Some e → "tag_hide_input" ∈ classes e →
       select_in c [Sel (div_ "input")] (document s) = [] →
       initHiddenCells s = (Throw TypeError, s)).
Proof.
  intros Hg Hun.
  assert (∀ r, forEach (l1 ++ r) hide_step s = forEach r hide_step s) as Hskip.
  { intros r. induction l1 as [|x l1 IH]; [done|].
    destruct (Hun x) as (e & He & Hc); [left|].
    rewrite <- app_comm_cons.
    rewrite (forEach_cons_ok _ hide_step x s s (hide_step_untagged _ _ _ He Hc)).
    apply IH. intros c Hc'. apply Hun. by right. }
  split.
  - intros Hpe. unfold initHiddenCells.
    assert (addHideButton s = (Ok (), s)) as Ha.
    { rewrite addHideButton_loop, Hpe by done.
      by rewrite <- (app_nil_r l1), Hskip. }
    rewrite (bind_ok _ _ _ _ _ Ha).
    unfold querySelectorAll. rewrite bind_reads.
    unfold guarded in Hg.
    destruct (select hiddenInputs (document s)); [done|]. by destruct Hg.
  - intros c e l2 Hpe He Hc Hsel. unfold initHiddenCells.
    assert (addHideButton s = (Throw TypeError, s)) as Ha.
    { rewrite addHideButton_loop, Hpe by done. rewrite Hskip.
      by rewrite (forEach_cons_throw _ hide_step c s TypeError s
                    (hide_step_no_input _ _ _ He Hc Hsel)). }
    by rewrite (bind_throw _ _ _ _ _ Ha).
Qed.

Lemma nothing_to_hide_witness :
  let s := exec findInputCells clashing_state in
  initHiddenCells s = (Ok (), s).
Proof.
  intros s.
  assert (¬ guarded (document s)) as Hg.
  { unfold guarded. intros H. apply H. by vm_compute. }
  assert (∀ c, c ∈ [10; 20] →
               ∃ e, find_elem c (document s) = Some e
                    ∧ "tag_hide_input" ∉ classes e) as Hun.
  { intros c Hc. apply elem_of_cons in Hc as [->|Hc];
      [|apply list_elem_of_singleton in Hc as ->];
      eexists; (split; [by vm_compute|]);
      apply (bool_decide_unpack _); vm_compute; exact I. }
  apply (proj1 (nothing_to_hide s [10; 20] Hg Hun)). by vm_compute.
Defined.

(** ** The script on a page that is ready *)

Global Instance load_listeners_kept_refl : Reflexive load_listeners_kept.
Proof. by intros s cb. Qed.

Global Instance load_listeners_kept_trans : Transitive load_listeners_kept.
Proof. intros s1 s2 s3 H12 H23 cb Hin. by apply H12, H23. Qed.

Ltac added_elsewhere Hin :=
  apply elem_of_app in Hin as [?|Hin]; [done|];
  apply list_elem_of_singleton in Hin; by simplify_eq.

Ltac kept_walk :=
  respects_walk;
  try (intros ? Hin; simpl in Hin;
       first [ exact Hin
             | case_bool_decide; [exact Hin | added_elsewhere Hin]
             | added_elsewhere Hin ]).

Lemma routine_keeps_load_listeners r : respects load_listeners_kept (routine r).
Proof. destruct r; kept_walk. Qed.

Lemma routine_keeps_readyState r : respects (keeps readyState) (routine r).
Proof. destruct r; keeps_walk. Qed.

Lemma script_as_loop s :
  script s
  = (writes (set_pageElements ∅) ;;
     forEach script_order (λ r, initFunction (Named r))) s.
Proof.
  unfold script, script_order. unfold bind at 1. unfold bind at 6.
  unfold writes. simpl forEach.
  repeat (unfold bind at 1; symmetry; unfold bind at 1; symmetry;
          destruct (initFunction _ _) as [[[]|?] ?]; [|done]).
  unfold bind, ret. by destruct (initFunction _ _) as [[[]|?] ?].
Qed.

(** One registration on a document that is not loading: the routine is
    called, and it is registered for [turbolinks:load] only if the
    registration returns. *)
Lemma initFunction_ready r s :
  readyState s ≠ Loading →
  let res := initFunction (Named r) s in
  calls res.2 = calls s ++ [Named r]
  ∧ readyState res.2 = readyState s
  ∧ (∀ cb, (Document, "turbolinks:load", cb) ∈ listeners res.2 →
           (res.1 = Ok () ∧ cb = Named r)
           ∨ (Document, "turbolinks:load", cb) ∈ listeners s).
Proof.
  intros Hr res.
  set (s0 := set_calls (calls s ++ [Named r]) s).
  assert (runWhenDOMLoaded (Named r) s = routine r s0) as Hrun.
  { unfold runWhenDOMLoaded, bind, reads. by rewrite bool_decide_true. }
  pose proof (routine_keeps_calls r s0) as Hc.
  pose proof (routine_keeps_readyState r s0) as Hrs.
  pose proof (routine_keeps_load_listeners r s0) as Hl.
  unfold keeps, exec in Hc, Hrs, Hl.
  destruct (routine r s0) as [[[]|e] sa]; cbn [fst snd] in *.
  - assert (res = addEventListener Document "turbolinks:load" (Named r) sa)
      as ->.
    { unfold res, initFunction. by rewrite (bind_ok _ _ _ _ _ Hrun). }
    unfold addEventListener, bind, reads, writes.
    destruct (hasAddEventListener sa); cbn [fst snd].
    + case_bool_decide as Hin; simpl.
      * split; [exact Hc|]. split; [exact Hrs|].
        intros cb Hcb. right. exact (Hl _ Hcb).
      * split; [exact Hc|]. split; [exact Hrs|]. intros cb Hcb.
        apply elem_of_app in Hcb as [Hcb|Hcb]; [right; exact (Hl _ Hcb)|].
        apply list_elem_of_singleton in Hcb. left. by simplify_eq.
    + split; [exact Hc|]. split; [exact Hrs|].
      intros cb Hcb. right. exact (Hl _ Hcb).
  - assert (res = (Throw e, sa)) as ->.
    { unfold res, initFunction. by rewrite (bind_throw _ _ _ _ _ Hrun). }
    split; [exact Hc|]. split; [exact Hrs|].
    intros cb Hcb. right. exact (Hl _ Hcb).
Qed.

(** ** A revisit of the page *)

Lemma handlers_added t ev x s :
  handlers t ev (set_listeners (listeners s ++ [x]) s)
  = handlers t ev s
    ++ (if bool_decide (x.1 = (t, ev)) then [x.2] else []).
Proof.
  unfold handlers. simpl. rewrite omap_app. simpl. by case_bool_decide.
Qed.

Lemma handlers_elem_of t ev cb s :
  cb ∈ handlers t ev s ↔ (t, ev, cb) ∈ listeners s.
Proof.
  split; [|apply elem_of_handlers].
  unfold handlers. intros Hin.
  apply list_elem_of_omap in Hin as ([[t' ev'] cb'] & Hin & Heq).
  simpl in Heq. case_bool_decide; by simplify_eq.
Qed.

Ltac handlers_walk :=
  respects_walk; unfold keeps;
  try reflexivity;
  try (case_bool_decide; [reflexivity|]);
  try (rewrite handlers_added; cbn [fst snd];
       rewrite bool_decide_false by (by intros ?); by rewrite app_nil_r).

Lemma routine_keeps_load_handlers r :
  respects (keeps (handlers Document "turbolinks:load")) (routine r).
Proof. destruct r; handlers_walk. Qed.

(** One registration on a document that is not loading, when it returns:
    the routine has been called and is a listener for [turbolinks:load],
    added after the ones that were there. *)
Lemma initFunction_ready_ok r s s1 :
  readyState s ≠ Loading → initFunction (Named r) s = (Ok (), s1) →
  readyState s1 = readyState s
  ∧ handlers Document "turbolinks:load" s1
    = handlers Document "turbolinks:load" s
      ++ (if bool_decide (Named r ∈ handlers Document "turbolinks:load" s)
          then [] else [Named r]).
Proof.
  intros Hr Hrun.
  set (s0 := set_calls (calls s ++ [Named r]) s).
  assert (runWhenDOMLoaded (Named r) s = routine r s0) as Hw.
  { unfold runWhenDOMLoaded, bind, reads. by rewrite bool_decide_true. }
  pose proof (routine_keeps_readyState r s0) as Hrs.
  pose proof (routine_keeps_load_handlers r s0) as Hh.
  unfold keeps, exec in Hrs, Hh.
  unfold initFunction in Hrun.
  apply bind_inv_ok in Hrun as ([] & sa & Hsa & Hadd).
  rewrite Hw in Hsa. rewrite Hsa in Hrs, Hh. cbn [snd] in Hrs, Hh.
  change (handlers Document "turbolinks:load" s0)
    with (handlers Document "turbolinks:load" s) in Hh.
  unfold addEventListener, bind, reads, writes in Hadd.
  destruct (hasAddEventListener sa); [|done].
  case_bool_decide as Hin; simplify_eq.
  - split; [exact Hrs|]. rewrite <- Hh.
    rewrite bool_decide_true by by apply handlers_elem_of.
    by rewrite app_nil_r.
  - split; [exact Hrs|]. rewrite handlers_added. cbn [fst snd].
    rewrite bool_decide_true by done. rewrite <- Hh.
    rewrite bool_decide_false; [done|]. by rewrite handlers_elem_of.
Qed.

Lemma register_loop_ok (rs : list Routine) s s1 :
  readyState s ≠ Loading → NoDup rs →
  (∀ r, r ∈ rs → Named r ∉ handlers Document "turbolinks:load" s) →
  forEach rs (λ r, initFunction (Named r)) s = (Ok (), s1) →
  handlers Document "turbolinks:load" s1
  = handlers Document "turbolinks:load" s ++ map Named rs.
Proof.
  revert s. induction rs as [|r rs IH]; intros s Hr Hnd Hnew Hrun.
  - simpl in Hrun. unfold ret in Hrun. simplify_eq. by rewrite app_nil_r.
  - apply NoDup_cons in Hnd as [Hnr Hnd].
    simpl in Hrun. apply bind_inv_ok in Hrun as ([] & sa & Hsa & Hrest).
    destruct (initFunction_ready_ok r s sa Hr Hsa) as [Hrs Hh].
    rewrite bool_decide_false in Hh by (apply Hnew; left).
    rewrite (IH sa); [by rewrite Hh, <- app_assoc |by rewrite Hrs|done| |done].
    intros r' Hr'. rewrite Hh. rewrite elem_of_app, list_elem_of_singleton.
    intros [Hin|Heq].
    + by apply (Hnew r'); [right|].
    + by simplify_eq.
Qed.

(** ** What the routines leave alone *)

(** X21.  Collecting the cells touches nothing but ids: a run of
    [findCodeCells] (or [findInputCells]) changes the state only in its
    table of [pageElements] and in the document, where every element keeps
    its place, tag, classes and every attribute other than [id]; an
    element that is not collected is as it was, and a collected element
    loses the id it had. *)
Theorem find_cells_frame (s : State) :
  wf (document s) →
  ∀ (r : Routine) key sel idOf,
    (r, key, sel, idOf)
    ∈ [(FindCodeCells, "codeCells", codeCellSelector, codeCellId);
       (FindInputCells, "inputCells", inputCellSelector, inputCellId)] →
    let s' := exec (routine r) s in
    s' = set_document (document s')
           (set_pageElements (<[key := select sel (document s)]>
                                (pageElements s)) s)
    ∧ nids (document s') = nids (document s)
    ∧ (∀ c e, find_elem c (document s) = Some e →
         ∃ e', find_elem c (document s') = Some e'
               ∧ tag e' = tag e ∧ classes e' = classes e
               ∧ checked e' = checked e
               ∧ (∀ k, k ≠ "id" → attrs e' !! k = attrs e !! k)
               ∧ (c ∉ select sel (document s) → e' = e)
               ∧ (∀ i, select sel (document s) !! i = Some c →
                       attrs e' !! "id" = Some (idOf i))).
Proof.
  intros Hwf r key sel idOf Hin s'.
  assert (routine r s
          = (Ok (),
             set_document
               (tmap (numbered idOf (select sel (document s))) (document s))
               (set_pageElements
                  (<[key := select sel (document s)]> (pageElements s)) s)))
    as Hrun.
  { apply elem_of_cons in Hin as [Heq|Hin];
      [|apply list_elem_of_singleton in Hin as Heq]; simplify_eq.
    - by apply findCodeCells_eq.
    - by apply findInputCells_eq. }
  unfold s', exec. rewrite Hrun. cbn [snd]. simpl.
  split; [done|]. split; [apply nids_tmap, numbered_nid|].
  intros c e He. rewrite find_elem_tmap, He by apply numbered_nid. simpl.
  eexists. split; [done|].
  pose proof (find_elem_nid _ _ _ He) as Hn.
  unfold numbered. rewrite Hn.
  destruct (index_of c (select sel (document s))) as [i|] eqn:Hi; simpl.
  - split; [done|]. split; [done|]. split; [done|]. split; [|split].
    + intros k Hk. by rewrite lookup_insert_ne.
    + intros Hc. by apply index_of_elem_of in Hi.
    + intros j Hj. rewrite lookup_insert_eq.
      rewrite (index_of_lookup _ _ _ (select_NoDup _ _ Hwf) Hj) in Hi.
      by simplify_eq.
  - repeat (split; [done|]). intros j Hj.
    rewrite (index_of_lookup _ _ _ (select_NoDup _ _ Hwf) Hj) in Hi. done.
Qed.

Lemma find_cells_frame_witness :
  let s' := exec (routine FindInputCells) sample_state in
  s' = set_document (document s')
         (set_pageElements
            (<["inputCells" := select inputCellSelector (document sample_state)]>
               (pageElements sample_state)) sample_state)
  ∧ nids (document s') = nids (document sample_state)
  ∧ (∀ c e, find_elem c (document sample_state) = Some e →
       ∃ e', find_elem c (document s') = Some e'
             ∧ tag e' = tag e ∧ classes e' = classes e
             ∧ checked e' = checked e
             ∧ (∀ k, k ≠ "id" → attrs e' !! k = attrs e !! k)
             ∧ (c ∉ select inputCellSelector (document sample_state) → e' = e)
             ∧ (∀ i, select inputCellSelector (document sample_state) !! i
                     = Some c →
                     attrs e' !! "id" = Some (inputCellId i))).
Proof.
  intros s'.
  assert (wf (document sample_state)) as Hwf.
  { apply (bool_decide_unpack (wf _)). vm_compute. exact I. }
  apply (find_cells_frame sample_state Hwf
           FindInputCells "inputCells" inputCellSelector inputCellId).
  right. left.
Defined.

(** X22.  From a state that is ready for it, a run of
    [addCopyButtonToCodeCells] only adds elements: every element of the
    document is still there and as it was, and an element that is not a
    collected cell keeps its next sibling. *)
Theorem copy_buttons_frame (l : list nat) (s : State) :
  copy_ready l s →
  let s' := exec addCopyButtonToCodeCells s in
  outcome addCopyButtonToCodeCells s
  = (if hasAddEventListener s then Ok () else Throw TypeError)
  ∧ (∀ c, c ∈ nids (document s) →
          find_elem c (document s') = find_elem c (document s))
  ∧ (∀ c, c ∈ nids (document s) → c ∉ l →
          next_sibling c (document s') = next_sibling c (document s)).
Proof.
  intros Hready s'.
  destruct (addCopyButtonToCodeCells_document l s Hready) as (d & Hrun & Hd).
  destruct Hready as (Hcj & Hpe & Hcells & Hguard).
  destruct (copy_loop l 0 s Hcells Hguard)
    as (d' & Hrun' & _ & Hfind & _ & Hnext & _).
  rewrite Hrun in Hrun'. assert (d' = d) as -> by (by simplify_eq).
  unfold s'. rewrite Hd. split; [|by split].
  unfold outcome, addCopyButtonToCodeCells. rewrite bind_reads, Hcj.
  change (negb true) with false. cbv iota.
  rewrite (bind_ok _ _ _ _ _ (pageElement_ok _ _ _ Hpe)).
  rewrite (bind_ok _ _ _ _ _ Hrun).
  unfold new_ClipboardJS, bind at 1.
  unfold clipboard_on at 1, bind at 1, writes.
  unfold clipboard_on at 1, bind at 1, writes.
  unfold addEventListener, bind, reads, writes. simpl.
  by destruct (hasAddEventListener s).
Qed.

Lemma copy_buttons_frame_witness :
  let s := exec findCodeCells sample_state in
  let s' := exec addCopyButtonToCodeCells s in
  outcome addCopyButtonToCodeCells s = Ok ()
  ∧ (∀ c, c ∈ nids (document s) →
          find_elem c (document s') = find_elem c (document s))
  ∧ (∀ c, c ∈ nids (document s) → c ∉ [16; 26; 36] →
          next_sibling c (document s') = next_sibling c (document s)).
Proof.
  intros s s'. apply (copy_buttons_frame [16; 26; 36] s).
  split; [by vm_compute|]. split; [by vm_compute|]. split.
  - intros [|[|[|i]]] c Hi; simplify_eq/=; by vm_compute.
  - intros [|[|[|i]]] Hi; simpl in Hi; try lia; by vm_compute.
Defined.

(** ** Waiting for a library, and what else can go wrong *)

(** C3.  Two things in the script deal with a failure.  One is the retry
    of the three routines that need a library: while its global is
    undefined the routine changes nothing but the timer table, to which it
    adds itself with a delay of 250 ms, and when that timer fires the
    routine is called again; once the global is defined the routine sets
    no timer and does its work: [initAnchors] lets AnchorJS add its links
    and marks them, [initToc] marks a page without sidebar content, lets
    tocbot build the table and marks its links, and
    [addCopyButtonToCodeCells] leaves a copy button after every collected
    cell.  The other is the handler given to ClipboardJS for its [error]
    event, which shows [Failed to copy] on the button.  Nothing else is
    caught: an exception that leaves a routine called by [initFunction]
    leaves [initFunction]. *)
Theorem polling_retry (r : Routine) (s : State) :
  (library_loaded r s = false →
     routine r s = (Ok (), set_timers (timers s ++ [(Named r, 250)]) s)
     ∧ document (exec (routine r) s) = document s
     ∧ fireTimer (length (timers s)) (exec (routine r) s)
       = invoke (Named r) None s)
  ∧ (library_loaded r s = true → timers (exec (routine r) s) = timers s)
  ∧ (∀ add, anchors s = Some add →
       let d := add "main h1, main h2, main h3, main h4" (document s) in
       initAnchors s
       = (Ok (), set_document
                   (tmap (upd_in (select anchorLinks d)
                                 (with_attr "data-turbolinks" "false")) d) s))
  ∧ (∀ init, tocbot s = Some init →
       initToc s
       = match select sidebarContent (document s),
               head (select onThisPage (document s)) with
         | [], None => (Throw TypeError, s)
         | content, nav =>
             let d1 := match content, nav with
                       | [], Some n =>
                           update n (with_class "no_sidebar_content")
                                  (document s)
                       | _, _ => document s
                       end in
             let d2 := init toc_options d1 in
             (Ok (), set_document
                       (tmap (upd_in (select tocLinks d2)
                                     (with_attr "data-turbolinks" "false"))
                             d2) s)
         end)
  ∧ (∀ l, copy_ready l s →
       ∀ i c, l !! i = Some c →
         ∃ b, next_sibling c (document (exec addCopyButtonToCodeCells s))
              = Some b
              ∧ is_copy_button (codeCellId i) b
              ∧ nid b ∉ nids (document s))
  ∧ (∀ s1 b e, ClipboardJS s = true →
       addCopyButtonToCodeCells s = (Ok (), s1) →
       find_elem b (document s1) = Some e →
       let ko := clipboardEmit (length (clipboards s)) "error" b s1 in
       clipboards s1 = clipboards s ++ [copy_clipboard]
       ∧ calls ko = calls s1 ++ [CopyFailed]
       ∧ attr_of b "data-tooltip" (document ko) = Some "Failed to copy")
  ∧ (∀ e, readyState s ≠ Loading →
       outcome (call (Named r) None) s = Throw e →
       initFunction (Named r) s = (Throw e, exec (call (Named r) None) s)).
Proof.
  split; [|split; [|split; [|split; [|split; [|split]]]]].
  - intros Hl. pose proof (routine_waits r s Hl) as Heq.
    split; [exact Heq|]. unfold exec. rewrite Heq. simpl.
    split; [done | apply fireTimer_last].
  - intros Hl. destruct r; simpl in Hl.
    + apply exec_keeps. keeps_walk.
    + apply exec_keeps. keeps_walk.
    + unfold exec, routine, addCopyButtonToCodeCells, bind at 1, reads.
      rewrite Hl. simpl.
      apply (exec_keeps timers). keeps_walk.
    + apply exec_keeps. keeps_walk.
    + unfold exec, routine, initAnchors, bind at 1, reads.
      destruct (anchors s) as [f|];
        [|by rewrite bool_decide_false in Hl by by intros [? ?]].
      apply (exec_keeps timers). keeps_walk.
    + unfold exec, routine, initToc, bind at 1, reads.
      destruct (tocbot s) as [f|];
        [|by rewrite bool_decide_false in Hl by by intros [? ?]].
      apply (exec_keeps timers). keeps_walk.
  - intros add Ha. by apply initAnchors_eq.
  - intros init Ht. by apply initToc_eq.
  - intros l Hready i c Hi.
    destruct (addCopyButtonToCodeCells_document l s Hready) as (d & Hrun & Hd).
    destruct Hready as (Hcj & Hpe & Hcells & Hguard).
    destruct (copy_loop l 0 s Hcells Hguard)
      as (d' & Hrun' & _ & _ & _ & _ & Hbtn).
    rewrite Hrun in Hrun'. assert (d' = d) as -> by (by simplify_eq).
    destruct (Hbtn i c Hi) as (b & Hb1 & Hb2 & Hb3).
    exists b. rewrite Hd. split; [done|]. split; [exact Hb2 | done].
  - intros s1 b e Hcj Hrun He ko.
    destruct (addCopyButtonToCodeCells_clipboard s s1 Hcj Hrun)
      as (Hcl & _).
    assert (clipboards s1 !! length (clipboards s) = Some copy_clipboard)
      as Hc.
    { rewrite Hcl. apply lookup_last. }
    set (s0 := set_calls (calls s1 ++ [CopyFailed]) s1).
    assert (ko = set_timers
                   (timers s0
                    ++ [(RestoreTooltip b (attrs e !! "data-tooltip"), 2000)])
                   (set_document
                      (update b (with_attr "data-tooltip" "Failed to copy")
                              (document s0)) s0)) as ->.
    { unfold ko. rewrite (clipboardEmit_eq _ _ _ _ _ Hc eq_refl). simpl.
      unfold invoke, exec, call, bind at 1, writes. cbn [run].
      simpl deref. rewrite bind_ret.
      fold s0.
      by rewrite (temporarilyChangeTooltip_ok b "Failed to copy" s0 e). }
    split; [exact Hcl|]. split; [done|]. simpl. by eapply attr_of_set.
  - intros e Hr He.
    unfold initFunction. erewrite bind_throw; [done|].
    unfold runWhenDOMLoaded, bind at 1, reads. rewrite bool_decide_true by done.
    unfold outcome in He. unfold exec.
    destruct (call (Named r) None s) as [o sa]. simpl in He. by subst o.
Qed.

Lemma polling_retry_witness :
  let sc := exec findCodeCells sample_state in
  let s1 := exec addCopyButtonToCodeCells sc in
  let sh := exec findInputCells plain_widget_state in
  (routine InitAnchors sample_state
   = (Ok (), set_timers (timers sample_state ++ [(Named InitAnchors, 250)])
                         sample_state)
   ∧ timers (exec (routine InitToc) library_state) = timers library_state)
  ∧ initAnchors library_state
    = (let d := sample_anchors "main h1, main h2, main h3, main h4"
                               (document library_state) in
       (Ok (), set_document
                 (tmap (upd_in (select anchorLinks d)
                               (with_attr "data-turbolinks" "false")) d)
                 library_state))
  ∧ outcome initToc library_state = Ok ()
  ∧ (∃ b, next_sibling 16 (document s1) = Some b
          ∧ is_copy_button (codeCellId 0) b
          ∧ nid b ∉ nids (document sc))
  ∧ attr_of 37 "data-tooltip"
            (document (clipboardEmit 0 "error" 37 s1))
    = Some "Failed to copy"
  ∧ initFunction (Named InitHiddenCells) sh
    = (Throw TypeError, exec (call (Named InitHiddenCells) None) sh).
Proof.
  intros sc s1 sh.
  assert (copy_ready [16; 26; 36] sc) as Hready by apply copy_ready_sample.
  assert (addCopyButtonToCodeCells sc = (Ok (), s1)) as Hrun by by vm_compute.
  assert (find_elem 37 (document s1)
          = Some (el 37 "a" ["btn"; "copybtn"; "o-tooltip--left"]
                     [("id", "copy-button-codecell0");
                      ("data-tooltip", "Copy");
                      ("data-clipboard-target", "#codecell0")])) as He
    by by vm_compute.
  assert (outcome (call (Named InitHiddenCells) None) sh = Throw TypeError)
    as Hthrow by by vm_compute.
  assert (readyState sh ≠ Loading) as Hr by by intros ?.
  assert (outcome initToc library_state = Ok ()) as Htoc by by vm_compute.
  split; [split|split; [|split; [|split; [|split]]]].
  - apply (proj1 (polling_retry InitAnchors sample_state)). reflexivity.
  - apply (proj1 (proj2 (polling_retry InitToc library_state))). reflexivity.
  - destruct (polling_retry InitAnchors library_state)
      as (_ & _ & Ha & _).
    exact (Ha sample_anchors eq_refl).
  - exact Htoc.
  - destruct (polling_retry AddCopyButtonToCodeCells sc)
      as (_ & _ & _ & _ & Hc & _).
    exact (Hc [16; 26; 36] Hready 0 16 eq_refl).
  - destruct (polling_retry AddCopyButtonToCodeCells sc)
      as (_ & _ & _ & _ & _ & Hk & _).
    destruct (Hk s1 37 _ eq_refl Hrun He) as (_ & _ & Hko). exact Hko.
  - destruct (polling_retry InitHiddenCells sh)
      as (_ & _ & _ & _ & _ & _ & Hp).
    exact (Hp TypeError Hr Hthrow).
Defined.

(** The handler that [addCopyButtonToCodeCells] gives to ClipboardJS for
    its [error] event: on the sample page, when the instance reports that
    a copy from the first button failed, the handler is called and the
    button shows [Failed to copy], with a timer to restore the tooltip. *)
Lemma copy_failure_handled :
  let s := exec findCodeCells sample_state in
  let s1 := exec addCopyButtonToCodeCells s in
  let ko := clipboardEmit 0 "error" 37 s1 in
  outcome addCopyButtonToCodeCells s = Ok ()
  ∧ (cj_handlers <$> clipboards s1 !! 0)
    = Some [("success", CopySucceeded); ("error", CopyFailed)]
  ∧ attr_of 37 "data-tooltip" (document s1) = Some "Copy"
  ∧ calls ko = calls s1 ++ [CopyFailed]
  ∧ attr_of 37 "data-tooltip" (document ko) = Some "Failed to copy"
  ∧ timers ko = [(RestoreTooltip 37 (Some "Copy"), 2000)].
Proof. intros s s1 ko. by vm_compute. Qed.

(** ** The script on a page that is ready, routine by routine *)

Lemma forEach_app {A} (l1 l2 : list A) (f : A → M unit) s :
  forEach (l1 ++ l2) f s = (forEach l1 f ;; forEach l2 f) s.
Proof.
  revert s. induction l1 as [|a l1 IH]; intros s; [done|].
  simpl. unfold bind. destruct (f a s) as [[[]|e] s']; [|done].
  specialize (IH s'). unfold bind in IH. exact IH.
Qed.

(** A registration that returns has registered the routine. *)
Lemma initFunction_registers cb s s1 :
  initFunction cb s = (Ok (), s1) →
  (Document, "turbolinks:load", cb) ∈ listeners s1.
Proof.
  intros Hrun. unfold initFunction in Hrun.
  apply bind_inv_ok in Hrun as ([] & sa & _ & Hadd).
  by apply addEventListener_inv in Hadd as (_ & _ & Hin & _).
Qed.

(** The registrations of a list of routines on a document that is not
    loading, when they all return: the routines have been called in order
    and are registered, and nothing else is. *)
Lemma register_loop_returns (rs : list Routine) s s1 :
  readyState s ≠ Loading →
  forEach rs (λ r, initFunction (Named r)) s = (Ok (), s1) →
  calls s1 = calls s ++ map Named rs
  ∧ readyState s1 = readyState s
  ∧ (∀ r, r ∈ rs → (Document, "turbolinks:load", Named r) ∈ listeners s1)
  ∧ (∀ cb, (Document, "turbolinks:load", cb) ∈ listeners s1 →
           cb ∈ map Named rs
           ∨ (Document, "turbolinks:load", cb) ∈ listeners s).
Proof.
  revert s. induction rs as [|r rs IH]; intros s Hr Hrun.
  - simpl in Hrun. unfold ret in Hrun. simplify_eq.
    rewrite app_nil_r. split; [done|]. split; [done|].
    split; [by inversion 1 | by right].
  - simpl in Hrun. apply bind_inv_ok in Hrun as ([] & sa & Hsa & Hrest).
    destruct (initFunction_ready r s Hr) as (Hc & Hrs & Hl).
    rewrite Hsa in Hc, Hrs, Hl. cbn [fst snd] in Hc, Hrs, Hl.
    destruct (IH sa) as (Hck & Hrk & Hin & Hlk); [by rewrite Hrs | done |].
    split; [by rewrite Hck, Hc, <- app_assoc|].
    split; [by rewrite Hrk|]. split.
    + intros r' [->|Hr']%elem_of_cons; [|by apply Hin].
      assert (listeners_grow sa s1) as [_ Hsub].
      { change s1 with ((Ok (), s1) : Result unit * State).2.
        rewrite <- Hrest.
        assert (respects listeners_grow
                  (forEach rs (λ r, initFunction (Named r)))) as Hres.
        { apply respects_forEach; [apply _ | apply _|].
          intros r'. apply initFunction_grows. }
        apply Hres. }
      apply Hsub. by apply initFunction_registers with s.
    + intros cb Hcb. destruct (Hlk cb Hcb) as [Hm|Hm].
      * left. simpl. by right.
      * destruct (Hl cb Hm) as [[_ ->]|?]; [left; simpl; left | by right].
Qed.

(** X18.  The script on a document that is not loading, cut at any of its
    six registrations: when the registrations before it have all
    returned, their routines have been called in script order and are
    registered for [turbolinks:load], and the routine of this registration
    is called next.  If this registration throws, the script ends with its
    exception in the state the registration leaves: this routine and the
    routines after it are not registered, and the routines after it are
    not called.  If it returns, the routine is registered, and when it is
    the last one the script returns. *)
Theorem script_on_ready_page (s : State) (before after : list Routine)
    (r : Routine) (s1 : State) :
  readyState s ≠ Loading →
  script_order = before ++ r :: after →
  forEach before (λ r, initFunction (Named r)) (set_pageElements ∅ s)
  = (Ok (), s1) →
  let s2 := exec (initFunction (Named r)) s1 in
  calls s1 = calls s ++ map Named before
  ∧ calls s2 = calls s ++ map Named (before ++ [r])
  ∧ (∀ r', r' ∈ before →
           (Document, "turbolinks:load", Named r') ∈ listeners s2)
  ∧ (∀ e, outcome (initFunction (Named r)) s1 = Throw e →
       script s = (Throw e, s2)
       ∧ ∀ r', r' ∈ r :: after →
           (Document, "turbolinks:load", Named r') ∉ listeners s →
           (Document, "turbolinks:load", Named r') ∉ listeners s2)
  ∧ (outcome (initFunction (Named r)) s1 = Ok () →
       (Document, "turbolinks:load", Named r) ∈ listeners s2
       ∧ (after = [] → script s = (Ok (), s2))).
Proof.
  intros Hr Hsplit Hloop s2.
  destruct (register_loop_returns before (set_pageElements ∅ s) s1 Hr Hloop)
    as (Hc1 & Hr1 & Hin1 & Hl1).
  change (calls (set_pageElements ∅ s)) with (calls s) in Hc1.
  change (readyState (set_pageElements ∅ s)) with (readyState s) in Hr1.
  change (listeners (set_pageElements ∅ s)) with (listeners s) in Hl1.
  assert (readyState s1 ≠ Loading) as Hr1' by by rewrite Hr1.
  destruct (initFunction_ready r s1 Hr1') as (Hc2 & _ & Hl2).
  fold (exec (initFunction (Named r)) s1) in Hc2, Hl2. fold s2 in Hc2, Hl2.
  fold (outcome (initFunction (Named r)) s1) in Hl2.
  assert (∀ o, outcome (initFunction (Named r)) s1 = o →
               initFunction (Named r) s1 = (o, s2)) as Hpair.
  { intros o <-. unfold outcome, s2, exec.
    by destruct (initFunction (Named r) s1). }
  assert (script s
          = (forEach [r] (λ r, initFunction (Named r)) ;;
             forEach after (λ r, initFunction (Named r))) s1) as Hscript.
  { rewrite script_as_loop. unfold bind at 1, writes.
    rewrite Hsplit, forEach_app, (bind_ok _ _ _ _ _ Hloop).
    by rewrite (forEach_app [r] after). }
  split; [exact Hc1|]. split; [by rewrite Hc2, Hc1, map_app, app_assoc|].
  split; [|split].
  - intros r' Hr'.
    destruct (initFunction_grows (Named r) s1) as [_ Hsub].
    apply Hsub. by apply Hin1.
  - intros e He. split.
    + rewrite Hscript. erewrite bind_throw; [done|].
      by apply forEach_cons_throw, Hpair.
    + intros r' Hr' Hnot Hin.
      destruct (Hl2 _ Hin) as [[Hok _]|Hold]; [congruence|].
      destruct (Hl1 _ Hold) as [Hm|?]; [|done].
      apply list_elem_of_fmap in Hm as (r0 & Heq & Hr0). simplify_eq.
      assert (NoDup (before ++ r :: after)) as Hnd.
      { rewrite <- Hsplit. apply (bool_decide_unpack _). by vm_compute. }
      apply NoDup_app in Hnd as (_ & Hdis & _). by apply (Hdis r0).
  - intros Hok. split; [by apply initFunction_registers with s1, Hpair|].
    intros ->. rewrite Hscript. erewrite bind_ok; [done|].
    rewrite (forEach_cons_ok [] _ r s1 s2 (Hpair _ Hok)). done.
Qed.

Lemma script_on_ready_page_witness :
  let s := plain_widget_state in
  let s1 := exec (initFunction (Named AddCopyButtonToCodeCells))
              (exec (initFunction (Named FindInputCells))
                 (exec (initFunction (Named FindCodeCells))
                    (set_pageElements ∅ s))) in
  let s2 := exec (initFunction (Named InitHiddenCells)) s1 in
  calls s2
  = [Named FindCodeCells; Named FindInputCells;
     Named AddCopyButtonToCodeCells; Named InitHiddenCells]
  ∧ script s = (Throw TypeError, s2)
  ∧ (∀ r', r' ∈ [InitHiddenCells; InitAnchors; InitToc] →
           (Document, "turbolinks:load", Named r') ∉ listeners s2).
Proof.
  intros s s1 s2.
  assert (readyState s ≠ Loading) as Hr by by intros ?.
  assert (forEach [FindCodeCells; FindInputCells; AddCopyButtonToCodeCells]
            (λ r, initFunction (Named r)) (set_pageElements ∅ s)
          = (Ok (), s1)) as Hloop by by vm_compute.
  assert (outcome (initFunction (Named InitHiddenCells)) s1 = Throw TypeError)
    as Hthrow by by vm_compute.
  destruct (script_on_ready_page s
              [FindCodeCells; FindInputCells; AddCopyButtonToCodeCells]
              [InitAnchors; InitToc] InitHiddenCells s1 Hr eq_refl Hloop)
    as (_ & Hc & _ & Hfail & _).
  destruct (Hfail _ Hthrow) as [Hscript Hnot].
  split; [exact Hc|]. split; [exact Hscript|].
  intros r' Hr'. apply (Hnot r' Hr'). by inversion 1.
Defined.

(** ** A revisit of the page, whenever it comes *)

Global Instance load_handlers_extend_refl : Reflexive load_handlers_extend.
Proof. by intros s. Qed.

Global Instance load_handlers_extend_trans : Transitive load_handlers_extend.
Proof.
  intros s1 s2 s3 [P1 N1] [P2 N2]. split; [by etransitivity | tauto].
Qed.

Lemma load_handlers_extend_same s s' :
  listeners s' = listeners s → load_handlers_extend s s'.
Proof. intros H. unfold load_handlers_extend, handlers. by rewrite H. Qed.

Lemma load_handlers_extend_add x s :
  load_handlers_extend s (if bool_decide (x ∈ listeners s) then s
                          else set_listeners (listeners s ++ [x]) s).
Proof.
  case_bool_decide as Hx; [reflexivity|].
  unfold load_handlers_extend. rewrite handlers_added.
  split; [by apply prefix_app_r|].
  intros Hnd. case_bool_decide as Hev; [|by rewrite app_nil_r].
  apply NoDup_app. repeat split; [done | | apply NoDup_singleton].
  intros cb Hcb Hcb'. apply list_elem_of_singleton in Hcb'. subst cb.
  apply handlers_elem_of in Hcb. apply Hx.
  destruct x as [[t ev] cb]. simpl in *. by simplify_eq.
Qed.

Ltac extend_walk :=
  respects_walk;
  first [ apply load_handlers_extend_add
        | by apply load_handlers_extend_same ].

Lemma run_extends cb target : respects load_handlers_extend (run cb target).
Proof. destruct cb as [[]| | | | |]; extend_walk. Qed.

Lemma call_extends cb target : respects load_handlers_extend (call cb target).
Proof.
  unfold call. apply respects_bind; [apply _ | | intros _; apply run_extends].
  apply respects_writes. intros s. by apply load_handlers_extend_same.
Qed.

Lemma initFunction_extends cb : respects load_handlers_extend (initFunction cb).
Proof.
  unfold initFunction, runWhenDOMLoaded.
  repeat first [ apply call_extends | respects_step ];
    first [ apply load_handlers_extend_add
          | by apply load_handlers_extend_same ].
Qed.

Lemma readyStateHandler_extends cb :
  respects load_handlers_extend (readyStateHandler cb).
Proof.
  unfold readyStateHandler.
  repeat first [ apply call_extends | respects_step ].
Qed.

Lemma foldl_extends {A} (f : State → A → State) (l : list A) s :
  (∀ s a, load_handlers_extend s (f s a)) →
  load_handlers_extend s (foldl f s l).
Proof.
  intros Hf. revert s. induction l as [|a l IH]; intros s; simpl.
  - reflexivity.
  - etransitivity; [apply Hf | apply IH].
Qed.

Lemma step_extends s s' : step s s' → load_handlers_extend s s'.
Proof.
  destruct 1 as [t ev target s|name s|i s|c name trigger s|cb s|s s' Hl _].
  - apply foldl_extends. intros s0 cb. apply call_extends.
  - apply foldl_extends. intros s0 cb. apply readyStateHandler_extends.
  - unfold fireTimer. destruct (timers s !! i) as [[cb ms]|]; [|reflexivity].
    etransitivity; [|apply call_extends]. by apply load_handlers_extend_same.
  - unfold clipboardEmit. destruct (clipboards s !! c) as [x|]; [|reflexivity].
    destruct (cj_destroyed x); [reflexivity|].
    apply foldl_extends. intros s0 cb. apply call_extends.
  - apply initFunction_extends.
  - by apply load_handlers_extend_same.
Qed.

Lemma steps_extend s s' : rtc step s s' → load_handlers_extend s s'.
Proof.
  induction 1 as [|s1 s2 s3 H12 _ IH]; [reflexivity|].
  etransitivity; [by apply step_extends | exact IH].
Qed.

(** X19.  When the script has returned on a document that was not loading
    (and had no listener yet), the six routines have been called once
    each, in script order; and whatever happens to the page afterwards
    (events, timers, reports of ClipboardJS, further registrations, a new
    body), every later dispatch of [turbolinks:load] calls the six
    routines again, each once, in script order and ahead of any function
    registered later, whatever any of them does. *)
Theorem revisit_runs_all (s s1 : State) :
  readyState s ≠ Loading → listeners s = [] →
  script s = (Ok (), s1) →
  calls s1 = calls s ++ map Named script_order
  ∧ ∀ s2, rtc step s1 s2 →
      ∃ later,
        calls (dispatchEvent Document "turbolinks:load" None s2)
        = calls s2 ++ map Named script_order ++ later
        ∧ ∀ r, Named r ∉ later.
Proof.
  intros Hr Hl Hrun.
  rewrite script_as_loop in Hrun. unfold bind at 1, writes in Hrun.
  destruct (register_loop_returns script_order (set_pageElements ∅ s) s1
              Hr Hrun) as (Hc & _).
  split; [exact Hc|].
  assert (handlers Document "turbolinks:load" s1 = map Named script_order)
    as Hh.
  { rewrite (register_loop_ok script_order (set_pageElements ∅ s) s1 Hr);
      [| |intros r _|exact Hrun].
    - unfold handlers. simpl. by rewrite Hl.
    - apply (bool_decide_unpack _). by vm_compute.
    - unfold handlers. simpl. rewrite Hl. by inversion 1. }
  intros s2 Hsteps.
  destruct (steps_extend _ _ Hsteps) as [[later Hlater] Hnd].
  rewrite Hh in Hlater, Hnd.
  exists later. rewrite calls_dispatchEvent, Hlater.
  split; [done|]. intros r Hin.
  assert (NoDup (map Named script_order ++ later)) as Hnd2.
  { rewrite <- Hlater. apply Hnd. apply (bool_decide_unpack _). by vm_compute. }
  apply NoDup_app in Hnd2 as (_ & Hdis & _).
  apply (Hdis (Named r)); [|done].
  apply list_elem_of_fmap_2. destruct r; vm_compute; set_solver.
Qed.

Lemma revisit_runs_all_witness :
  let s1 := exec script sample_state in
  let s2 := fireTimer 0 (dispatchEvent Document "turbolinks:load" None s1) in
  calls s1 = calls sample_state ++ map Named script_order
  ∧ ∃ later,
      calls (dispatchEvent Document "turbolinks:load" None s2)
      = calls s2 ++ map Named script_order ++ later
      ∧ ∀ r, Named r ∉ later.
Proof.
  intros s1 s2.
  assert (readyState sample_state ≠ Loading) as Hr by by intros ?.
  assert (script sample_state = (Ok (), s1)) as Hrun by by vm_compute.
  destruct (revisit_runs_all sample_state s1 Hr eq_refl Hrun) as [Hc Hlater].
  split; [exact Hc|]. apply Hlater.
  eapply rtc_l; [apply step_event|].
  eapply rtc_l; [apply step_timer|]. apply rtc_refl.
Defined.

(** ** When a registered function is called *)

Lemma addEventListener_returns t ev cb s :
  hasAddEventListener s = true →
  ∃ s1, addEventListener t ev cb s = (Ok (), s1)
        ∧ hasAddEventListener s1 = true.
Proof.
  intros Hh. unfold addEventListener, bind, reads, writes. rewrite Hh.
  case_bool_decide; eexists; (split; [done|]); done.
Qed.

Lemma run_keeps_load_listeners cb target :
  respects load_listeners_kept (run cb target).
Proof. destruct cb as [[]| | | | |]; kept_walk. Qed.

(** A registration that has returned: the function is a listener of the
    document for [turbolinks:load], and for [DOMContentLoaded] too when the
    document was loading; listeners stay. *)
Lemma initFunction_returned cb s s1 :
  NoDup (listeners s) →
  initFunction cb s = (Ok (), s1) →
  (readyState s = Loading →
     count_calls cb s1 = count_calls cb s
     ∧ ∀ s2, rtc step s1 s2 →
         count_calls cb (dispatchEvent Document "DOMContentLoaded" None s2)
         = S (count_calls cb s2))
  ∧ ∀ s2, rtc step s1 s2 →
      count_calls cb (dispatchEvent Document "turbolinks:load" None s2)
      = S (count_calls cb s2).
Proof.
  intros Hnd Hinit. unfold initFunction in Hinit.
  apply bind_inv_ok in Hinit as ([] & s' & Hrun & Hadd).
  apply addEventListener_inv in Hadd as (Hhas' & [Hnd1 Hsub1] & Hin1 & Hcalls1).
  split.
  - intros Hload.
    unfold runWhenDOMLoaded, bind at 1, reads in Hrun.
    rewrite bool_decide_false in Hrun by (by intros ?).
    unfold bind, reads in Hrun.
    destruct (hasAddEventListener s) eqn:Hhas.
    + apply addEventListener_inv in Hrun as (_ & [Hnd0 Hsub0] & Hin0 & Hcalls0).
      split; [unfold count_calls; congruence|].
      intros s2 Hsteps. apply steps_grow in Hsteps as [Hnd2 Hsub2].
      apply count_calls_dispatch; [tauto | set_solver].
    + unfold attachEvent, writes in Hrun. simplify_eq. simpl in Hhas'.
      congruence.
  - intros s2 Hsteps. apply steps_grow in Hsteps as [Hnd2 Hsub2].
    assert (listeners_grow s s') as [Hnd' _].
    { change s' with ((Ok (), s') : Result unit * State).2. rewrite <- Hrun.
      apply runWhenDOMLoaded_grows. }
    apply count_calls_dispatch; [tauto | set_solver].
Qed.

(** C4.  In a browser whose document has [addEventListener]: a
    registration [initFunction cb] made while the document is loading
    returns without calling [cb], and [cb] is called once whenever
    [DOMContentLoaded] is dispatched later and once whenever
    [turbolinks:load] is dispatched later.  A registration made on a
    document that is not loading calls [cb] once, at once, and ends as that
    call ends: when the call returns, [cb] is called once whenever
    [turbolinks:load] is dispatched later; when the call throws, the
    registration stops there, and a dispatch of [turbolinks:load] does not
    call [cb] unless it was registered before. *)
Theorem initFunction_schedule (cb : Callback) (s : State) :
  NoDup (listeners s) → hasAddEventListener s = true →
  let s1 := exec (initFunction cb) s in
  (readyState s = Loading →
     outcome (initFunction cb) s = Ok ()
     ∧ count_calls cb s1 = count_calls cb s
     ∧ ∀ s2, rtc step s1 s2 →
         count_calls cb (dispatchEvent Document "DOMContentLoaded" None s2)
         = S (count_calls cb s2)
         ∧ count_calls cb (dispatchEvent Document "turbolinks:load" None s2)
           = S (count_calls cb s2))
  ∧ (readyState s ≠ Loading →
     count_calls cb s1 = S (count_calls cb s)
     ∧ outcome (initFunction cb) s = outcome (call cb None) s
     ∧ (outcome (call cb None) s = Ok () →
        ∀ s2, rtc step s1 s2 →
          count_calls cb (dispatchEvent Document "turbolinks:load" None s2)
          = S (count_calls cb s2))
     ∧ (∀ e, outcome (call cb None) s = Throw e →
          s1 = exec (call cb None) s
          ∧ ((Document, "turbolinks:load", cb) ∉ listeners s →
             count_calls cb (dispatchEvent Document "turbolinks:load" None s1)
             = count_calls cb s1))).
Proof.
  intros Hnd Hhas s1. split.
  - intros Hload.
    destruct (addEventListener_returns Document "DOMContentLoaded" cb s Hhas)
      as (sa & Hsa & Hhasa).
    destruct (addEventListener_returns Document "turbolinks:load" cb sa Hhasa)
      as (sb & Hsb & _).
    assert (initFunction cb s = (Ok (), sb)) as Hrun.
    { unfold initFunction.
      erewrite bind_ok; [exact Hsb|].
      by rewrite runWhenDOMLoaded_loading. }
    assert (s1 = sb) as -> by (unfold s1, exec; by rewrite Hrun).
    destruct (initFunction_returned cb s sb Hnd Hrun) as [Hl Ht].
    destruct (Hl Hload) as [Hc Hd].
    split; [unfold outcome; by rewrite Hrun|]. split; [exact Hc|].
    intros s2 Hs2. split; [by apply Hd | by apply Ht].
  - intros Hready.
    assert (runWhenDOMLoaded cb s = call cb None s) as Hrw.
    { unfold runWhenDOMLoaded, bind at 1, reads. by rewrite bool_decide_true. }
    pose proof (calls_invoke cb None s) as Hcalls.
    pose proof (run_keeps_hasAddEventListener cb None
                  (set_calls (calls s ++ [cb]) s)) as Hkeep.
    pose proof (run_keeps_load_listeners cb None
                  (set_calls (calls s ++ [cb]) s)) as Hkept.
    unfold invoke in Hcalls.
    change (exec (run cb None) (set_calls (calls s ++ [cb]) s))
      with (exec (call cb None) s) in Hkeep, Hkept.
    unfold keeps in Hkeep. simpl in Hkeep.
    unfold exec in Hcalls, Hkeep, Hkept. unfold outcome.
    destruct (call cb None s) as [[[]|e] sa] eqn:Hcall; cbn [fst snd] in *.
    + rewrite Hhas in Hkeep.
      destruct (addEventListener_returns Document "turbolinks:load" cb sa Hkeep)
        as (sb & Hsb & _).
      assert (initFunction cb s = (Ok (), sb)) as Hrun.
      { unfold initFunction. erewrite bind_ok; [exact Hsb|]. by rewrite Hrw. }
      assert (s1 = sb) as -> by (unfold s1, exec; by rewrite Hrun).
      destruct (initFunction_returned cb s sb Hnd Hrun) as [_ Ht].
      apply addEventListener_inv in Hsb as (_ & _ & _ & Hcb).
      split; [|split; [by rewrite Hrun|split; [done|done]]].
      unfold count_calls. rewrite Hcb, Hcalls, filter_app, length_app.
      rewrite filter_cons, decide_True by done. simpl. lia.
    + assert (initFunction cb s = (Throw e, sa)) as Hrun.
      { unfold initFunction. erewrite bind_throw; [done|]. by rewrite Hrw. }
      assert (s1 = sa) as -> by (unfold s1, exec; by rewrite Hrun).
      split; [|split; [by rewrite Hrun|split; [done|]]].
      { unfold count_calls. rewrite Hcalls, filter_app, length_app.
        rewrite filter_cons, decide_True by done. simpl. lia. }
      intros e' _. split; [unfold exec; by rewrite Hcall|]. intros Hnot.
      unfold count_calls. rewrite calls_dispatchEvent, filter_app, length_app.
      unfold handlers. rewrite handlers_not_in; [simpl; lia|].
      intros Hin. by apply Hnot, Hkept.
Qed.

Lemma initFunction_schedule_witness :
  let cb := Named FindCodeCells in
  let l1 := exec (initFunction cb) loading_state in
  let r1 := exec (initFunction cb) sample_state in
  (outcome (initFunction cb) loading_state = Ok ()
   ∧ count_calls cb l1 = count_calls cb loading_state
   ∧ count_calls cb (dispatchEvent Document "DOMContentLoaded" None l1)
     = S (count_calls cb l1)
   ∧ count_calls cb (dispatchEvent Document "turbolinks:load" None l1)
     = S (count_calls cb l1))
  ∧ (count_calls cb r1 = S (count_calls cb sample_state)
     ∧ count_calls cb (dispatchEvent Document "turbolinks:load" None r1)
       = S (count_calls cb r1)).
Proof.
  intros cb l1 r1.
  assert (NoDup (listeners loading_state)) as Hnl by apply NoDup_nil_2.
  assert (NoDup (listeners sample_state)) as Hns by apply NoDup_nil_2.
  assert (readyState sample_state ≠ Loading) as Hr by by intros ?.
  assert (outcome (call cb None) sample_state = Ok ()) as Hok
    by by vm_compute.
  destruct (initFunction_schedule cb loading_state Hnl eq_refl) as [Hl _].
  destruct (Hl eq_refl) as (H1 & H2 & H3).
  destruct (H3 l1 (rtc_refl _ _)) as [H4 H5].
  destruct (initFunction_schedule cb sample_state Hns eq_refl) as [_ Hs].
  destruct (Hs Hr) as (H6 & _ & H7 & _).
  pose proof (H7 Hok r1 (rtc_refl _ _)) as H8.
  split.
  - split; [exact H1|]. split; [exact H2|]. split; [exact H4 | exact H5].
  - split; [exact H6 | exact H8].
Defined.

(** A function that throws on its first call, on a document that is
    ready: [initHiddenCells] on a page whose tagged cell shows a checkbox
    of its own, with no [data-id].  The registration calls it once and
    ends with its TypeError; it is not a listener for [turbolinks:load],
    and a later dispatch of [turbolinks:load] does not call it. *)
Lemma initFunction_not_registered :
  let s := exec findInputCells plain_widget_state in
  let cb := Named InitHiddenCells in
  let s1 := exec (initFunction cb) s in
  readyState s = Complete
  ∧ hasAddEventListener s = true
  ∧ outcome (initFunction cb) s = Throw TypeError
  ∧ count_calls cb s = 0
  ∧ count_calls cb s1 = 1
  ∧ listeners s1 = []
  ∧ count_calls cb (dispatchEvent Document "turbolinks:load" None s1) = 1.
Proof. intros s cb s1. by vm_compute. Qed.

(** ** A revisit of the page, the cells collapsed again *)

(** The loop of [initHiddenCells] returns when every checkbox of the list
    has an identifier for its [data-id] that leads to a [div.highlight]. *)
Lemma collapse_loop_returns items s :
  (∀ it, it ∈ items →
     ∃ e, find_elem it (document s) = Some e
          ∧ css_identifier (js_string (attrs e !! "data-id")) = true
          ∧ select (highlightOf (js_string (attrs e !! "data-id")))
                   (document s) ≠ []) →
  outcome (forEach items collapse_step) s = Ok ().
Proof.
  revert s. induction items as [|it r IH]; intros s Hall; [done|].
  destruct (Hall it) as (e & He & Hid & Hsel); [left|].
  pose proof (collapse_step_eq it s) as Hstep.
  rewrite He, Hid in Hstep.
  destruct (select _ (document s)) as [|h hs] eqn:Hh; [done|].
  destruct (find_elem_Some h (document s)) as [eh Heh].
  { eapply select_nids. rewrite Hh. left. }
  cbn [head] in Hstep. rewrite Heh in Hstep.
  unfold outcome. rewrite (forEach_cons_ok r collapse_step it s _ Hstep).
  apply IH. intros it' Hit'.
  destruct (Hall it') as (e' & He' & Hid' & Hsel'); [by right|].
  destruct (collapse_glyph_facts it h) as (Hg1 & _).
  set (g1 := upd it (with_checked true) ∘ upd it (with_checked false)
             ∘ upd h (with_class "hidden")) in *.
  assert (attrs (g1 e') = attrs e') as Ha by apply Hg1.
  exists (g1 e'). simpl. split; [|split].
  - rewrite find_elem_tmap by (intros x; apply Hg1). by rewrite He'.
  - by rewrite Ha.
  - by rewrite Ha, (select_restyle g1 _ _ Hg1 (highlightOf_plain _)).
Qed.

(** X20.  On a page that already has its hide buttons (a revisit),
    [initHiddenCells] adds and removes no element, whether it returns or
    throws.  It returns when the [data-id] of every checkbox below a tagged
    [div] is an identifier that leads to a [div.highlight]; and when it
    returns, every such checkbox whose [data-id] is an identifier is
    checked and the [div.highlight] that its [data-id] leads to is hidden
    again, whatever the reader had opened. *)
Theorem revisit_collapses_again (s : State) :
  wf (document s) → guarded (document s) →
  let s' := exec initHiddenCells s in
  nids (document s') = nids (document s)
  ∧ ((∀ it e, it ∈ select hiddenInputs (document s) →
        find_elem it (document s) = Some e →
        css_identifier (js_string (attrs e !! "data-id")) = true
        ∧ select (highlightOf (js_string (attrs e !! "data-id")))
                 (document s) ≠ []) →
     outcome initHiddenCells s = Ok ())
  ∧ (outcome initHiddenCells s = Ok () →
     ∀ it e, it ∈ select hiddenInputs (document s) →
       find_elem it (document s) = Some e →
       css_identifier (js_string (attrs e !! "data-id")) = true →
       (checked <$> find_elem it (document s')) = Some true
       ∧ highlight_hidden (js_string (attrs e !! "data-id")) (document s')
         = true).
Proof.
  intros Hwf Hg s'.
  assert (initHiddenCells s
          = forEach (select hiddenInputs (document s)) collapse_step s)
    as Hform.
  { by rewrite initHiddenCells_form, (addHideButton_guarded _ Hg). }
  split; [|split].
  - pose proof (initHiddenCells_restyled s) as Hr.
    unfold exec at 1 in Hr. rewrite (addHideButton_guarded _ Hg) in Hr.
    by apply nids_restyled.
  - intros Hall. unfold outcome. rewrite Hform.
    apply collapse_loop_returns. intros it Hit.
    destruct (find_elem_Some it (document s)) as [e He].
    { by eapply select_nids. }
    exists e. split; [done|]. by apply (Hall it).
  - intros Hok it e Hit He _.
    assert (initHiddenCells s = (Ok (), s')) as Hrun.
    { unfold s', exec. unfold outcome in Hok.
      destruct (initHiddenCells s) as [[[]|?] ?]; by simplify_eq/=. }
    rewrite Hform in Hrun.
    destruct (collapse_loop _ s s' (select_NoDup _ _ Hwf) Hrun)
      as (g & Hgr & Hdoc & _ & Hitems).
    assert (∀ x, nid (g x) = nid x) as Hn by (intros x; apply Hgr).
    destruct (Hitems it e Hit He) as (Hchk & h & eh & Hsel & Hfh & Hhid).
    split.
    + by rewrite Hdoc, find_elem_tmap, He; [simpl; rewrite Hchk|].
    + unfold highlight_hidden.
      rewrite Hdoc, (select_restyle g _ _ Hgr (highlightOf_plain _)), Hsel.
      rewrite find_elem_tmap by done. rewrite Hfh. simpl.
      by rewrite bool_decide_true.
Qed.

Lemma revisit_collapses_again_witness :
  let s := exec (setCodeCellVisibility 37 "visible")
             (exec initHiddenCells (exec findInputCells sample_state)) in
  let s' := exec initHiddenCells s in
  highlight_hidden "inputcell0" (document s) = false
  ∧ nids (document s') = nids (document s)
  ∧ outcome initHiddenCells s = Ok ()
  ∧ (checked <$> find_elem 37 (document s')) = Some true
  ∧ highlight_hidden "inputcell0" (document s') = true.
Proof.
  intros s s'.
  assert (wf (document s)) as Hwf.
  { apply (bool_decide_unpack (wf _)). vm_compute. exact I. }
  assert (guarded (document s)) as Hg by (unfold guarded; by vm_compute).
  assert (∀ it e, it ∈ select hiddenInputs (document s) →
            find_elem it (document s) = Some e →
            css_identifier (js_string (attrs e !! "data-id")) = true
            ∧ select (highlightOf (js_string (attrs e !! "data-id")))
                     (document s) ≠ []) as Hall.
  { intros it e Hit He.
    assert (select hiddenInputs (document s) = [37; 41]) as Hsel
      by by vm_compute.
    rewrite Hsel in Hit. clear Hsel Hwf Hg.
    apply elem_of_cons in Hit as [Hit|Hit];
      [|apply list_elem_of_singleton in Hit];
      rewrite Hit in He; vm_compute in He; injection He as <-;
      by vm_compute. }
  assert (highlight_hidden "inputcell0" (document s) = false) as Hopen
    by by vm_compute.
  assert (37 ∈ select hiddenInputs (document s)) as Hin
    by (vm_compute; left).
  assert (find_elem 37 (document s)
          = Some (with_checked true
                    (el 37 "input" ["hidebtn"]
                        [("type", "checkbox"); ("id", "hidebtninputcell0");
                         ("data-id", "inputcell0")]))) as He
    by by vm_compute.
  destruct (revisit_collapses_again s Hwf Hg) as (Hn & Hret & Hcol).
  split; [exact Hopen|]. split; [exact Hn|].
  split; [exact (Hret Hall)|].
  exact (Hcol (Hret Hall) 37 _ Hin He eq_refl).
Defined.
